(** * mcrouter/proxy.cpp: the per-worker proxy engine

    A shallow embedding of [mcrouter/proxy.cpp] and the properties its
    specification states about it: default-route parsing, request
    construction and the legacy service-info rewrite, admission control
    ([rateLimited], [dispatchRequest], [pump]), the reply latch
    ([sendReply], [continueSendReply]), the fiber routing task, the
    reconfiguration driver and the shadowing-policy constructor. *)

From Stdlib Require Import ZArith Lia Ascii String.
From Stdlib Require QArith.
From stdpp Require Import base option list finite gmap strings.

Local Open Scope string_scope.

(** ** std::string and C strings *)

Module Str.

(** [std::string::empty]. *)
Definition empty (s : string) : bool :=
  match s with EmptyString => true | String _ _ => false end.

(** [std::string::back]: the last character ([None] on the empty string,
    where C++ leaves the behaviour undefined). *)
Fixpoint back (s : string) : option ascii :=
  match s with
  | EmptyString => None
  | String a EmptyString => Some a
  | String _ s' => back s'
  end.

(** [s.find(c, pos)]: the first index [i >= pos] with [s[i] == c];
    [None] stands for [std::string::npos]. *)
Fixpoint find (c : ascii) (pos : nat) (s : string) : option nat :=
  match s with
  | EmptyString => None
  | String a s' =>
      match pos with
      | O => if Ascii.eqb a c then Some O else S <$> find c O s'
      | S pos' => S <$> find c pos' s'
      end
  end.

(** The first [n] characters of [s] (all of it when it is shorter). *)
Fixpoint take (n : nat) (s : string) : string :=
  match n, s with
  | S n', String a s' => String a (take n' s')
  | _, _ => EmptyString
  end.

(** [s] without its first [n] characters; [None] when [n > s.size()]. *)
Fixpoint drop (n : nat) (s : string) : option string :=
  match n, s with
  | O, _ => Some s
  | S _, EmptyString => None
  | S n', String _ s' => drop n' s'
  end.

(** [s.substr(pos, n)]: throws [std::out_of_range] ([None]) when
    [pos > s.size()], otherwise the at most [n] characters from [pos]. *)
Definition substr (pos n : nat) (s : string) : option string :=
  take n <$> drop pos s.

(** No character of [s] is [c]. *)
Fixpoint lacks (c : ascii) (s : string) : bool :=
  match s with
  | EmptyString => true
  | String a s' => negb (Ascii.eqb a c) && lacks c s'
  end.

(** The bytes a C function sees behind [s.c_str()]: everything before
    the first NUL byte. [strlen] is the length of this view. *)
Fixpoint c_str (s : string) : string :=
  match s with
  | EmptyString => EmptyString
  | String a s' => if Ascii.eqb a zero then EmptyString else String a (c_str s')
  end.

(** [strncmp(a, b, n) == 0] on NUL-terminated buffers holding [a] and
    [b]: the first [n] characters agree, the comparison stopping early
    where both strings have a NUL byte; the end of a string is its
    terminating NUL. *)
Fixpoint strncmp_eq (a b : string) (n : nat) {struct n} : bool :=
  match n with
  | O => true
  | S n' =>
      match a, b with
      | String x a', String y b' =>
          Ascii.eqb x y && (Ascii.eqb x zero || strncmp_eq a' b' n')
      | EmptyString, EmptyString => true
      | EmptyString, String y _ => Ascii.eqb y zero
      | String x _, EmptyString => Ascii.eqb x zero
      end
  end.

End Str.

(** ** boost::regex, as far as the default-route pattern needs it *)

Module Regex.

Inductive regex : Type :=
  | bol                          (* ^ *)
  | eol                          (* $ *)
  | chr (c : ascii)              (* a literal character *)
  | not_chr (c : ascii)          (* [^c] *)
  | cat (r1 r2 : regex)          (* r1 r2 *)
  | plus (r : regex)             (* r+ *)
  | opt (r : regex).             (* r? *)

(** A matcher in continuation-passing style. [at_start] tells whether no
    character has been consumed yet; [k] decides what is left. *)
Definition cont : Type := bool -> string -> bool.

Fixpoint iter_plus (step : bool -> string -> cont -> bool)
    (fuel : nat) (at_start : bool) (s : string) (k : cont) : bool :=
  step at_start s (fun b rest =>
    k b rest ||
    match fuel with
    | O => false
    | S fuel' => iter_plus step fuel' b rest k
    end).

Fixpoint accept (r : regex) (at_start : bool) (s : string) (k : cont) : bool :=
  match r with
  | bol => at_start && k at_start s
  | eol => Str.empty s && k at_start s
  | chr c =>
      match s with
      | String a s' => Ascii.eqb a c && k false s'
      | EmptyString => false
      end
  | not_chr c =>
      match s with
      | String a s' => negb (Ascii.eqb a c) && k false s'
      | EmptyString => false
      end
  | cat r1 r2 => accept r1 at_start s (fun b rest => accept r2 b rest k)
  | plus r1 => iter_plus (accept r1) (String.length s) at_start s k
  | opt r1 => accept r1 at_start s k || k at_start s
  end.

(** [boost::regex_match]: the pattern has to match the whole input. *)
Definition regex_match (s : string) (r : regex) : bool :=
  accept r true s (fun _ rest => Str.empty rest).

End Regex.

Import Regex.

(** [boost::regex routeRegex("^/[^/]+/[^/]+/?$")]. *)
Definition routeRegex : regex :=
  cat bol (cat (chr "/") (cat (plus (not_chr "/")) (cat (chr "/")
    (cat (plus (not_chr "/")) (cat (opt (chr "/")) eol))))).


(** ** Outcomes of a call

    A call either returns, or it stops: on a failed [FBI_ASSERT] or
    [assert], on an access through a pointer to a request that is no
    longer alive, or with a C++ exception. [out_of_fuel] is the model's
    own: it marks a loop cut off before it finished, and is shown below
    never to come out of [pump]. *)

Inductive failure : Type :=
  | assertion_failed
  | invalid_pointer
  | thrown (what : string)
  | out_of_fuel.

Inductive res (A : Type) : Type :=
  | Ok (a : A)
  | Err (e : failure).
Arguments Ok {A} a.
Arguments Err {A} e.

#[global] Instance res_ret : MRet res := @Ok.
#[global] Instance res_bind : MBind res := fun A B f m =>
  match m with
  | Ok a => f a
  | Err e => Err e
  end.

Definition is_Ok {A} (r : res A) : bool :=
  match r with Ok _ => true | Err _ => false end.

(** [FBI_ASSERT(b)] and [assert(b)]. *)
Definition FBI_ASSERT (b : bool) : res unit :=
  if b then Ok tt else Err assertion_failed.

(** [checkLogic(b, msg)] (mcrouter/lib/fbi/cpp/util.h) throws
    [std::logic_error(msg)] unless [b] holds. *)
Definition checkLogic (b : bool) (msg : string) : res unit :=
  if b then Ok tt else Err (thrown msg).

(** ** Messages (mcrouter/lib/mc/msg.h) *)

Inductive mc_op_t : Type :=
  | mc_op_unknown | mc_op_echo | mc_op_quit | mc_op_version
  | mc_op_servererr | mc_op_get | mc_op_set | mc_op_add | mc_op_replace
  | mc_op_append | mc_op_prepend | mc_op_cas | mc_op_delete | mc_op_incr
  | mc_op_decr | mc_op_flushall | mc_op_flushre | mc_op_stats
  | mc_op_verbosity | mc_op_lease_get | mc_op_lease_set | mc_op_shutdown
  | mc_op_end | mc_op_metaget | mc_op_exec | mc_op_gets
  | mc_op_get_service_info.

#[global] Instance mc_op_eq_dec : EqDecision mc_op_t.
Proof. solve_decision. Defined.

Inductive mc_res_t : Type :=
  | mc_res_unknown | mc_res_deleted | mc_res_found | mc_res_notfound
  | mc_res_notstored | mc_res_stored | mc_res_ok | mc_res_timeout
  | mc_res_connect_error | mc_res_busy | mc_res_remote_error
  | mc_res_local_error.

#[global] Instance mc_res_eq_dec : EqDecision mc_res_t.
Proof. solve_decision. Defined.

Record mc_msg_t : Type := mk_msg {
  op : mc_op_t;
  result : mc_res_t;
  key : string;
  value : string;
}.

#[global] Instance mc_msg_eq_dec : EqDecision mc_msg_t.
Proof. solve_decision. Defined.

Definition set_op (o : mc_op_t) (m : mc_msg_t) : mc_msg_t :=
  mk_msg o (result m) (key m) (value m).

(** [McReply::releasedMsg(op)]: the reply as a message carrying [op]. *)
Definition releasedMsg (o : mc_op_t) (reply : mc_msg_t) : mc_msg_t :=
  set_op o reply.

(** [new_reply(str)]: a fresh message whose value is a copy of the
    [strlen(str)] bytes of [str]. *)
Definition new_reply (str : string) : mc_msg_t :=
  mk_msg mc_op_unknown mc_res_unknown "" (Str.c_str str).

(** [create_reply(op, result, str)]. *)
Definition create_reply (o : mc_op_t) (r : mc_res_t) (str : string) : mc_msg_t :=
  let reply := new_reply str in
  mk_msg o r (key reply) (value reply).

(** [const std::string kInternalGetPrefix = "__mcrouter__."]. *)
Definition kInternalGetPrefix : string := "__mcrouter__.".

(** [shift_nstring_inplace(nstr, pos)]: [str += pos; len -= pos]. The
    constructor calls it only after [strncmp] has found [pos] characters
    in front; a shorter string has nothing behind them. *)
Definition shift_nstring_inplace (nstr : string) (pos : nat) : string :=
  default "" (Str.drop pos nstr).

(** ** Statistics (mcrouter/stats.h) *)

Inductive stat_name_t : Type :=
  | proxy_request_num_outstanding_stat | proxy_reqs_processing_stat
  | proxy_reqs_waiting_stat
  | cmd_stats_stat | cmd_stats_count_stat | cmd_get_stat | cmd_get_count_stat
  | cmd_meta_stat | cmd_add_stat | cmd_add_count_stat
  | cmd_replace_stat | cmd_replace_count_stat | cmd_set_stat | cmd_set_count_stat
  | cmd_incr_stat | cmd_incr_count_stat | cmd_decr_stat | cmd_decr_count_stat
  | cmd_delete_stat | cmd_delete_count_stat
  | cmd_lease_set_stat | cmd_lease_set_count_stat
  | cmd_lease_get_stat | cmd_lease_get_count_stat
  | cmd_other_stat | cmd_other_count_stat
  | request_sent_stat | request_sent_count_stat
  | request_replied_stat | request_replied_count_stat
  | request_error_stat | request_error_count_stat
  | request_success_stat | request_success_count_stat
  | num_servers_stat | config_last_success_stat.

#[global] Instance stat_name_eq_dec : EqDecision stat_name_t.
Proof. solve_decision. Defined.

Definition stat_names : list stat_name_t :=
  [ proxy_request_num_outstanding_stat; proxy_reqs_processing_stat;
    proxy_reqs_waiting_stat;
    cmd_stats_stat; cmd_stats_count_stat; cmd_get_stat; cmd_get_count_stat;
    cmd_meta_stat; cmd_add_stat; cmd_add_count_stat;
    cmd_replace_stat; cmd_replace_count_stat; cmd_set_stat; cmd_set_count_stat;
    cmd_incr_stat; cmd_incr_count_stat; cmd_decr_stat; cmd_decr_count_stat;
    cmd_delete_stat; cmd_delete_count_stat;
    cmd_lease_set_stat; cmd_lease_set_count_stat;
    cmd_lease_get_stat; cmd_lease_get_count_stat;
    cmd_other_stat; cmd_other_count_stat;
    request_sent_stat; request_sent_count_stat;
    request_replied_stat; request_replied_count_stat;
    request_error_stat; request_error_count_stat;
    request_success_stat; request_success_count_stat;
    num_servers_stat; config_last_success_stat ].

#[global] Program Instance stat_name_finite : Finite stat_name_t :=
  {| enum := stat_names |}.
Next Obligation. apply (bool_decide_unpack (NoDup stat_names)). vm_compute. exact I. Qed.
Next Obligation. intros x. apply (bool_decide_unpack (x ∈ stat_names)). destruct x; vm_compute; exact I. Qed.

(** The [stats] array of a proxy, zeroed by the constructor's [memset]:
    a counter that was never written reads as 0. *)
Abbreviation stats_t := (gmap stat_name_t Z).

Definition stat_get (s : stat_name_t) (st : stats_t) : Z :=
  default 0%Z (st !! s).

Definition stats_incr (s : stat_name_t) (n : Z) (st : stats_t) : stats_t :=
  <[s := (stat_get s st + n)%Z]> st.

Definition stats_decr (s : stat_name_t) (n : Z) (st : stats_t) : stats_t :=
  <[s := (stat_get s st - n)%Z]> st.

Definition stats_set (s : stat_name_t) (n : Z) (st : stats_t) : stats_t :=
  <[s := n]> st.


(** ** Configuration snapshots and the proxy *)

Inductive proxy_pool_type_t : Type :=
  | REGULAR_POOL | REGIONAL_POOL | MIGRATED_POOL.

Record ProxyGenericPool : Type := {
  pool_name : string;
  pool_type : proxy_pool_type_t;
  clients : list string;
}.

Record ProxyConfig : Type := {
  poolsMap : list (string * ProxyGenericPool);
  clientsMap : list string;
  configMd5Digest : string;
}.

Record McrouterOptions : Type := {
  opt_default_route : string;
  proxy_max_inflight_requests : Z;
  sync : bool;
  num_proxies : nat;
  constantly_reload_configs : bool;
}.

(** An entry of the proxy's intake queue ([asox_queue_entry_t]). *)
Inductive queue_entry_t : Type :=
  | request_type_old_config (oldConfig : ProxyConfig) (time_enqueued : Z).

(** A destination of the [ProxyDestinationMap] and its "used" mark. *)
Record ProxyDestination : Type := {
  dest_key : string;
  dest_used : bool;
}.

(** Requests are heap objects; a [proxy_request_t*] is an address. *)
Abbreviation preq_ptr := nat (only parsing).

(** The members of [proxy_t] that this file reads or writes. The types
    of the counters are declared in proxy.h, outside this file; they are
    counted in [Z]. *)
Record proxy_t : Type := mk_proxy {
  opts : McrouterOptions;
  destinationMap : list ProxyDestination;
  fiberManager : list preq_ptr;        (* tasks added and not yet run *)
  waitingRequests_ : list preq_ptr;    (* the TAILQ, head first *)
  stats : stats_t;
  default_route : string;
  default_region : string;
  default_cluster : string;
  request_queue : list queue_entry_t;
  config_ : option ProxyConfig;
  numRequestsProcessing_ : Z;
}.

Definition with_destinationMap (d : list ProxyDestination) (p : proxy_t) : proxy_t :=
  mk_proxy (opts p) d (fiberManager p) (waitingRequests_ p) (stats p)
    (default_route p) (default_region p) (default_cluster p)
    (request_queue p) (config_ p) (numRequestsProcessing_ p).

Definition with_fiberManager (f : list preq_ptr) (p : proxy_t) : proxy_t :=
  mk_proxy (opts p) (destinationMap p) f (waitingRequests_ p) (stats p)
    (default_route p) (default_region p) (default_cluster p)
    (request_queue p) (config_ p) (numRequestsProcessing_ p).

Definition with_waitingRequests (q : list preq_ptr) (p : proxy_t) : proxy_t :=
  mk_proxy (opts p) (destinationMap p) (fiberManager p) q (stats p)
    (default_route p) (default_region p) (default_cluster p)
    (request_queue p) (config_ p) (numRequestsProcessing_ p).

Definition with_stats (st : stats_t) (p : proxy_t) : proxy_t :=
  mk_proxy (opts p) (destinationMap p) (fiberManager p) (waitingRequests_ p) st
    (default_route p) (default_region p) (default_cluster p)
    (request_queue p) (config_ p) (numRequestsProcessing_ p).

Definition with_default_route (s : string) (p : proxy_t) : proxy_t :=
  mk_proxy (opts p) (destinationMap p) (fiberManager p) (waitingRequests_ p)
    (stats p) s (default_region p) (default_cluster p)
    (request_queue p) (config_ p) (numRequestsProcessing_ p).

Definition with_default_region (s : string) (p : proxy_t) : proxy_t :=
  mk_proxy (opts p) (destinationMap p) (fiberManager p) (waitingRequests_ p)
    (stats p) (default_route p) s (default_cluster p)
    (request_queue p) (config_ p) (numRequestsProcessing_ p).

Definition with_default_cluster (s : string) (p : proxy_t) : proxy_t :=
  mk_proxy (opts p) (destinationMap p) (fiberManager p) (waitingRequests_ p)
    (stats p) (default_route p) (default_region p) s
    (request_queue p) (config_ p) (numRequestsProcessing_ p).

Definition with_request_queue (q : list queue_entry_t) (p : proxy_t) : proxy_t :=
  mk_proxy (opts p) (destinationMap p) (fiberManager p) (waitingRequests_ p)
    (stats p) (default_route p) (default_region p) (default_cluster p)
    q (config_ p) (numRequestsProcessing_ p).

Definition with_config (c : option ProxyConfig) (p : proxy_t) : proxy_t :=
  mk_proxy (opts p) (destinationMap p) (fiberManager p) (waitingRequests_ p)
    (stats p) (default_route p) (default_region p) (default_cluster p)
    (request_queue p) c (numRequestsProcessing_ p).

Definition with_numRequestsProcessing (n : Z) (p : proxy_t) : proxy_t :=
  mk_proxy (opts p) (destinationMap p) (fiberManager p) (waitingRequests_ p)
    (stats p) (default_route p) (default_region p) (default_cluster p)
    (request_queue p) (config_ p) n.

(** Modelled from the spec: [stat_incr], [stat_decr], [stat_set_uint64]
    and their [_safe] variants (mcrouter/stats.h) are not in this file;
    they add to, take from and set one counter of the proxy. *)
Definition stat_incr (s : stat_name_t) (n : Z) (p : proxy_t) : proxy_t :=
  with_stats (stats_incr s n (stats p)) p.
Definition stat_decr (s : stat_name_t) (n : Z) (p : proxy_t) : proxy_t :=
  with_stats (stats_decr s n (stats p)) p.
Definition stat_set_uint64 (s : stat_name_t) (n : Z) (p : proxy_t) : proxy_t :=
  with_stats (stats_set s n (stats p)) p.

(** ** proxy_set_default_route *)

Definition slash : ascii := "/"%char.

Definition proxy_set_default_route (proxy : proxy_t) (str : string) : res proxy_t :=
  if Str.empty str then Ok proxy
  else if negb (regex_match str routeRegex) then Ok proxy
  else
    let proxy := with_default_route str proxy in
    let proxy :=
      if negb (bool_decide (Str.back str = Some slash))
      then with_default_route (default_route proxy ++ "/") proxy
      else proxy in
    let regionEnd := Str.find slash 1 (default_route proxy) in
    _ ← FBI_ASSERT (bool_decide (is_Some regionEnd));
    let regionEnd := default 0 regionEnd in
    match Str.substr 1 (regionEnd - 1) (default_route proxy) with
    | None => Err (thrown "std::out_of_range")
    | Some region =>
        let proxy := with_default_region region proxy in
        let clusterEnd := Str.find slash (regionEnd + 1) (default_route proxy) in
        _ ← FBI_ASSERT (bool_decide (is_Some clusterEnd));
        let clusterEnd := default 0 clusterEnd in
        match Str.substr (regionEnd + 1) (clusterEnd - regionEnd - 1)
                (default_route proxy) with
        | None => Err (thrown "std::out_of_range")
        | Some cluster => Ok (with_default_cluster cluster proxy)
        end
    end.

(** ** Requests *)

Inductive reply_state_t : Type :=
  | REPLY_STATE_NO_REPLY
  | REPLY_STATE_REPLY_DELAYED
  | REPLY_STATE_REPLIED.

#[global] Instance reply_state_eq_dec : EqDecision reply_state_t.
Proof. solve_decision. Defined.

Record proxy_request_t : Type := mk_preq {
  orig_req : mc_msg_t;
  reply : option mc_msg_t;             (* a null [McMsgRef] is [None] *)
  reply_state : reply_state_t;
  delay_reply : Z;
  failover_disabled : Z;
  _refcount : Z;
  sender_id : Z;
  legacy_get_service_info : bool;
  reqComplete_ : bool;                 (* is the completion callback set *)
  processing_ : bool;
}.

Definition with_reply (r : option mc_msg_t) (q : proxy_request_t) : proxy_request_t :=
  mk_preq (orig_req q) r (reply_state q) (delay_reply q) (failover_disabled q)
    (_refcount q) (sender_id q) (legacy_get_service_info q) (reqComplete_ q)
    (processing_ q).

Definition with_reply_state (s : reply_state_t) (q : proxy_request_t) : proxy_request_t :=
  mk_preq (orig_req q) (reply q) s (delay_reply q) (failover_disabled q)
    (_refcount q) (sender_id q) (legacy_get_service_info q) (reqComplete_ q)
    (processing_ q).

Definition with_delay_reply (d : Z) (q : proxy_request_t) : proxy_request_t :=
  mk_preq (orig_req q) (reply q) (reply_state q) d (failover_disabled q)
    (_refcount q) (sender_id q) (legacy_get_service_info q) (reqComplete_ q)
    (processing_ q).

Definition with_refcount (n : Z) (q : proxy_request_t) : proxy_request_t :=
  mk_preq (orig_req q) (reply q) (reply_state q) (delay_reply q)
    (failover_disabled q) n (sender_id q) (legacy_get_service_info q)
    (reqComplete_ q) (processing_ q).

Definition with_processing (b : bool) (q : proxy_request_t) : proxy_request_t :=
  mk_preq (orig_req q) (reply q) (reply_state q) (delay_reply q)
    (failover_disabled q) (_refcount q) (sender_id q)
    (legacy_get_service_info q) (reqComplete_ q) b.

(** ** The world of one worker

    The proxy, the requests alive on the heap, and what the two callbacks
    of the front end have been handed so far: [enqueueReply_] is called
    with a request and sees its reply, [reqComplete_] is called with a
    request. A request is alive from the end of its constructor to the
    start of its destructor. *)

Record world : Type := mk_world {
  proxy : proxy_t;
  heap : gmap preq_ptr proxy_request_t;
  enqueued : list (preq_ptr * option mc_msg_t);
  completed : list preq_ptr;
}.

Definition on_proxy (f : proxy_t -> proxy_t) (w : world) : world :=
  mk_world (f (proxy w)) (heap w) (enqueued w) (completed w).

Definition deref (a : preq_ptr) (w : world) : res proxy_request_t :=
  match heap w !! a with
  | Some q => Ok q
  | None => Err invalid_pointer
  end.

Definition store (a : preq_ptr) (q : proxy_request_t) (w : world) : world :=
  mk_world (proxy w) (<[a := q]> (heap w)) (enqueued w) (completed w).

Definition free (a : preq_ptr) (w : world) : world :=
  mk_world (proxy w) (delete a (heap w)) (enqueued w) (completed w).

(** The callback [enqueueReply_(preq)]. *)
Definition enqueueReply_ (a : preq_ptr) (q : proxy_request_t) (w : world) : world :=
  mk_world (proxy w) (heap w) (enqueued w ++ [(a, reply q)]) (completed w).

(** The callback [reqComplete_(preq)]. *)
Definition call_reqComplete (a : preq_ptr) (w : world) : world :=
  mk_world (proxy w) (heap w) (enqueued w) (completed w ++ [a]).

(** ** Collaborators outside this file *)

Class Collaborators : Type := {
  (** [mc_client_req_is_valid] (mcrouter/lib/mc/msg.h). *)
  mc_client_req_is_valid : mc_msg_t -> bool;
  (** [mc_res_is_err] (mcrouter/lib/mc/msg.h). *)
  mc_res_is_err : mc_res_t -> bool;
  (** [stats_reply(proxy, key)] (mcrouter/stats.h). *)
  stats_reply : proxy_t -> string -> mc_msg_t;
  (** What the configuration's service-info handler answers. *)
  serviceInfo_reply : ProxyConfig -> mc_msg_t -> mc_msg_t;
}.

(** What [proute.dispatchMcMsg] does for one request: it returns a
    reply, or it throws a [std::exception] whose [what()] is [what]. *)
Inductive route_outcome : Type :=
  | route_replied (r : mc_msg_t)
  | route_threw (what : string).

Section Engine.
Context `{!Collaborators}.

(** *** proxy_request_t::proxy_request_t *)

Definition proxy_request_new (a : preq_ptr) (req : mc_msg_t)
    (reqComplete : bool) (senderId : Z) (w : world) : res world :=
  if bool_decide (is_Some (heap w !! a)) then Err invalid_pointer
  else if negb (mc_client_req_is_valid req) then Err (thrown "Invalid request")
  else
    let legacy :=
      bool_decide (op req = mc_op_get) &&
      Str.strncmp_eq (key req) kInternalGetPrefix (String.length kInternalGetPrefix) in
    let orig :=
      if legacy
      then mk_msg mc_op_get_service_info (result req)
             (shift_nstring_inplace (key req) (String.length kInternalGetPrefix))
             (value req)
      else req in
    let q := mk_preq orig None REPLY_STATE_NO_REPLY 0 0 1 senderId legacy
               reqComplete false in
    Ok (on_proxy (stat_incr proxy_request_num_outstanding_stat 1) (store a q w)).

(** *** proxy_request_incref *)

Definition proxy_request_incref (a : preq_ptr) (w : world) : res world :=
  q ← deref a w;
  _ ← FBI_ASSERT (0 <? _refcount q)%Z;
  Ok (store a (with_refcount (_refcount q + 1) q) w).

(** *** proxy_request_t::continueSendReply *)

Definition continueSendReply (a : preq_ptr) (w : world) : res world :=
  q ← deref a w;
  let q := with_reply_state REPLY_STATE_REPLIED q in
  let w := store a q w in
  let w := if negb (sync (opts (proxy w))) then enqueueReply_ a q w else w in
  let w := on_proxy (stat_incr request_replied_stat 1) w in
  let w := on_proxy (stat_incr request_replied_count_stat 1) w in
  match reply q with
  | None => Err invalid_pointer
  | Some r =>
      if mc_res_is_err (result r)
      then Ok (on_proxy (stat_incr request_error_count_stat 1)
                 (on_proxy (stat_incr request_error_stat 1) w))
      else Ok (on_proxy (stat_incr request_success_count_stat 1)
                 (on_proxy (stat_incr request_success_stat 1) w))
  end.

(** *** proxy_request_t::sendReply *)

Definition sendReply (a : preq_ptr) (newReply : mc_msg_t) (w : world) : res world :=
  q ← deref a w;
  _ ← FBI_ASSERT (bool_decide (reply q = None));
  let o := if legacy_get_service_info q then mc_op_get else op (orig_req q) in
  let q := with_reply (Some (set_op o newReply)) q in
  let w := store a q w in
  if negb (bool_decide (reply_state q = REPLY_STATE_NO_REPLY)) then Ok w
  else if (delay_reply q =? 0)%Z then continueSendReply a w
  else Ok (store a (with_reply_state REPLY_STATE_REPLY_DELAYED q) w).

(** *** proxy_on_continue_reply_error

    The log entry [e] is represented by the request it points to. *)

Definition proxy_on_continue_reply_error (a : preq_ptr) (w : world) : res world :=
  q ← deref a w;
  if bool_decide (reply_state q = REPLY_STATE_REPLY_DELAYED) && (delay_reply q =? 1)%Z
  then continueSendReply a w
  else Ok w.

(** *** proxy_t::routeHandlesProcessRequest

    [addTaskFinally] takes a reference on the request and leaves the task
    with the fiber manager; the task runs later ([fiber_task] below).
    Modelled from the spec: the service-info handler
    (mcrouter/ServiceInfo.h) is not in this file; it "owns replying", and
    here it answers at once, through [sendReply]. *)

Definition routeHandlesProcessRequest (a : preq_ptr) (w : world) : res world :=
  q ← deref a w;
  if bool_decide (op (orig_req q) = mc_op_stats) then
    let r := stats_reply (proxy w) (key (orig_req q)) in
    sendReply a (releasedMsg mc_op_stats r) w
  else if bool_decide (op (orig_req q) = mc_op_get_service_info) then
    match config_ (proxy w) with
    | None => Err invalid_pointer
    | Some config => sendReply a (serviceInfo_reply config (orig_req q)) w
    end
  else
    w ← proxy_request_incref a w;
    Ok (on_proxy (fun p => with_fiberManager (fiberManager p ++ [a]) p) w).

(** *** proxy_t::processRequest *)

Definition cmd_stat_incr (o : mc_op_t) (p : proxy_t) : proxy_t :=
  match o with
  | mc_op_stats => stat_incr cmd_stats_count_stat 1 (stat_incr cmd_stats_stat 1 p)
  | mc_op_get => stat_incr cmd_get_count_stat 1 (stat_incr cmd_get_stat 1 p)
  | mc_op_metaget => stat_incr cmd_meta_stat 1 p
  | mc_op_add => stat_incr cmd_add_count_stat 1 (stat_incr cmd_add_stat 1 p)
  | mc_op_replace => stat_incr cmd_replace_count_stat 1 (stat_incr cmd_replace_stat 1 p)
  | mc_op_set => stat_incr cmd_set_count_stat 1 (stat_incr cmd_set_stat 1 p)
  | mc_op_incr => stat_incr cmd_incr_count_stat 1 (stat_incr cmd_incr_stat 1 p)
  | mc_op_decr => stat_incr cmd_decr_count_stat 1 (stat_incr cmd_decr_stat 1 p)
  | mc_op_delete => stat_incr cmd_delete_count_stat 1 (stat_incr cmd_delete_stat 1 p)
  | mc_op_lease_set =>
      stat_incr cmd_lease_set_count_stat 1 (stat_incr cmd_lease_set_stat 1 p)
  | mc_op_lease_get =>
      stat_incr cmd_lease_get_count_stat 1 (stat_incr cmd_lease_get_stat 1 p)
  | _ => stat_incr cmd_other_count_stat 1 (stat_incr cmd_other_stat 1 p)
  end.

Definition processRequest (a : preq_ptr) (w : world) : res world :=
  q ← deref a w;
  _ ← FBI_ASSERT (negb (processing_ q));
  let w := store a (with_processing true q) w in
  let w := on_proxy (fun p =>
             with_numRequestsProcessing (numRequestsProcessing_ p + 1) p) w in
  let w := on_proxy (stat_incr proxy_reqs_processing_stat 1) w in
  let w := on_proxy (cmd_stat_incr (op (orig_req q))) w in
  w ← routeHandlesProcessRequest a w;
  Ok (on_proxy (stat_incr request_sent_count_stat 1)
        (on_proxy (stat_incr request_sent_stat 1) w)).

(** *** proxy_t::rateLimited *)

Definition rateLimited (p : proxy_t) (q : proxy_request_t) : bool :=
  if (proxy_max_inflight_requests (opts p) =? 0)%Z then false
  else if bool_decide (op (orig_req q) = mc_op_stats) ||
          bool_decide (op (orig_req q) = mc_op_version) ||
          bool_decide (op (orig_req q) = mc_op_get_service_info) then false
  else if bool_decide (waitingRequests_ p = []) &&
          (numRequestsProcessing_ p <? proxy_max_inflight_requests (opts p))%Z
       then false
  else true.

(** *** proxy_request_t::~proxy_request_t and proxy_request_decref

    The destructor calls [pump], and [pump] calls [proxy_request_decref]:
    the two are written over the [pump] they call. [delete preq] ends the
    life of the request, runs the destructor's body and frees the memory;
    [requester] is never set in this file and stays out. *)

Definition proxy_request_delete (pump : world -> res world)
    (a : preq_ptr) (w : world) : res world :=
  q ← deref a w;
  let w := free a w in
  if processing_ q then
    let w := on_proxy (fun p =>
               with_numRequestsProcessing (numRequestsProcessing_ p - 1) p) w in
    let w := on_proxy (stat_decr proxy_reqs_processing_stat 1) w in
    pump w
  else Ok w.

Definition proxy_request_decref_with (pump : world -> res world)
    (a : preq_ptr) (w : world) : res world :=
  q ← deref a w;
  _ ← FBI_ASSERT (0 <? _refcount q)%Z;
  let w :=
    if (_refcount q =? 1)%Z then
      let w :=
        if sync (opts (proxy w)) && bool_decide (reply_state q = REPLY_STATE_REPLIED)
        then enqueueReply_ a q w else w in
      if reqComplete_ q then call_reqComplete a w else w
    else w in
  let q := with_refcount (_refcount q - 1) q in
  let w := store a q w in
  if (0 <? _refcount q)%Z then Ok w
  else
    w ← proxy_request_delete pump a w;
    Ok (on_proxy (stat_decr proxy_request_num_outstanding_stat 1) w).

(** *** proxy_t::pump

    Every turn of the loop takes one request off [waitingRequests_], and
    nothing that runs inside a turn puts one on: [fuel] as large as the
    queue is long is never used up ([pump_fuel_enough]). *)

Fixpoint pump_fuel (fuel : nat) (w : world) : res world :=
  if (numRequestsProcessing_ (proxy w) <?
        proxy_max_inflight_requests (opts (proxy w)))%Z &&
     negb (bool_decide (waitingRequests_ (proxy w) = []))
  then
    match fuel, waitingRequests_ (proxy w) with
    | S fuel', preq :: rest =>
        let w := on_proxy (with_waitingRequests rest) w in
        let w := on_proxy (stat_decr proxy_reqs_waiting_stat 1) w in
        w ← processRequest preq w;
        w ← proxy_request_decref_with (pump_fuel fuel') preq w;
        pump_fuel fuel' w
    | _, _ => Err out_of_fuel
    end
  else Ok w.

Definition pump (w : world) : res world :=
  pump_fuel (length (waitingRequests_ (proxy w))) w.

Definition proxy_request_decref : preq_ptr -> world -> res world :=
  proxy_request_decref_with pump.

(** *** proxy_t::dispatchRequest *)

Definition dispatchRequest (a : preq_ptr) (w : world) : res world :=
  q ← deref a w;
  if rateLimited (proxy w) q then
    w ← proxy_request_incref a w;
    let w := on_proxy (fun p =>
               with_waitingRequests (waitingRequests_ p ++ [a]) p) w in
    Ok (on_proxy (stat_incr proxy_reqs_waiting_stat 1) w)
  else processRequest a w.

(** *** The task given to addTaskFinally

    [fiber_result] is the function run in fiber context, [fiber_task] the
    whole task: the fiber part, then [sendReply] in main context, then the
    cleanup function. *)

Definition fiber_result (q : proxy_request_t) (out : route_outcome) : mc_msg_t :=
  match out with
  | route_replied r => releasedMsg (op (orig_req q)) r
  | route_threw what =>
      let err := "error routing " ++ key (orig_req q) ++ ": " ++ Str.c_str what in
      create_reply (op (orig_req q)) mc_res_local_error err
  end.

Fixpoint remove_first (a : preq_ptr) (l : list preq_ptr) : option (list preq_ptr) :=
  match l with
  | [] => None
  | b :: l' => if bool_decide (a = b) then Some l' else (b ::.) <$> remove_first a l'
  end.

Definition fiber_task (a : preq_ptr) (out : route_outcome) (w : world) : res world :=
  match remove_first a (fiberManager (proxy w)) with
  | None => Err invalid_pointer
  | Some tasks =>
      let w := on_proxy (with_fiberManager tasks) w in
      q ← deref a w;
      match config_ (proxy w) with
      | None => Err invalid_pointer
      | Some _ =>
          let result := fiber_result q out in
          w ← sendReply a result w;
          proxy_request_decref a w
      end
  end.

End Engine.

(** ** Events on one worker

    What happens to a worker between two returns to its event loop: the
    front end constructs a request, hands it to [dispatchRequest], or
    drops a reference; a routing task of the fiber manager runs to its
    end; code outside this file raises a request's [delay_reply], lets go
    of a delayed reply, or reports a failed log write. *)

Inductive event : Type :=
  | ev_new (a : preq_ptr) (req : mc_msg_t) (reqComplete : bool) (senderId : Z)
  | ev_dispatch (a : preq_ptr)
  | ev_fiber (a : preq_ptr) (out : route_outcome)
  | ev_incref (a : preq_ptr)
  | ev_decref (a : preq_ptr)
  | ev_delay_reply (a : preq_ptr) (d : Z)
  | ev_continueSendReply (a : preq_ptr)
  | ev_continue_reply_error (a : preq_ptr).

Section Run.
Context `{!Collaborators}.

Definition step (e : event) (w : world) : res world :=
  match e with
  | ev_new a req reqComplete senderId => proxy_request_new a req reqComplete senderId w
  | ev_dispatch a => dispatchRequest a w
  | ev_fiber a out => fiber_task a out w
  | ev_incref a => proxy_request_incref a w
  | ev_decref a => proxy_request_decref a w
  | ev_delay_reply a d => q ← deref a w; Ok (store a (with_delay_reply d q) w)
  | ev_continueSendReply a => continueSendReply a w
  | ev_continue_reply_error a => proxy_on_continue_reply_error a w
  end.

Fixpoint run (evs : list event) (w : world) : res world :=
  match evs with
  | [] => Ok w
  | e :: evs' => w ← step e w; run evs' w
  end.

End Run.

(** ** proxy_t::proxy_t

    The members this development follows: empty queue and fiber manager,
    zeroed statistics, no configuration, and the default route of the
    options handed to [proxy_set_default_route]. *)

Definition proxy_t_new (opts_ : McrouterOptions) : res proxy_t :=
  proxy_set_default_route
    (mk_proxy opts_ [] [] [] ∅ "" "" "" [] None 0)
    (opt_default_route opts_).

Definition world_new (p : proxy_t) : world := mk_world p ∅ [] [].

(** ** Reconfiguration *)

Record mcrouter_t : Type := mk_router {
  router_opts : McrouterOptions;
  proxy_threads : list proxy_t;
}.

(** A call into code that either returns or throws a [std::exception]. *)
Inductive Try (A : Type) : Type :=
  | Returned (a : A)
  | Thrown (what : string).
Arguments Returned {A} a.
Arguments Thrown {A} what.

(** The call where it is made: an exception is a failure of the caller
    unless it is caught. *)
Definition rethrow {A} (t : Try A) : res A :=
  match t with
  | Returned a => Ok a
  | Thrown what => Err (thrown what)
  end.

(** [ProxyConfigBuilder] (mcrouter/ProxyConfigBuilder.h): its constructor
    and [buildConfig] may throw; [buildConfig] works on the destination map
    of the proxy it is given and leaves it as its first component says. *)
Class ConfigBuilder : Type := {
  ProxyConfigBuilder : Type;
  ProxyConfigBuilder_new :
    McrouterOptions -> string -> string -> string -> string -> Try ProxyConfigBuilder;
  buildConfig :
    ProxyConfigBuilder -> proxy_t -> list ProxyDestination * Try ProxyConfig;
}.

(** Modelled from the spec: [ProxyDestinationMap::markAllAsUnused]
    (mcrouter/ProxyDestinationMap.h) is not in this file; it "marks the
    worker's destination map entries unused". *)
Definition markAllAsUnused (d : list ProxyDestination) : list ProxyDestination :=
  (fun x => {| dest_key := dest_key x; dest_used := false |}) <$> d.

(** [proxy_t::swapConfig]. *)
Definition swapConfig (newConfig : ProxyConfig) (p : proxy_t)
    : option ProxyConfig * proxy_t :=
  (config_ p, with_config (Some newConfig) p).

Definition count_servers (p : proxy_t) (pool : string * ProxyGenericPool) : proxy_t :=
  match pool_type pool.2 with
  | REGULAR_POOL | REGIONAL_POOL =>
      stat_incr num_servers_stat (Z.of_nat (length (clients pool.2))) p
  | _ => p
  end.

(** [time(nullptr)] reads the clock, and every read may give another
    value. A [clock] gives the values of the successive reads, the first
    at 0; the code that reads is handed the number of reads made so far
    and gives back the number made when it is done. *)
Definition clock : Type := nat -> Z.

(** [proxy_config_swap]: it reads the clock for
    [config_last_success_stat], and once more for the entry of the
    configuration it retires. *)
Definition proxy_config_swap (time : clock) (reads : nat) (p : proxy_t)
    (config : ProxyConfig) : proxy_t * nat :=
  let p := stat_set_uint64 num_servers_stat 0 p in
  let p := foldl count_servers p (poolsMap config) in
  let '(oldConfig, p) := swapConfig config p in
  let p := stat_set_uint64 config_last_success_stat (time reads) p in
  let reads := S reads in
  match oldConfig with
  | Some old =>
      if negb (sync (opts p))
      then (with_request_queue
              (request_queue p ++ [request_type_old_config old (time reads)]) p,
            S reads)
      else (p, reads)
  | None => (p, reads)
  end.

Definition set_proxy (i : nat) (p : proxy_t) (router : mcrouter_t) : mcrouter_t :=
  mk_router (router_opts router) (<[i := p]> (proxy_threads router)).

Section Configure.
Context `{!ConfigBuilder}.

(** The first loop of [router_configure], over the worker indices
    [idxs]: [None] in the result is the early [return 0]. *)
Fixpoint build_configs (builder : ProxyConfigBuilder) (idxs : list nat)
    (router : mcrouter_t) (newConfigs : list ProxyConfig)
    : res (mcrouter_t * option (list ProxyConfig)) :=
  match idxs with
  | [] => Ok (router, Some newConfigs)
  | i :: idxs' =>
      match proxy_threads router !! i with
      | None => Err invalid_pointer
      | Some p =>
          if Str.empty (default_route p) then Ok (router, None)
          else
            let p := with_destinationMap (markAllAsUnused (destinationMap p)) p in
            let '(dm, built) := buildConfig builder p in
            let router := set_proxy i (with_destinationMap dm p) router in
            match built with
            | Returned config =>
                build_configs builder idxs' router (newConfigs ++ [config])
            | Thrown _ => Ok (router, None)
            end
      end
  end.

(** The second loop: every call of [proxy_config_swap] reads the clock
    after the calls before it. *)
Fixpoint swap_configs (time : clock) (reads : nat) (idxs : list nat)
    (router : mcrouter_t) (newConfigs : list ProxyConfig) : res (mcrouter_t * nat) :=
  match idxs with
  | [] => Ok (router, reads)
  | i :: idxs' =>
      match proxy_threads router !! i, newConfigs !! i with
      | Some p, Some config =>
          let '(p, reads) := proxy_config_swap time reads p config in
          swap_configs time reads idxs' (set_proxy i p router) newConfigs
      | _, _ => Err invalid_pointer
      end
  end.

(** [router_configure(router, input)]: the [int] it returns and the
    router it leaves; [time] gives the readings of the clock during the
    call. *)
Definition router_configure (time : clock) (router : mcrouter_t) (input : string)
    : res (Z * mcrouter_t) :=
  let proxyCount := num_proxies (router_opts router) in
  match proxy_threads router !! 0 with
  | None => Err invalid_pointer
  | Some p0 =>
      match ProxyConfigBuilder_new (router_opts router) (default_route p0)
              (default_region p0) (default_cluster p0) input with
      | Thrown _ => Ok (0%Z, router)
      | Returned builder =>
          '(router, built) ← build_configs builder (seq 0 proxyCount) router [];
          match built with
          | None => Ok (0%Z, router)
          | Some newConfigs =>
              '(router, _) ← swap_configs time 0 (seq 0 proxyCount) router newConfigs;
              (* the summary line reads newConfigs[0] *)
              if negb (constantly_reload_configs (router_opts router)) &&
                 negb (bool_decide (is_Some (newConfigs !! 0)))
              then Err invalid_pointer
              else Ok (1%Z, router)
          end
      end
  end.

End Configure.

(** ** proxy_pool_shadowing_policy_t::Data *)

Module Shadowing.

Section WithDouble.
(** The type [double] with its [<=] and the values of the literals [0]
    and [1]. *)
Variable double : Type.
Variable double_le : double -> double -> bool.
Variable double_0 double_1 : double.

(** [folly::dynamic]. *)
#[local] Unset Elimination Schemes.
Inductive dynamic : Type :=
  | dyn_null
  | dyn_bool (b : bool)
  | dyn_int64 (z : Z)
  | dyn_double (d : double)
  | dyn_string (s : string)
  | dyn_array (l : list dynamic)
  | dyn_object (items : list (string * dynamic)).
#[local] Set Elimination Schemes.

Definition isObject (j : dynamic) : bool :=
  match j with dyn_object _ => true | _ => false end.
Definition isArray (j : dynamic) : bool :=
  match j with dyn_array _ => true | _ => false end.
Definition isString (j : dynamic) : bool :=
  match j with dyn_string _ => true | _ => false end.

Fixpoint items_lookup (k : string) (items : list (string * dynamic)) : option dynamic :=
  match items with
  | [] => None
  | (k', v) :: items' => if bool_decide (k = k') then Some v else items_lookup k items'
  end.

(** [json[k]] on an object. *)
Definition at_key (k : string) (j : dynamic) : option dynamic :=
  match j with
  | dyn_object items => items_lookup k items
  | _ => None
  end.

(** [json.count(k)] is not zero. *)
Definition count (k : string) (j : dynamic) : bool :=
  bool_decide (is_Some (at_key k j)).

Definition asString (j : dynamic) : string :=
  match j with dyn_string s => s | _ => "" end.

(** [folly::convertTo<std::vector<size_t>>] and
    [folly::convertTo<std::vector<double>>] (folly/DynamicConverter.h);
    they throw on what they cannot convert. A [size_t] is an [N]. *)
Variable convertTo_vector_size_t : dynamic -> Try (list N).
Variable convertTo_vector_double : dynamic -> Try (list double).

Inductive shadow_policy_t : Type := DEFAULT_SHADOW_POLICY.

Record Data : Type := mk_Data {
  start_index : N;
  end_index : N;
  start_key_fraction : double;
  end_key_fraction : double;
  shadow_pool : option string;
  shadow_type : shadow_policy_t;
  validate_replies : bool;
  index_range_rv : string;
  key_fraction_range_rv : string;
}.

(** [Data::Data()]. *)
Definition Data_default : Data :=
  mk_Data 0 0 double_0 double_0 None DEFAULT_SHADOW_POLICY false "" "".

Definition with_index_range (a b : N) (d : Data) : Data :=
  mk_Data a b (start_key_fraction d) (end_key_fraction d) (shadow_pool d)
    (shadow_type d) (validate_replies d) (index_range_rv d)
    (key_fraction_range_rv d).

Definition with_key_fraction_range (a b : double) (d : Data) : Data :=
  mk_Data (start_index d) (end_index d) a b (shadow_pool d)
    (shadow_type d) (validate_replies d) (index_range_rv d)
    (key_fraction_range_rv d).

Definition with_index_range_rv (s : string) (d : Data) : Data :=
  mk_Data (start_index d) (end_index d) (start_key_fraction d)
    (end_key_fraction d) (shadow_pool d) (shadow_type d) (validate_replies d)
    s (key_fraction_range_rv d).

Definition with_key_fraction_range_rv (s : string) (d : Data) : Data :=
  mk_Data (start_index d) (end_index d) (start_key_fraction d)
    (end_key_fraction d) (shadow_pool d) (shadow_type d) (validate_replies d)
    (index_range_rv d) s.

Definition read_index_range (json : dynamic) (d : Data) : res Data :=
  match at_key "index_range" json with
  | None => Ok d
  | Some v =>
      _ ← checkLogic (isArray v) "shadowing_policy: index_range is not array";
      ar ← rethrow (convertTo_vector_size_t v);
      _ ← checkLogic (bool_decide (length ar = 2))
            "shadowing_policy: index_range size is not 2";
      let d := with_index_range (default 0%N (ar !! 0)) (default 0%N (ar !! 1)) d in
      _ ← checkLogic (start_index d <=? end_index d)%N
            "shadowing_policy: index_range start > end";
      Ok d
  end.

Definition read_key_fraction_range (json : dynamic) (d : Data) : res Data :=
  match at_key "key_fraction_range" json with
  | None => Ok d
  | Some v =>
      _ ← checkLogic (isArray v) "shadowing_policy: key_fraction_range is not array";
      ar ← rethrow (convertTo_vector_double v);
      _ ← checkLogic (bool_decide (length ar = 2))
            "shadowing_policy: key_fraction_range size is not 2";
      let d := with_key_fraction_range
                 (default double_0 (ar !! 0)) (default double_0 (ar !! 1)) d in
      _ ← checkLogic (double_le double_0 (start_key_fraction d) &&
                      double_le (start_key_fraction d) (end_key_fraction d) &&
                      double_le (end_key_fraction d) double_1)
            "shadowing_policy: invalid key_fraction_range";
      Ok d
  end.

Definition read_index_range_rv (json : dynamic) (d : Data) : res Data :=
  match at_key "index_range_rv" json with
  | None => Ok d
  | Some v =>
      _ ← checkLogic (isString v) "shadowing_policy: index_range_rv is not string";
      Ok (with_index_range_rv (asString v) d)
  end.

Definition read_key_fraction_range_rv (json : dynamic) (d : Data) : res Data :=
  match at_key "key_fraction_range_rv" json with
  | None => Ok d
  | Some v =>
      _ ← checkLogic (isString v)
            "shadowing_policy: key_fraction_range_rv is not string";
      Ok (with_key_fraction_range_rv (asString v) d)
  end.

(** [Data::Data(const folly::dynamic& json)]. *)
Definition Data_of_json (json : dynamic) : res Data :=
  let d := Data_default in
  _ ← checkLogic (isObject json) "shadowing_policy is not object";
  d ← read_index_range json d;
  d ← read_key_fraction_range json d;
  d ← read_index_range_rv json d;
  read_key_fraction_range_rv json d.

(** What the constructor asks of [index_range] and of
    [key_fraction_range]: an array that converts to exactly the two
    numbers [a] and [b], in order, the fractions within [0, 1]. *)
Definition index_range_ok (v : dynamic) (a b : N) : Prop :=
  isArray v = true /\ convertTo_vector_size_t v = Returned [a; b] /\ (a <= b)%N.

Definition key_fraction_range_ok (v : dynamic) (a b : double) : Prop :=
  isArray v = true /\ convertTo_vector_double v = Returned [a; b] /\
  double_le double_0 a = true /\ double_le a double_1 = true /\
  double_le double_0 b = true /\ double_le b double_1 = true /\
  double_le a b = true.

End WithDouble.

End Shadowing.

(** ** Notions the statements below use *)

(** A path segment of a route: not empty, and without a slash. *)
Definition is_segment (x : string) : Prop :=
  x <> "" /\ Str.lacks slash x = true.

(** [str] is [/region/cluster], with or without a closing slash. *)
Definition route_of (region cluster str : string) : Prop :=
  str = "/" ++ region ++ "/" ++ cluster \/
  str = "/" ++ region ++ "/" ++ cluster ++ "/".

Section ConfigureNotions.
Context `{!ConfigBuilder}.

(** Worker [p] once its destinations are marked unused. *)
Definition marked (p : proxy_t) : proxy_t :=
  with_destinationMap (markAllAsUnused (destinationMap p)) p.

(** Worker [p] after [buildConfig] has run for it, and what it built. *)
Definition built_proxy (builder : ProxyConfigBuilder) (p : proxy_t) : proxy_t :=
  with_destinationMap (buildConfig builder (marked p)).1 (marked p).
Definition built_config (builder : ProxyConfigBuilder) (p : proxy_t) : Try ProxyConfig :=
  (buildConfig builder (marked p)).2.

(** The first loop of [router_configure] told over the list of workers:
    the workers it leaves, and the snapshots unless it gave up. *)
Fixpoint build_list (builder : ProxyConfigBuilder) (ps : list proxy_t)
    : list proxy_t * option (list ProxyConfig) :=
  match ps with
  | [] => ([], Some [])
  | p :: ps' =>
      if Str.empty (default_route p) then (p :: ps', None)
      else
        match built_config builder p with
        | Thrown _ => (built_proxy builder p :: ps', None)
        | Returned config =>
            let '(ps'', r) := build_list builder ps' in
            (built_proxy builder p :: ps'', (config ::.) <$> r)
        end
  end.

(** The second loop told over the list of workers and the list of
    their snapshots. *)
Fixpoint swap_list (time : clock) (reads : nat) (ps : list proxy_t)
    (cs : list ProxyConfig) : list proxy_t :=
  match ps, cs with
  | p :: ps', c :: cs' =>
      let '(p', reads') := proxy_config_swap time reads p c in
      p' :: swap_list time reads' ps' cs'
  | _, _ => []
  end.

(** Two workers that differ at most in their destination maps. *)
Definition same_but_destinations (p p' : proxy_t) : Prop :=
  exists dm, p' = with_destinationMap dm p.

End ConfigureNotions.

Section ConfigureOutcomes.
Context `{!ConfigBuilder}.

(** The builder [router_configure] constructs from worker 0. *)
Definition router_builder (router : mcrouter_t) (input : string)
    : option (Try ProxyConfigBuilder) :=
  (fun p0 => ProxyConfigBuilder_new (router_opts router) (default_route p0)
               (default_region p0) (default_cluster p0) input)
  <$> proxy_threads router !! 0.

(** Something goes wrong while the snapshots are built: the builder's
    constructor throws, a worker has no default route, or building a
    worker's snapshot throws. *)
Definition build_fails (router : mcrouter_t) (input : string) : Prop :=
  (exists what, router_builder router input = Some (Thrown what)) \/
  (exists builder i p,
      router_builder router input = Some (Returned builder) /\
      proxy_threads router !! i = Some p /\
      (default_route p = "" \/ exists what, built_config builder p = Thrown what)).

(** The first loop gave up at worker [k]: the workers below [k] have
    the destination map that [buildConfig] left of their map with every
    entry marked unused, and so has worker [k] when it is its snapshot that
    could not be built; a worker [k] without default route and the workers
    above [k] are as they were. *)
Definition stopped_at (builder : ProxyConfigBuilder) (k : nat)
    (router router' : mcrouter_t) : Prop :=
  (exists p, proxy_threads router !! k = Some p /\
     (default_route p = "" \/
      default_route p <> "" /\ exists what, built_config builder p = Thrown what)) /\
  (forall i p, proxy_threads router !! i = Some p -> i < k ->
     default_route p <> "" /\ exists config, built_config builder p = Returned config) /\
  length (proxy_threads router') = length (proxy_threads router) /\
  forall i p, proxy_threads router !! i = Some p ->
    proxy_threads router' !! i
    = Some (if decide (i < k) then built_proxy builder p
            else if decide (i = k)
                 then if Str.empty (default_route p) then p
                      else built_proxy builder p
                 else p).

(** How often [proxy_config_swap] reads the clock on worker [p], and the
    number of reads the second loop has made when it comes to worker
    [i]. *)
Definition reads_of (p : proxy_t) : nat :=
  match config_ p with
  | Some _ => if sync (opts p) then 1 else 2
  | None => 1
  end.

Definition reads_before (ps : list proxy_t) (i : nat) : nat :=
  sum_list_with reads_of (take i ps).

(** Every worker of [router'] is the worker of [router] with its new
    snapshot swapped in, by a call of [proxy_config_swap] that reads the
    clock after the calls for the workers before it. *)
Definition all_swapped (time : clock) (builder : ProxyConfigBuilder)
    (router router' : mcrouter_t) : Prop :=
  forall i p, proxy_threads router !! i = Some p ->
    exists config,
      built_config builder p = Returned config /\
      proxy_threads router' !! i
      = Some (proxy_config_swap time (reads_before (proxy_threads router) i)
                (built_proxy builder p) config).1.

(** The swaps happen in the order of the worker indices, and the clock
    tells: the [config_last_success_stat] of worker [i] is what the clock
    gave at the read that follows all the reads for the workers below [i],
    the configuration it replaced is retired with the reading after that
    one, and a worker with a larger index reads later. *)
Definition swapped_in_order (time : clock) (router router' : mcrouter_t) : Prop :=
  let ps := proxy_threads router in
  (forall i p p', ps !! i = Some p -> proxy_threads router' !! i = Some p' ->
     stat_get config_last_success_stat (stats p') = time (reads_before ps i) /\
     request_queue p'
     = (request_queue p ++
        match config_ p with
        | Some old =>
            if sync (opts p) then []
            else [request_type_old_config old (time (S (reads_before ps i)))]
        | None => []
        end)%list) /\
  (forall i j, i < j -> j < length ps -> reads_before ps i < reads_before ps j).

End ConfigureOutcomes.

(** The operations [rateLimited] always lets through. *)
Definition bypass_op (o : mc_op_t) : bool :=
  bool_decide (o = mc_op_stats) || bool_decide (o = mc_op_version) ||
  bool_decide (o = mc_op_get_service_info).

(** The edges of the reply latch. *)
Inductive reply_edge : reply_state_t -> reply_state_t -> Prop :=
  | edge_delayed : reply_edge REPLY_STATE_NO_REPLY REPLY_STATE_REPLY_DELAYED
  | edge_released : reply_edge REPLY_STATE_REPLY_DELAYED REPLY_STATE_REPLIED
  | edge_replied : reply_edge REPLY_STATE_NO_REPLY REPLY_STATE_REPLIED.

Definition reply_rank (s : reply_state_t) : nat :=
  match s with
  | REPLY_STATE_NO_REPLY => 0
  | REPLY_STATE_REPLY_DELAYED => 1
  | REPLY_STATE_REPLIED => 2
  end.

(** A request at two moments of its life: what it was constructed with
    stays, the reply latch only moves forward, a reply once set stays, and
    a request that is being processed stays so. *)
Record req_le (q q' : proxy_request_t) : Prop := {
  req_le_orig : orig_req q' = orig_req q;
  req_le_legacy : legacy_get_service_info q' = legacy_get_service_info q;
  req_le_rank : reply_rank (reply_state q) <= reply_rank (reply_state q');
  req_le_reply : forall r, reply q = Some r -> reply q' = Some r;
  req_le_processing : processing_ q = true -> processing_ q' = true;
}.

(** Every request alive in [h'] was alive in [h], and has moved on from
    there. *)
Definition heap_le (h h' : gmap nat proxy_request_t) : Prop :=
  forall a q', h' !! a = Some q' -> exists q, h !! a = Some q /\ req_le q q'.


(** [s] has no NUL byte: it is the same as a [std::string] and as a C
    string. *)
Definition nul_free (s : string) : Prop := Str.lacks zero s = true.

(** A request that is being processed and whose operation bypasses the
    rate limit, and the number of them among the live requests. *)
Definition bypass_in_process (q : proxy_request_t) : bool :=
  processing_ q && bypass_op (op (orig_req q)).

Definition bypass_processing (h : gmap nat proxy_request_t) : nat :=
  size (filter (fun aq => bypass_in_process aq.2 = true) h).

(** The bound on the counter: with a limit set, [numRequestsProcessing_]
    is at most the limit plus the bypassing requests in process. *)
Definition inflight_ok (w : world) : Prop :=
  let M := proxy_max_inflight_requests (opts (proxy w)) in
  (0 < M)%Z ->
  (numRequestsProcessing_ (proxy w) <= M + Z.of_nat (bypass_processing (heap w)))%Z.

(** Two worlds of one worker, the second later than the first: no
    request has appeared, the live ones have moved on, and the options
    and the configuration are the same. *)
Definition world_le (w w' : world) : Prop :=
  heap_le (heap w) (heap w') /\
  opts (proxy w') = opts (proxy w) /\
  config_ (proxy w') = config_ (proxy w).

(** What of a proxy the request engine never writes. *)
Definition proxy_core (p : proxy_t) :=
  (opts p, destinationMap p, default_route p, default_region p,
   default_cluster p, request_queue p, config_ p).

(** A step on the request at [a] that leaves the queue, the counter and
    the fiber manager alone, and the request's references and processing
    flag as well. *)
Definition local_step (a : nat) (w w' : world) : Prop :=
  exists q q',
    heap w !! a = Some q /\ heap w' = <[a := q']> (heap w) /\
    req_le q q' /\ _refcount q' = _refcount q /\
    processing_ q' = processing_ q /\ delay_reply q' = delay_reply q /\
    reqComplete_ q' = reqComplete_ q /\
    proxy_core (proxy w') = proxy_core (proxy w) /\
    numRequestsProcessing_ (proxy w') = numRequestsProcessing_ (proxy w) /\
    waitingRequests_ (proxy w') = waitingRequests_ (proxy w) /\
    fiberManager (proxy w') = fiberManager (proxy w).

(** The operations answered on the event loop, without a fiber task. *)
Definition answered_inline (o : mc_op_t) : bool :=
  bool_decide (o = mc_op_stats) || bool_decide (o = mc_op_get_service_info).

(** What [processRequest] and [routeHandlesProcessRequest] do to the
    request at [a] and to the proxy: the request moves on and gains [dr]
    references, the counter grows by [dn], and [tasks] are handed to the
    fiber manager. *)
Definition request_step (a : nat) (dr dn : Z) (tasks : list nat)
    (w w' : world) : Prop :=
  exists q q',
    heap w !! a = Some q /\ heap w' = <[a := q']> (heap w) /\
    req_le q q' /\ _refcount q' = (_refcount q + dr)%Z /\
    delay_reply q' = delay_reply q /\ reqComplete_ q' = reqComplete_ q /\
    proxy_core (proxy w') = proxy_core (proxy w) /\
    numRequestsProcessing_ (proxy w') = (numRequestsProcessing_ (proxy w) + dn)%Z /\
    waitingRequests_ (proxy w') = waitingRequests_ (proxy w) /\
    fiberManager (proxy w') = (fiberManager (proxy w) ++ tasks)%list.

(** A later world of the engine: [world_le], the proxy written only in
    its counter, queue, fiber manager and statistics, the queue shortened
    from its head, and the bound on the counter kept. *)
Definition engine_le (w w' : world) : Prop :=
  world_le w w' /\
  proxy_core (proxy w') = proxy_core (proxy w) /\
  (exists k, waitingRequests_ (proxy w') = drop k (waitingRequests_ (proxy w))) /\
  (inflight_ok w -> inflight_ok w').

(** A queue as [dispatchRequest] builds it: every waiting request is
    alive, not yet processed, referenced, routed through a fiber task, and
    queued once. *)
Definition queue_ready (w : world) : Prop :=
  NoDup (waitingRequests_ (proxy w)) /\
  forall a, a ∈ waitingRequests_ (proxy w) ->
    exists q, heap w !! a = Some q /\ processing_ q = false /\
              (0 < _refcount q)%Z /\ answered_inline (op (orig_req q)) = false.

(** ** Concrete workers, routers and collaborators

    Small instances on which the statements below are exercised. *)

Module Demo.

Definition options (route : string) (maxInflight : Z) (workers : nat)
    : McrouterOptions :=
  {| opt_default_route := route;
     proxy_max_inflight_requests := maxInflight;
     sync := false;
     num_proxies := workers;
     constantly_reload_configs := false |}.

(** A worker with default route [/prn/cluster01/] and one destination in
    use. *)
Definition worker (maxInflight : Z) : proxy_t :=
  mk_proxy (options "/prn/cluster01/" maxInflight 1)
    [{| dest_key := "10.0.0.1:11211"; dest_used := true |}] [] [] ∅
    "/prn/cluster01/" "prn" "cluster01" [] None 0.

Definition config : ProxyConfig :=
  {| poolsMap := [("main", {| pool_name := "main"; pool_type := REGULAR_POOL;
                              clients := ["10.0.0.1:11211"] |})];
     clientsMap := ["10.0.0.1:11211"];
     configMd5Digest := "d41d8cd9" |}.

(** A builder that takes the configuration text as its state, whose
    constructor throws on an empty text and whose [buildConfig] throws on
    the text [bad]; it leaves the destination map as it finds it. *)
Definition builder : ConfigBuilder :=
  {| ProxyConfigBuilder := string;
     ProxyConfigBuilder_new := fun _ _ _ _ input =>
       if Str.empty input then Thrown "empty configuration" else Returned input;
     buildConfig := fun b p =>
       (destinationMap p,
        if bool_decide (b = "bad") then Thrown "unknown pool" else Returned config) |}.

Definition router : mcrouter_t :=
  mk_router (options "/prn/cluster01/" 2 1) [worker 2].

(** A clock that starts at 10 and gains one with every read. *)
Definition ticking : clock := fun n => (10 + Z.of_nat n)%Z.

(** A router of two workers that have a configuration. *)
Definition configured_router : mcrouter_t :=
  mk_router (options "/prn/cluster01/" 2 2)
    [with_config (Some config) (worker 2); with_config (Some config) (worker 0)].

(** [router] with the destinations of its worker marked unused. *)
Definition router_marked : mcrouter_t :=
  mk_router (options "/prn/cluster01/" 2 1) [marked (worker 2)].

Definition collaborators : Collaborators :=
  {| mc_client_req_is_valid := fun req => (String.length (key req) <=? 250)%nat;
     mc_res_is_err := fun r =>
       bool_decide (r = mc_res_local_error) || bool_decide (r = mc_res_remote_error) ||
       bool_decide (r = mc_res_timeout) || bool_decide (r = mc_res_connect_error);
     stats_reply := fun _ _ => mk_msg mc_op_stats mc_res_ok "" "STAT";
     serviceInfo_reply := fun _ req => mk_msg mc_op_unknown mc_res_found (key req) "info" |}.

Definition request (o : mc_op_t) (k : string) : mc_msg_t :=
  mk_msg o mc_res_unknown k "".

(** A new worker with limit [maxInflight] and a configuration. *)
Definition fresh_world (maxInflight : Z) : world :=
  match proxy_t_new (options "/prn/cluster01/" maxInflight 1) with
  | Ok p => world_new (with_config (Some config) p)
  | Err _ => world_new (worker maxInflight)
  end.

(** The world a call leaves, for calls that return. *)
Definition the_world (r : res world) : world :=
  match r with
  | Ok w => w
  | Err _ => world_new (worker 0)
  end.

(** A new worker with limit 1, as its constructor leaves it. *)
Definition new_worker : proxy_t :=
  mk_proxy (options "/prn/cluster01/" 1 1) [] [] [] ∅
    "/prn/cluster01/" "prn" "cluster01" [] None 0.

(** With a limit of one request in flight: a [set] is admitted, then a
    [version]. *)
(** A worker on which request 1, a [set], is in flight: the front end and
    the routing task each hold a reference. *)
Definition the_set : proxy_request_t :=
  mk_preq (request mc_op_set "k") None REPLY_STATE_NO_REPLY 0 0 2 0 false true true.

Definition set_in_flight : world :=
  mk_world
    (mk_proxy (options "/prn/cluster01/" 2 1) [] [1] [] ∅
       "/prn/cluster01/" "prn" "cluster01" [] (Some config) 1)
    {[ 1 := the_set ]}
    [] [].

(** A worker with limit 2 on which requests 1 and 2 are in flight and
    requests 3 and 4 wait, each held by the queue alone. *)
Definition two_waiting : world :=
  let preq k refs processing :=
    mk_preq (request mc_op_set k) None REPLY_STATE_NO_REPLY 0 0 refs 0 false true
      processing in
  mk_world
    (mk_proxy (options "/prn/cluster01/" 3 1) [] [1; 2] [3; 4]
       {[ proxy_reqs_waiting_stat := 2%Z ]}
       "/prn/cluster01/" "prn" "cluster01" [] (Some config) 2)
    {[ 1 := preq "a" 1%Z true; 2 := preq "b" 1%Z true;
       3 := preq "c" 1%Z false; 4 := preq "d" 1%Z false ]}
    [] [].

Definition set_then_version : list event :=
  [ ev_new 1 (request mc_op_set "k") true 0; ev_dispatch 1;
    ev_new 2 (request mc_op_version "") true 0; ev_dispatch 2 ].

(** Doubles as rationals, and converters that take arrays of numbers. *)
Definition double_le (x y : QArith_base.Q) : bool := QArith_base.Qle_bool x y.
Definition double_of_Z (z : Z) : QArith_base.Q := QArith_base.Qmake z 1.

Definition to_size_t (j : Shadowing.dynamic QArith_base.Q) : option N :=
  match j with
  | Shadowing.dyn_int64 _ z => if (0 <=? z)%Z then Some (Z.to_N z) else None
  | _ => None
  end.

Definition to_double (j : Shadowing.dynamic QArith_base.Q) : option QArith_base.Q :=
  match j with
  | Shadowing.dyn_int64 _ z => Some (double_of_Z z)
  | Shadowing.dyn_double _ d => Some d
  | _ => None
  end.

Definition convert_all {A} (f : Shadowing.dynamic QArith_base.Q -> option A)
    (j : Shadowing.dynamic QArith_base.Q) : Try (list A) :=
  match j with
  | Shadowing.dyn_array _ l =>
      match mapM f l with
      | Some xs => Returned xs
      | None => Thrown "TypeError"
      end
  | _ => Thrown "TypeError"
  end.

Definition Data_of_json :=
  Shadowing.Data_of_json QArith_base.Q double_le (double_of_Z 0) (double_of_Z 1)
    (convert_all to_size_t) (convert_all to_double).

(** [{"index_range": [3, 7], "key_fraction_range": [0, 0.5]}]. *)
Definition policy : Shadowing.dynamic QArith_base.Q :=
  Shadowing.dyn_object _
    [ ("index_range",
       Shadowing.dyn_array _ [Shadowing.dyn_int64 _ 3; Shadowing.dyn_int64 _ 7]);
      ("key_fraction_range",
       Shadowing.dyn_array _
         [Shadowing.dyn_int64 _ 0; Shadowing.dyn_double _ (QArith_base.Qmake 1 2)]) ].

End Demo.

(** ** Further functions of the file *)

(** *** getRegionFromRoutingPrefix

    [prefix.find("/", 1)] looks for a one-character string, so it is
    [Str.find]; [prefix.subpiece(first, length)] is [Str.substr]; a failed
    [assert] stops the call as a failed [FBI_ASSERT] does. *)

Definition getRegionFromRoutingPrefix (prefix : string) : res string :=
  if Str.empty prefix || negb (bool_decide (String.get 0 prefix = Some slash))
  then Ok ""
  else
    match Str.find slash 1 prefix with
    | None => Ok ""
    | Some regEnd =>
        _ ← FBI_ASSERT (1 <=? regEnd)%nat;
        match Str.substr 1 (regEnd - 1) prefix with
        | Some region => Ok region
        | None => Err (thrown "std::out_of_range")
        end
    end.

(** *** The callback of registerOnUpdateCallback *)

Module ShadowingUpdate.
Import Shadowing.

Section WithDouble.
Variable double : Type.
Variable double_le : double -> double -> bool.
Variable double_0 double_1 : double.
(** The conversion of an [int64_t] to [double]. *)
Variable double_of_int : Z -> double.
(** [RuntimeVarsData] (mcrouter/RuntimeVarsData.h) and its
    [getVariableByName], which gives a null [dynamic] for a name it does
    not have. *)
Variable RuntimeVarsData : Type.
Variable getVariableByName : RuntimeVarsData -> string -> dynamic double.

Abbreviation dynamic := (dynamic double).
Abbreviation Data := (Data double).

Definition isNull (j : dynamic) : bool :=
  match j with dyn_null _ => true | _ => false end.
Definition isInt (j : dynamic) : bool :=
  match j with dyn_int64 _ _ => true | _ => false end.
Definition isNumber (j : dynamic) : bool :=
  match j with dyn_int64 _ _ | dyn_double _ _ => true | _ => false end.

(** [j.size()] and [j[i]] on an array. *)
Definition size (j : dynamic) : nat :=
  match j with dyn_array _ l => length l | _ => 0 end.
Definition at_index (i : nat) (j : dynamic) : dynamic :=
  match j with dyn_array _ l => default (dyn_null _) (l !! i) | _ => dyn_null _ end.

(** [j.asInt()] and [j.asDouble()] on a number. *)
Definition asInt (j : dynamic) : Z :=
  match j with dyn_int64 _ z => z | _ => 0%Z end.
Definition asDouble (j : dynamic) : double :=
  match j with
  | dyn_int64 _ z => double_of_int z
  | dyn_double _ d => d
  | _ => double_0
  end.

(** An [int64_t] assigned to a [size_t] of 64 bits. *)
Definition to_size_t (z : Z) : N := Z.to_N (z mod 2 ^ 64).

(** The part of the callback that reads [index_range_rv]: the bounds to
    commit, if any. *)
Definition stage_index_range (d : Data) (newVars : RuntimeVarsData)
    : res (option (N * N)) :=
  if negb (Str.empty (index_range_rv _ d)) then
    let valIndex := getVariableByName newVars (index_range_rv _ d) in
    if negb (isNull valIndex) then
      _ ← checkLogic (isArray _ valIndex) "index_range_rv is not an array";
      _ ← checkLogic (bool_decide (size valIndex = 2)) "Size of index_range_rv is not 2";
      _ ← checkLogic (isInt (at_index 0 valIndex)) "start_index is not an int";
      _ ← checkLogic (isInt (at_index 1 valIndex)) "end_index is not an int";
      let start_index_temp := to_size_t (asInt (at_index 0 valIndex)) in
      let end_index_temp := to_size_t (asInt (at_index 1 valIndex)) in
      _ ← checkLogic (start_index_temp <=? end_index_temp)%N "start_index > end_index";
      Ok (Some (start_index_temp, end_index_temp))
    else Ok None
  else Ok None.

(** The part that reads [key_fraction_range_rv]. *)
Definition stage_key_fraction_range (d : Data) (newVars : RuntimeVarsData)
    : res (option (double * double)) :=
  if negb (Str.empty (key_fraction_range_rv _ d)) then
    let valFraction := getVariableByName newVars (key_fraction_range_rv _ d) in
    if negb (isNull valFraction) then
      _ ← checkLogic (isArray _ valFraction) "key_fraction_range_rv is not an array";
      _ ← checkLogic (bool_decide (size valFraction = 2))
            "Size of key_fraction_range_rv is not 2";
      _ ← checkLogic (isNumber (at_index 0 valFraction))
            "start_key_fraction is not a number";
      _ ← checkLogic (isNumber (at_index 1 valFraction))
            "end_key_fraction is not a number";
      let start_key_fraction_temp := asDouble (at_index 0 valFraction) in
      let end_key_fraction_temp := asDouble (at_index 1 valFraction) in
      _ ← checkLogic (double_le double_0 start_key_fraction_temp &&
                      double_le start_key_fraction_temp double_1 &&
                      double_le double_0 end_key_fraction_temp &&
                      double_le end_key_fraction_temp double_1 &&
                      double_le start_key_fraction_temp end_key_fraction_temp)
            "Invalid values for start_key_fraction and/or end_key_fraction";
      Ok (Some (start_key_fraction_temp, end_key_fraction_temp))
    else Ok None
  else Ok None.

(** The callback on the current [Data] and the new variables: the [Data]
    it publishes with [data_.set], none when [newVars] is null. A thrown
    [checkLogic] leaves the callback before [data_.set]. *)
Definition on_update (d : Data) (newVars : option RuntimeVarsData)
    : res (option Data) :=
  match newVars with
  | None => Ok None
  | Some newVars =>
      let dataCopy := d in
      updateRange ← stage_index_range dataCopy newVars;
      updateKeyFraction ← stage_key_fraction_range dataCopy newVars;
      let dataCopy :=
        match updateRange with
        | Some (s, e) => with_index_range _ s e dataCopy
        | None => dataCopy
        end in
      let dataCopy :=
        match updateKeyFraction with
        | Some (s, e) => with_key_fraction_range _ s e dataCopy
        | None => dataCopy
        end in
      Ok (Some dataCopy)
  end.

(** What [getData] gives after the callback has run on [d]. *)
Definition data_after (d : Data) (newVars : option RuntimeVarsData) : Data :=
  match on_update d newVars with
  | Ok (Some d') => d'
  | _ => d
  end.

(** The policy's [Data] after a series of changes of the runtime
    variables. *)
Definition data_after_all (d : Data) (changes : list (option RuntimeVarsData)) : Data :=
  foldl data_after d changes.

(** The bounds of a [Data] are in order and the fractions within
    [0, 1]. *)
Definition Data_valid (d : Data) : Prop :=
  (start_index _ d <= end_index _ d)%N /\
  double_le double_0 (start_key_fraction _ d) = true /\
  double_le (start_key_fraction _ d) (end_key_fraction _ d) = true /\
  double_le (end_key_fraction _ d) double_1 = true.

End WithDouble.

End ShadowingUpdate.

(** *** ProxyPool::~ProxyPool

    Pools and clients are heap objects. The pool holds weak pointers to
    its clients: [c.lock()] gives the client while it is alive. Of a
    client ([ProxyClientCommon], mcrouter/ProxyClientCommon.h) the
    destructor reads and writes the [pool] pointer alone; the other
    members are kept as they are, whatever they are. Deleting the pool's
    [pool_failover_policy] touches no client. *)

Module PoolTeardown.

Abbreviation pool_ptr := nat (only parsing).
Abbreviation client_ptr := nat (only parsing).

Record ProxyClientCommon (members : Type) : Type := mk_client {
  pool : option pool_ptr;              (* a null pointer is [None] *)
  other_members : members;
}.
Arguments mk_client {members} pool other_members.
Arguments pool {members} _.
Arguments other_members {members} _.

Definition with_pool {members} (p : option pool_ptr)
    (c : ProxyClientCommon members) : ProxyClientCommon members :=
  mk_client p (other_members c).

(** One turn of the loop over [clients]. *)
Definition clear_pool {members} (this : pool_ptr)
    (live : gmap client_ptr (ProxyClientCommon members)) (c : client_ptr)
    : gmap client_ptr (ProxyClientCommon members) :=
  match live !! c with
  | Some client =>
      if bool_decide (pool client = Some this)
      then <[c := with_pool None client]> live
      else live
  | None => live
  end.

(** The loop of the destructor of the pool at [this] over its
    [clients], on the clients that are alive. *)
Definition ProxyPool_delete {members} (this : pool_ptr) (clients : list client_ptr)
    (live : gmap client_ptr (ProxyClientCommon members))
    : gmap client_ptr (ProxyClientCommon members) :=
  foldl (clear_pool this) live clients.

End PoolTeardown.

(** ** Further notions *)

(** The number of live requests that are being processed. *)
Definition processing_count (h : gmap nat proxy_request_t) : nat :=
  size (filter (fun aq => processing_ aq.2 = true) h).

(** How far the counter of requests in process is from the number of
    live requests being processed, and how far each gauge among the
    statistics is from what it reports: [proxy_reqs_processing_stat] from
    the counter, [proxy_reqs_waiting_stat] from the length of the queue,
    [proxy_request_num_outstanding_stat] from the number of live
    requests. *)
Definition counter_drift (w : world) : Z :=
  (numRequestsProcessing_ (proxy w) - Z.of_nat (processing_count (heap w)))%Z.

Definition gauge_drift (w : world) : Z * Z * Z :=
  (stat_get proxy_reqs_processing_stat (stats (proxy w))
     - numRequestsProcessing_ (proxy w),
   stat_get proxy_reqs_waiting_stat (stats (proxy w))
     - Z.of_nat (length (waitingRequests_ (proxy w))),
   stat_get proxy_request_num_outstanding_stat (stats (proxy w))
     - Z.of_nat (size (heap w)))%Z.

(** The three gauges as the statistics show them. *)
Definition gauges (p : proxy_t) : Z * Z * Z :=
  (stat_get proxy_reqs_processing_stat (stats p),
   stat_get proxy_reqs_waiting_stat (stats p),
   stat_get proxy_request_num_outstanding_stat (stats p)).

(** Between [w] and [w'] the counter and the gauges have moved with what
    they count. *)
Definition books_kept (w w' : world) : Prop :=
  counter_drift w' = counter_drift w /\ gauge_drift w' = gauge_drift w.

(** The servers [proxy_config_swap] counts for a configuration: the
    clients of its regular and regional pools. *)
Definition servers_of (pool : string * ProxyGenericPool) : Z :=
  match pool_type pool.2 with
  | REGULAR_POOL | REGIONAL_POOL => Z.of_nat (length (clients pool.2))
  | _ => 0%Z
  end.

Definition num_servers (config : ProxyConfig) : Z :=
  foldr (fun pool n => (servers_of pool + n)%Z) 0%Z (poolsMap config).

(** A worker reconfigured several times in a row: [proxy_config_swap]
    with each configuration of [l], every call reading the clock after the
    one before. The worker it leaves, and the number of reads made. *)
Definition swap_all (time : clock) (reads : nat) (p : proxy_t)
    (l : list ProxyConfig) : proxy_t * nat :=
  foldl (fun pr c => proxy_config_swap time pr.2 pr.1 c) (p, reads) l.

(** No request waits while the worker is below its limit. *)
Definition work_conserving (w : world) : Prop :=
  waitingRequests_ (proxy w) = [] \/
  (proxy_max_inflight_requests (opts (proxy w))
     <= numRequestsProcessing_ (proxy w))%Z.

(** Every live request is referenced. *)
Definition all_referenced (h : gmap nat proxy_request_t) : Prop :=
  forall a q, h !! a = Some q -> (0 < _refcount q)%Z.

(** No event of [evs] constructs a request at address [a]. *)
Definition not_constructed (a : nat) (evs : list event) : Prop :=
  forall req reqComplete senderId, ev_new a req reqComplete senderId ∉ evs.

(** ** Further concrete worlds *)

Module Scenes.

(** A [version] request, new and held by the front end alone. *)
Definition the_version : proxy_request_t :=
  mk_preq (Demo.request mc_op_version "") None REPLY_STATE_NO_REPLY 0 0 1 0
    false true false.

(** [Demo.two_waiting] with the [version] request at address 5: two
    requests in flight, two waiting, and the newcomer. *)
Definition version_arrives : world := store 5 the_version Demo.two_waiting.



(** Runtime variables as a list of names and values, a shadowing
    policy that names two of them, and the [Data] its constructor builds. *)
Definition runtime_vars : Type := list (string * Shadowing.dynamic QArith_base.Q).

Definition getVariableByName (vars : runtime_vars) (name : string)
    : Shadowing.dynamic QArith_base.Q :=
  default (Shadowing.dyn_null _) (Shadowing.items_lookup _ name vars).

Definition policy_rv : Shadowing.dynamic QArith_base.Q :=
  Shadowing.dyn_object _
    [ ("index_range",
       Shadowing.dyn_array _ [Shadowing.dyn_int64 _ 3; Shadowing.dyn_int64 _ 7]);
      ("index_range_rv", Shadowing.dyn_string _ "ir");
      ("key_fraction_range_rv", Shadowing.dyn_string _ "kf") ].

Definition data_rv : Shadowing.Data QArith_base.Q :=
  Shadowing.mk_Data _ 3 7 (Demo.double_of_Z 0) (Demo.double_of_Z 0) None
    Shadowing.DEFAULT_SHADOW_POLICY false "ir" "kf".

Definition range_var (a b : Z) : runtime_vars :=
  [("ir", Shadowing.dyn_array _ [Shadowing.dyn_int64 _ a; Shadowing.dyn_int64 _ b])].

Definition policy_after :=
  ShadowingUpdate.data_after_all QArith_base.Q Demo.double_le (Demo.double_of_Z 0)
    (Demo.double_of_Z 1) Demo.double_of_Z runtime_vars getVariableByName.

(** The reply of a server that has stored the value, and the [set]
    request of [Demo.set_in_flight] once its routing task has ended with
    that reply. *)
Definition stored : mc_msg_t := mk_msg mc_op_set mc_res_stored "" "".

Definition the_set_replied : proxy_request_t :=
  mk_preq (Demo.request mc_op_set "k") (Some stored) REPLY_STATE_REPLIED 0 0 1 0
    false true true.

End Scenes.

(** * Properties *)

(** ** Sanity checks of the library models *)

Example routeRegex_accepts : regex_match "/prn/cluster01/" routeRegex = true.
Proof. reflexivity. Qed.

Example routeRegex_rejects_relative : regex_match "prn/cluster01" routeRegex = false.
Proof. reflexivity. Qed.

Example stats_incr_reads : stat_get cmd_get_stat (stats_incr cmd_get_stat 1 ∅) = 1%Z.
Proof. reflexivity. Qed.

Example routeRegex_accepts_no_slash : regex_match "/prn/cluster01" routeRegex = true.
Proof. reflexivity. Qed.

Example routeRegex_rejects_short : regex_match "/prn/" routeRegex = false.
Proof. reflexivity. Qed.

(** ** Strings *)

#[local] Arguments String.append !_ _ : simpl nomatch.

Section StringFacts.
Implicit Types (s p rest : string) (c a : ascii).

Lemma append_nil_r s : s ++ "" = s.
Proof. induction s as [|a s IH]; simpl; [done | by rewrite IH]. Qed.

Lemma append_assoc s1 s2 s3 : (s1 ++ s2) ++ s3 = s1 ++ (s2 ++ s3).
Proof. induction s1 as [|a s1 IH]; simpl; [done | by rewrite IH]. Qed.

Lemma length_append s1 s2 :
  String.length (s1 ++ s2) = String.length s1 + String.length s2.
Proof. induction s1 as [|a s1 IH]; simpl; [done | by rewrite IH]. Qed.

Lemma take_append p s : Str.take (String.length p) (p ++ s) = p.
Proof. induction p as [|a p IH]; simpl; [by destruct s | by rewrite IH]. Qed.

Lemma drop_append p s : Str.drop (String.length p) (p ++ s) = Some s.
Proof. induction p as [|a p IH]; simpl; [done | exact IH]. Qed.

Lemma substr_append p m s :
  Str.substr (String.length p) (String.length m) (p ++ m ++ s) = Some m.
Proof. unfold Str.substr. by rewrite drop_append; simpl; rewrite take_append. Qed.

Lemma find_here c p rest :
  Str.lacks c p = true -> Str.find c 0 (p ++ String c rest) = Some (String.length p).
Proof.
  induction p as [|a p IH]; simpl.
  - by rewrite Ascii.eqb_refl.
  - intros [Ha Hp]%andb_prop. apply negb_true_iff in Ha. rewrite Ha.
    by rewrite (IH Hp).
Qed.

Lemma find_skip c p n s :
  Str.find c (String.length p + n) (p ++ s) = (fun i => String.length p + i) <$> Str.find c n s.
Proof.
  induction p as [|a p IH]; simpl.
  - by destruct (Str.find c n s).
  - rewrite IH. by destruct (Str.find c n s).
Qed.

Lemma find_after c p m rest :
  Str.lacks c m = true ->
  Str.find c (String.length p) (p ++ m ++ String c rest)
  = Some (String.length p + String.length m).
Proof.
  intros Hm. rewrite <- (Nat.add_0_r (String.length p)) at 1.
  rewrite find_skip, (find_here _ _ _ Hm). done.
Qed.

Lemma back_append_char p a : Str.back (p ++ String a "") = Some a.
Proof.
  induction p as [|b p IH]; simpl; [done |].
  rewrite IH. by destruct p.
Qed.

Lemma back_lacks c s : s <> "" -> Str.lacks c s = true -> Str.back s <> Some c.
Proof.
  induction s as [|a s IH]; [done |]. intros _ [Ha Hs]%andb_prop.
  apply negb_true_iff, Ascii.eqb_neq in Ha.
  destruct s as [|b s]; simpl.
  - congruence.
  - apply IH; [done | exact Hs].
Qed.

Lemma back_append_nonempty p s : s <> "" -> Str.back (p ++ s) = Str.back s.
Proof.
  intros Hs. induction p as [|b p IH]; simpl; [done |].
  rewrite IH. destruct (p ++ s) eqn:E; [| done].
  destruct p; simpl in E; [done | discriminate].
Qed.

Lemma empty_true s : Str.empty s = true <-> s = "".
Proof. by destruct s. Qed.

Lemma c_str_nul_free s : nul_free s -> Str.c_str s = s.
Proof.
  unfold nul_free. induction s as [|a s IH]; simpl; [done |].
  intros [Ha Hs]%andb_prop. apply negb_true_iff in Ha. rewrite Ha.
  by rewrite IH.
Qed.

Lemma nul_free_append s1 s2 : nul_free s1 -> nul_free s2 -> nul_free (s1 ++ s2).
Proof.
  unfold nul_free. induction s1 as [|a s1 IH]; simpl; [done |].
  intros [Ha Hs]%andb_prop H2. rewrite Ha. by apply IH.
Qed.


End StringFacts.

(** ** The default-route pattern *)

Section RegexFacts.

(** [[^c]+] takes a non-empty run of characters other than [c]. *)
Lemma iter_plus_not_chr_run c fuel b s k :
  iter_plus (accept (not_chr c)) fuel b s k = true ->
  exists run rest, s = run ++ rest /\ run <> "" /\ Str.lacks c run = true /\
                   k false rest = true.
Proof.
  revert b s. induction fuel as [|fuel IH]; intros b s; simpl;
    destruct s as [|a s]; try done.
  - rewrite orb_false_r. intros [Ha Hk]%andb_prop.
    exists (String a ""), s. simpl. by rewrite Ha.
  - intros [Ha [Hk|Hk]%orb_prop]%andb_prop.
    + exists (String a ""), s. simpl. by rewrite Ha.
    + destruct (IH _ _ Hk) as (run & rest & -> & _ & Hrun & Hrest).
      exists (String a run), rest. simpl. by rewrite Ha, Hrun.
Qed.

Lemma iter_plus_not_chr_unfold c fuel b a s k :
  iter_plus (accept (not_chr c)) fuel b (String a s) k
  = negb (Ascii.eqb a c) &&
    (k false s ||
     match fuel with
     | O => false
     | S fuel' => iter_plus (accept (not_chr c)) fuel' false s k
     end).
Proof. by destruct fuel. Qed.

Lemma iter_plus_not_chr_intro c run : forall fuel b rest k,
  run <> "" -> Str.lacks c run = true -> String.length run <= S fuel ->
  k false rest = true ->
  iter_plus (accept (not_chr c)) fuel b (run ++ rest) k = true.
Proof.
  induction run as [|a run IH]; [done |].
  intros fuel b rest k _ [Ha Hrun]%andb_prop Hlen Hk.
  change (String a run ++ rest) with (String a (run ++ rest)).
  rewrite iter_plus_not_chr_unfold, Ha. cbn [andb].
  destruct run as [|a' run].
  - change ("" ++ rest) with rest. by rewrite Hk.
  - destruct fuel as [|fuel]; [simpl in Hlen; lia |].
    rewrite (IH fuel false rest k); [by rewrite orb_true_r | done | done | | done].
    simpl in *. lia.
Qed.

Lemma plus_not_chr_iff c b s k :
  accept (plus (not_chr c)) b s k = true <->
  exists run rest, s = run ++ rest /\ run <> "" /\ Str.lacks c run = true /\
                   k false rest = true.
Proof.
  split.
  - apply iter_plus_not_chr_run.
  - intros (run & rest & -> & Hne & Hrun & Hk). simpl.
    apply iter_plus_not_chr_intro; try done.
    rewrite length_append. lia.
Qed.

(** What [routeRegex] accepts. *)
Lemma routeRegex_match_iff str :
  regex_match str routeRegex = true <->
  exists region cluster,
    is_segment region /\ is_segment cluster /\ route_of region cluster str.
Proof.
  unfold regex_match, routeRegex, is_segment, route_of.
  cbn [accept andb]. split.
  - destruct str as [|a str]; [done |].
    intros [Ha H]%andb_prop. apply Ascii.eqb_eq in Ha as ->.
    apply plus_not_chr_iff in H as (region & rest & -> & Hr1 & Hr2 & H).
    destruct rest as [|a rest]; [done |].
    apply andb_prop in H as [Ha H]. apply Ascii.eqb_eq in Ha as ->.
    apply plus_not_chr_iff in H as (cluster & rest' & -> & Hc1 & Hc2 & H).
    exists region, cluster. repeat split; try done.
    apply orb_prop in H as [H|H].
    + destruct rest' as [|a rest']; [done |].
      apply andb_prop in H as [Ha H]. apply Ascii.eqb_eq in Ha as ->.
      apply andb_prop in H as [H _]. apply empty_true in H as ->. by right.
    + apply andb_prop in H as [H _]. apply empty_true in H as ->.
      left. by rewrite append_nil_r.
  - intros (region & cluster & [Hr1 Hr2] & [Hc1 Hc2] & [-> | ->]); simpl.
    + apply plus_not_chr_iff. exists region, ("/" ++ cluster).
      repeat split; try done. simpl.
      apply plus_not_chr_iff. exists cluster, "".
      rewrite append_nil_r. repeat split; try done.
    + apply plus_not_chr_iff. exists region, ("/" ++ cluster ++ "/").
      repeat split; try done. simpl.
      apply plus_not_chr_iff. exists cluster, "/".
      repeat split; try done.
Qed.

End RegexFacts.

(** ** proxy_set_default_route *)

Section DefaultRoute.

Lemma route_of_normalized region cluster str :
  is_segment cluster -> route_of region cluster str ->
  (if negb (bool_decide (Str.back str = Some slash)) then str ++ "/" else str)
  = "/" ++ region ++ "/" ++ cluster ++ "/".
Proof.
  intros [Hc1 Hc2] [-> | ->].
  - rewrite bool_decide_eq_false_2.
    + simpl. by rewrite !append_assoc.
    + change ("/" ++ region ++ "/" ++ cluster)
        with (("/" ++ region) ++ ("/" ++ cluster)).
      rewrite back_append_nonempty by done.
      change ("/" ++ cluster) with (String slash "" ++ cluster).
      rewrite back_append_nonempty by done. by apply back_lacks.
  - rewrite bool_decide_eq_true_2; [done |].
    change ("/" ++ region ++ "/" ++ cluster ++ "/")
      with (("/" ++ region) ++ ("/" ++ cluster ++ "/")).
    rewrite back_append_nonempty by done.
    change ("/" ++ cluster ++ "/") with (("/" ++ cluster) ++ String slash "").
    apply back_append_char.
Qed.

Lemma segments_found region cluster :
  is_segment region -> is_segment cluster ->
  let route := "/" ++ region ++ "/" ++ cluster ++ "/" in
  let regionEnd := S (String.length region) in
  let clusterEnd := regionEnd + 1 + String.length cluster in
  Str.find slash 1 route = Some regionEnd /\
  Str.substr 1 (regionEnd - 1) route = Some region /\
  Str.find slash (regionEnd + 1) route = Some clusterEnd /\
  Str.substr (regionEnd + 1) (clusterEnd - regionEnd - 1) route = Some cluster.
Proof.
  intros [Hr1 Hr2] [Hc1 Hc2] route regionEnd clusterEnd.
  subst route regionEnd clusterEnd. repeat split.
  - change (Str.find slash 1 ("/" ++ region ++ "/" ++ cluster ++ "/"))
      with (S <$> Str.find slash 0 (region ++ String slash (cluster ++ "/"))).
    by rewrite find_here.
  - replace (S (String.length region) - 1) with (String.length region) by lia.
    change 1 with (String.length "/").
    apply (substr_append "/" region).
  - replace (S (String.length region) + 1)
      with (String.length (("/" ++ region) ++ "/")).
    2:{ rewrite length_append. simpl. lia. }
    replace ("/" ++ region ++ "/" ++ cluster ++ "/")
      with ((("/" ++ region) ++ "/") ++ cluster ++ String slash "").
    2:{ by rewrite !append_assoc. }
    rewrite find_after by done. f_equal.
  - replace (S (String.length region) + 1 + String.length cluster
             - S (String.length region) - 1) with (String.length cluster) by lia.
    replace (S (String.length region) + 1)
      with (String.length (("/" ++ region) ++ "/")).
    2:{ rewrite length_append. simpl. lia. }
    replace ("/" ++ region ++ "/" ++ cluster ++ "/")
      with ((("/" ++ region) ++ "/") ++ cluster ++ "/").
    2:{ by rewrite !append_assoc. }
    apply substr_append.
Qed.

Lemma proxy_set_default_route_accepts p region cluster str :
  is_segment region -> is_segment cluster -> route_of region cluster str ->
  proxy_set_default_route p str
  = Ok (with_default_cluster cluster (with_default_region region
         (with_default_route ("/" ++ region ++ "/" ++ cluster ++ "/") p))).
Proof.
  intros Hr Hc Hstr.
  assert (regex_match str routeRegex = true) as Hm.
  { apply routeRegex_match_iff. eauto. }
  assert (Str.empty str = false) as He.
  { by destruct Hstr as [-> | ->]. }
  pose proof (route_of_normalized _ _ _ Hc Hstr) as Hn.
  destruct (segments_found region cluster Hr Hc) as (H1 & H2 & H3 & H4).
  unfold proxy_set_default_route. rewrite He, Hm. cbn [negb].
  set (p1 := if negb _ then _ else _).
  assert (p1 = with_default_route ("/" ++ region ++ "/" ++ cluster ++ "/") p) as ->.
  { subst p1. rewrite <- Hn. by destruct (negb _). }
  cbn [default_route with_default_route].
  rewrite H1. cbn [FBI_ASSERT bool_decide decide_rel default mbind res_bind].
  rewrite bool_decide_eq_true_2 by eauto.
  cbn [default from_option FBI_ASSERT mbind res_bind]. unfold id.
  rewrite H2. cbn [default_route with_default_region with_default_route].
  rewrite H3. rewrite bool_decide_eq_true_2 by eauto.
  cbn [default from_option FBI_ASSERT mbind res_bind]. unfold id.
  by rewrite H4.
Qed.

Lemma proxy_set_default_route_rejects p str :
  str = "" \/ regex_match str routeRegex = false ->
  proxy_set_default_route p str = Ok p.
Proof.
  intros [-> | H]; unfold proxy_set_default_route; [done |].
  rewrite H. by destruct (Str.empty str).
Qed.

End DefaultRoute.

#[local] Close Scope string_scope.

(** ** router_configure *)

Section ConfigureFacts.
Context `{!ConfigBuilder}.
Implicit Types (ps pre : list proxy_t) (p : proxy_t).

Lemma same_but_destinations_refl p : same_but_destinations p p.
Proof. exists (destinationMap p). by destruct p. Qed.

Lemma same_but_destinations_built builder p :
  same_but_destinations p (built_proxy builder p).
Proof. by exists (buildConfig builder (marked p)).1. Qed.

Lemma build_configs_seq builder ps : forall pre o acc,
  build_configs builder (seq (length pre) (length ps)) (mk_router o (pre ++ ps)) acc
  = Ok (mk_router o (pre ++ (build_list builder ps).1),
        (fun cs => acc ++ cs) <$> (build_list builder ps).2).
Proof.
  induction ps as [|p ps IH]; intros pre o acc.
  - simpl. by rewrite !app_nil_r.
  - cbn [length seq build_configs build_list proxy_threads].
    rewrite list_lookup_middle by done.
    destruct (Str.empty (default_route p)) eqn:He; [done |].
    fold (marked p). unfold built_config, built_proxy.
    destruct (buildConfig builder (marked p)) as [dm [config | what]] eqn:Hb;
      cbn [fst snd]; unfold set_proxy; cbn [proxy_threads router_opts].
    + rewrite insert_app_r_alt, Nat.sub_diag by done. cbn [insert list_insert].
      specialize (IH (pre ++ [with_destinationMap dm (marked p)]) o (acc ++ [config])).
      rewrite length_app, Nat.add_1_r, <- !app_assoc in IH. cbn [app] in IH.
      rewrite IH. destruct (build_list builder ps) as [ps' [cs|]]; cbn; [|done].
      by rewrite <- app_assoc.
    + rewrite insert_app_r_alt, Nat.sub_diag by done. done.
Qed.

Lemma build_list_length builder ps :
  length (build_list builder ps).1 = length ps.
Proof.
  induction ps as [|p ps IH]; simpl; [done |].
  destruct (Str.empty _); [done |].
  destruct (built_config builder p); [| done].
  destruct (build_list builder ps); simpl in *. by rewrite IH.
Qed.

Lemma build_list_frame builder ps :
  Forall2 same_but_destinations ps (build_list builder ps).1.
Proof.
  induction ps as [|p ps IH]; simpl; [constructor |].
  assert (Forall2 same_but_destinations ps ps) as Hrefl.
  { apply Forall2_same_length_lookup. split; [done |].
    intros i x y ? ?. simplify_eq. apply same_but_destinations_refl. }
  destruct (Str.empty _).
  { constructor; [apply same_but_destinations_refl | done]. }
  destruct (built_config builder p).
  - destruct (build_list builder ps); simpl in *.
    constructor; [apply same_but_destinations_built | done].
  - constructor; [apply same_but_destinations_built | done].
Qed.

(** The loop gives up exactly when it meets a worker without default
    route or one whose snapshot cannot be built. *)
Lemma build_list_gives_up builder ps :
  (build_list builder ps).2 = None ->
  exists i p, ps !! i = Some p /\
    (default_route p = "" \/ exists what, built_config builder p = Thrown what).
Proof.
  induction ps as [|p ps IH]; simpl; [done |].
  destruct (Str.empty _) eqn:He.
  { intros _. exists 0, p. split; [done |]. left. by apply empty_true. }
  destruct (built_config builder p) as [config | what] eqn:Hb.
  - destruct (build_list builder ps) as [ps' [cs|]]; simpl in *; [done |].
    intros _. destruct (IH eq_refl) as (i & q & Hi & Hq). by exists (S i), q.
  - intros _. exists 0, p. split; [done |]. right. eauto.
Qed.

Lemma build_list_done builder ps cs :
  (build_list builder ps).2 = Some cs ->
  length cs = length ps /\
  forall i p, ps !! i = Some p ->
    default_route p <> "" /\
    exists config, cs !! i = Some config /\
      built_config builder p = Returned config /\
      (build_list builder ps).1 !! i = Some (built_proxy builder p).
Proof.
  revert cs. induction ps as [|p ps IH]; intros cs; simpl.
  { intros [= <-]. done. }
  destruct (Str.empty _) eqn:He; [done |].
  destruct (built_config builder p) as [config | what] eqn:Hb; [| done].
  destruct (build_list builder ps) as [ps' [cs'|]]; simpl in *; [| done].
  intros [= <-]. destruct (IH _ eq_refl) as [Hlen Hall].
  split; [simpl; by rewrite Hlen |].
  intros [|i] q Hq; simpl in *.
  - simplify_eq. split; [intros E; by rewrite E in He |]. eauto.
  - by apply Hall.
Qed.

Lemma count_servers_frame pools : forall p,
  foldl count_servers p pools = with_stats (stats (foldl count_servers p pools)) p.
Proof.
  induction pools as [|pool pools IH]; intros p; cbn [foldl]; [by destruct p |].
  rewrite IH at 1. unfold count_servers. by destruct (pool_type pool.2), p.
Qed.

(** [proxy_config_swap] by what it leaves: the statistics of [p1], the
    new configuration, and the entry of the old one. *)
Lemma proxy_config_swap_unfold time reads p config :
  proxy_config_swap time reads p config
  = let p1 := foldl count_servers (stat_set_uint64 num_servers_stat 0 p)
                (poolsMap config) in
    let p2 := stat_set_uint64 config_last_success_stat (time reads)
                (with_config (Some config) p1) in
    match config_ p with
    | Some old =>
        if negb (sync (opts p))
        then (with_request_queue
                (request_queue p ++ [request_type_old_config old (time (S reads))]) p2,
              S (S reads))
        else (p2, S reads)
    | None => (p2, S reads)
    end.
Proof.
  unfold proxy_config_swap, swapConfig.
  pose proof (count_servers_frame (poolsMap config)
                (stat_set_uint64 num_servers_stat 0 p)) as E.
  set (p1 := foldl count_servers _ _) in *. cbn zeta.
  assert (config_ p1 = config_ p) as -> by (by rewrite E).
  assert (sync (opts (stat_set_uint64 config_last_success_stat (time reads)
                        (with_config (Some config) p1))) = sync (opts p)) as ->
    by (by rewrite E).
  assert (request_queue (stat_set_uint64 config_last_success_stat (time reads)
                           (with_config (Some config) p1)) = request_queue p) as ->
    by (by rewrite E).
  done.
Qed.

Lemma proxy_config_swap_reads time reads p c :
  (proxy_config_swap time reads p c).2 = reads + reads_of p.
Proof.
  rewrite proxy_config_swap_unfold. unfold reads_of. cbn zeta.
  destruct (config_ p); [| cbn; lia]. destruct (sync (opts p)); cbn; lia.
Qed.

Lemma proxy_config_swap_frame time reads p config :
  let p' := (proxy_config_swap time reads p config).1 in
  opts p' = opts p /\ destinationMap p' = destinationMap p /\
  fiberManager p' = fiberManager p /\ waitingRequests_ p' = waitingRequests_ p /\
  default_route p' = default_route p /\ default_region p' = default_region p /\
  default_cluster p' = default_cluster p /\
  numRequestsProcessing_ p' = numRequestsProcessing_ p /\
  config_ p' = Some config.
Proof.
  cbn zeta. rewrite proxy_config_swap_unfold.
  pose proof (count_servers_frame (poolsMap config)
                (stat_set_uint64 num_servers_stat 0 p)) as E.
  set (p1 := foldl count_servers _ _) in *. cbn zeta.
  destruct (config_ p), (negb (sync (opts p))); rewrite E; done.
Qed.

Lemma proxy_config_swap_queue time reads p config :
  request_queue (proxy_config_swap time reads p config).1
  = request_queue p ++
    match config_ p with
    | Some old =>
        if sync (opts p) then []
        else [request_type_old_config old (time (S reads))]
    | None => []
    end.
Proof.
  rewrite proxy_config_swap_unfold.
  pose proof (count_servers_frame (poolsMap config)
                (stat_set_uint64 num_servers_stat 0 p)) as E.
  set (p1 := foldl count_servers _ _) in *. cbn zeta.
  assert (request_queue (stat_set_uint64 config_last_success_stat (time reads)
                           (with_config (Some config) p1)) = request_queue p) as Hq
    by (by rewrite E).
  destruct (config_ p) as [old|], (sync (opts p));
    cbn [negb with_request_queue request_queue fst]; by rewrite ?app_nil_r.
Qed.

Lemma proxy_config_swap_success_stat time reads p config :
  stat_get config_last_success_stat
    (stats (proxy_config_swap time reads p config).1) = time reads.
Proof.
  rewrite proxy_config_swap_unfold. cbn zeta.
  destruct (config_ p) as [old|], (negb (sync (opts p)));
    cbn [fst stats with_request_queue stat_set_uint64 with_stats];
    unfold stats_set, stat_get; by rewrite lookup_insert_eq.
Qed.

Lemma reads_of_pos p : 0 < reads_of p.
Proof. unfold reads_of. destruct (config_ p); [destruct (sync _) |]; lia. Qed.

Lemma reads_before_S ps i p :
  ps !! i = Some p -> reads_before ps (S i) = reads_before ps i + reads_of p.
Proof.
  unfold reads_before. intros Hp. rewrite (take_S_r _ _ _ Hp).
  rewrite sum_list_with_app. simpl. lia.
Qed.

Lemma reads_before_lt ps i j :
  i < j -> j < length ps -> reads_before ps i < reads_before ps j.
Proof.
  intros Hij. induction j as [|j IH]; [lia |]. intros Hj.
  destruct (lookup_lt_is_Some_2 ps j) as [p Hp]; [lia |].
  rewrite (reads_before_S _ _ _ Hp). pose proof (reads_of_pos p).
  destruct (decide (i = j)) as [-> | Hne]; [lia |].
  assert (reads_before ps i < reads_before ps j) by (apply IH; lia). lia.
Qed.

Lemma reads_before_same ps ps' i :
  Forall2 same_but_destinations ps ps' -> reads_before ps' i = reads_before ps i.
Proof.
  unfold reads_before. intros Hsame. revert i.
  induction Hsame as [|p p' ps ps' [dm ->] _ IH]; intros [|i]; simpl; try done.
  by rewrite IH.
Qed.

Lemma swap_list_length time ps : forall reads cs,
  length cs = length ps -> length (swap_list time reads ps cs) = length ps.
Proof.
  induction ps as [|p ps IH]; intros reads [|c cs] Hlen; simpl in *; try done.
  destruct (proxy_config_swap time reads p c) as [p' reads'] eqn:E. simpl.
  rewrite IH; [done | lia].
Qed.

Lemma swap_list_lookup time ps : forall reads cs i p c,
  ps !! i = Some p -> cs !! i = Some c ->
  swap_list time reads ps cs !! i
  = Some (proxy_config_swap time (reads + reads_before ps i) p c).1.
Proof.
  induction ps as [|p0 ps IH]; intros reads [|c0 cs] i p c Hp Hc; try done.
  cbn [swap_list].
  pose proof (proxy_config_swap_reads time reads p0 c0) as Hr.
  destruct (proxy_config_swap time reads p0 c0) as [p' reads'] eqn:E.
  cbn [snd] in Hr. subst reads'.
  destruct i as [|i]; simpl in Hp, Hc.
  - injection Hp as ->. injection Hc as ->.
    change (reads_before (p :: ps) 0) with 0. by rewrite Nat.add_0_r, E.
  - change ((p' :: swap_list time (reads + reads_of p0) ps cs) !! S i)
      with (swap_list time (reads + reads_of p0) ps cs !! i).
    rewrite (IH _ cs i p c Hp Hc).
    change (reads_before (p0 :: ps) (S i)) with (reads_of p0 + reads_before ps i).
    by rewrite Nat.add_assoc.
Qed.

Lemma swap_configs_seq time ps : forall reads pre post o cpre cs cpost,
  length cpre = length pre -> length cs = length ps ->
  swap_configs time reads (seq (length pre) (length ps))
    (mk_router o (pre ++ ps ++ post)) (cpre ++ cs ++ cpost)
  = Ok (mk_router o (pre ++ swap_list time reads ps cs ++ post),
        reads + reads_before ps (length ps)).
Proof.
  induction ps as [|p ps IH]; intros reads pre post o cpre cs cpost Hpre Hcs.
  - destruct cs; [| done]. cbn. unfold reads_before. cbn. by rewrite Nat.add_0_r.
  - destruct cs as [|c cs]; [done |].
    cbn [length seq swap_configs proxy_threads swap_list].
    rewrite <- !app_comm_cons.
    rewrite list_lookup_middle by done.
    rewrite list_lookup_middle by done.
    pose proof (proxy_config_swap_reads time reads p c) as Hr.
    destruct (proxy_config_swap time reads p c) as [p' reads'] eqn:E.
    cbn [snd] in Hr. subst reads'.
    unfold set_proxy; cbn [proxy_threads router_opts].
    rewrite insert_app_r_alt, Nat.sub_diag by done. cbn [insert list_insert].
    specialize (IH (reads + reads_of p) (pre ++ [p']) post o (cpre ++ [c]) cs cpost).
    rewrite !length_app in IH. cbn [length] in IH.
    rewrite !Nat.add_1_r, <- !app_assoc in IH. cbn [app] in IH.
    rewrite IH by (simpl in *; lia). do 2 f_equal.
    unfold reads_before. cbn [take sum_list_with]. lia.
Qed.

(** Where the first loop gives up, and what it leaves. *)
Lemma build_list_stops builder ps o :
  (build_list builder ps).2 = None ->
  exists k, stopped_at builder k (mk_router o ps)
              (mk_router o (build_list builder ps).1).
Proof.
  unfold stopped_at. cbn [proxy_threads].
  induction ps as [|p ps IH]; cbn [build_list]; [done |].
  destruct (Str.empty (default_route p)) eqn:He.
  { intros _. exists 0. split_and!.
    - exists p. split; [done |]. left. by apply empty_true.
    - intros; lia.
    - done.
    - intros [|i] q Hq; cbn [fst lookup list_lookup] in *.
      + injection Hq as ->. rewrite He. by repeat case_decide; try lia.
      + rewrite Hq. by repeat case_decide; try lia. }
  assert (default_route p <> "") as Hne.
  { intros E. by rewrite E in He. }
  destruct (built_config builder p) as [config | what] eqn:Hb.
  - destruct (build_list builder ps) as [ps' [cs|]] eqn:Hbl;
      cbn [fst snd fmap option_fmap option_map] in *; [done |].
    intros _. destruct (IH eq_refl) as (k & (pk & Hpk & Hbad) & Hbelow & Hlen & Hall).
    exists (S k). split_and!.
    + by exists pk.
    + intros [|i] q Hq Hi; cbn [lookup list_lookup] in *.
      * injection Hq as ->. eauto.
      * apply (Hbelow i q Hq). lia.
    + cbn [length]. by rewrite Hlen.
    + intros [|i] q Hq; cbn [lookup list_lookup] in *.
      * injection Hq as ->. by repeat case_decide; try lia.
      * refine (eq_trans (Hall i q Hq) _). f_equal.
        repeat case_decide; try lia; done.
  - intros _. exists 0. split_and!.
    + exists p. split; [done |]. right. eauto.
    + intros; lia.
    + done.
    + intros [|i] q Hq; cbn [fst lookup list_lookup] in *.
      * injection Hq as ->. rewrite He. by repeat case_decide; try lia.
      * rewrite Hq. by repeat case_decide; try lia.
Qed.

End ConfigureFacts.

Section ConfigureTheorems.
Context `{!ConfigBuilder}.

Lemma router_configure_unfold time o ps p0 input :
  ps !! 0 = Some p0 -> num_proxies o = length ps ->
  router_configure time (mk_router o ps) input
  = match ProxyConfigBuilder_new o (default_route p0) (default_region p0)
            (default_cluster p0) input with
    | Thrown _ => Ok (0%Z, mk_router o ps)
    | Returned builder =>
        match (build_list builder ps).2 with
        | None => Ok (0%Z, mk_router o (build_list builder ps).1)
        | Some cs =>
            Ok (1%Z, mk_router o (swap_list time 0 (build_list builder ps).1 cs))
        end
    end.
Proof.
  intros H0 Hn. unfold router_configure. cbn [proxy_threads router_opts].
  rewrite H0, Hn. destruct (ProxyConfigBuilder_new _ _ _ _ _) as [builder|]; [| done].
  pose proof (build_configs_seq builder ps [] o []) as Eb.
  cbn [app length] in Eb. rewrite Eb. cbn [app mbind res_bind].
  destruct (build_list builder ps) as [ps' [cs|]] eqn:Hb; cbn [fst snd fmap option_fmap option_map];
    [| done].
  pose proof (build_list_length builder ps) as Hlen. rewrite Hb in Hlen. simpl in Hlen.
  pose proof (build_list_done builder ps cs) as [Hcs _]; [by rewrite Hb |].
  pose proof (swap_configs_seq time ps' 0 [] [] o [] cs []) as E.
  rewrite !app_nil_r in E. cbn [app length] in E. rewrite Hlen in E.
  rewrite E by (done || lia). cbn [mbind res_bind router_opts].
  destruct cs as [|c cs]; [destruct ps; simpl in *; congruence |].
  cbn. by rewrite andb_false_r.
Qed.

Lemma all_swapped_intro time o builder ps cs :
  (build_list builder ps).2 = Some cs ->
  all_swapped time builder (mk_router o ps)
    (mk_router o (swap_list time 0 (build_list builder ps).1 cs)).
Proof.
  intros Hb. destruct (build_list_done _ _ _ Hb) as [Hcs Hall].
  intros i p Hp. cbn [proxy_threads] in *.
  destruct (Hall i p Hp) as (_ & c & Hc & Hr & Hps').
  exists c. split; [done |].
  rewrite (swap_list_lookup time _ 0 cs i (built_proxy builder p) c) by done.
  by rewrite (reads_before_same ps) by apply build_list_frame.
Qed.

Lemma swapped_in_order_intro time builder router router' :
  all_swapped time builder router router' ->
  swapped_in_order time router router'.
Proof.
  intros Hall. split; [| apply reads_before_lt].
  intros i p p' Hp Hp'. destruct (Hall i p Hp) as (c & _ & Hswap).
  rewrite Hswap in Hp'. injection Hp' as <-.
  split; [apply proxy_config_swap_success_stat |].
  by rewrite proxy_config_swap_queue.
Qed.

(** C6 (amended). [router_configure] returns, with 0 or with 1. It
    returns 0 exactly when building the snapshots fails. When the
    builder's constructor throws, the router is as it was. When the first
    loop gives up at a worker [k] (its default route is empty, or its
    snapshot cannot be built), the workers below [k] have the destination
    map that [buildConfig] left of their map with every entry marked
    unused, and so has worker [k] when it is its snapshot that failed; a
    worker [k] without default route and the workers above [k] are as they
    were. In either case no configuration is swapped: every worker is as
    before except for its destination map. Otherwise it returns 1 and
    every worker has its new snapshot swapped in, the swaps going by worker
    index: each swap reads the clock after the swaps of the workers below
    it, as [config_last_success_stat] and the entries of the retired
    configurations show. *)
Theorem router_configure_all_or_nothing time router input :
  length (proxy_threads router) = num_proxies (router_opts router) ->
  0 < num_proxies (router_opts router) ->
  exists rc router',
    router_configure time router input = Ok (rc, router') /\
    ((rc = 0%Z /\ build_fails router input /\
      ((exists what, router_builder router input = Some (Thrown what)) /\
       router' = router
       \/
       exists builder k,
         router_builder router input = Some (Returned builder) /\
         stopped_at builder k router router') /\
      Forall2 same_but_destinations (proxy_threads router) (proxy_threads router'))
     \/
     (rc = 1%Z /\ ~ build_fails router input /\
      exists builder,
        router_builder router input = Some (Returned builder) /\
        all_swapped time builder router router' /\
        swapped_in_order time router router')).
Proof.
  destruct router as [o ps]. cbn [proxy_threads router_opts]. intros Hn Hpos.
  assert (exists p0, ps !! 0 = Some p0) as [p0 H0].
  { destruct ps; [simpl in Hn; lia | eauto]. }
  rewrite (router_configure_unfold time o ps p0 input H0) by done.
  unfold build_fails, router_builder. cbn [proxy_threads router_opts].
  rewrite H0. cbn [fmap option_fmap option_map].
  destruct (ProxyConfigBuilder_new _ _ _ _ _) as [builder | what].
  2:{ eexists _, _. split; [done |]. left. split; [done |]. split; [eauto |].
      split; [left; eauto |].
      apply Forall2_same_length_lookup. split; [done |].
      intros i x y ? ?. simpl in *. simplify_eq. apply same_but_destinations_refl. }
  destruct (build_list builder ps).2 as [cs|] eqn:Hb.
  - eexists _, _. split; [done |]. right. split; [done |].
    destruct (build_list_done _ _ _ Hb) as [Hcs Hall]. split.
    + intros [[what [=]] | (b & i & p & [= <-] & Hp & Hbad)].
      destruct (Hall i p Hp) as (Hne & c & _ & Hc & _).
      destruct Hbad as [? | [what Hw]]; [done | congruence].
    + exists builder. split; [done |].
      pose proof (all_swapped_intro time o builder ps cs Hb) as Hswapped.
      split; [exact Hswapped |]. by eapply swapped_in_order_intro.
  - eexists _, _. split; [done |]. left. split; [done |]. split.
    + right. destruct (build_list_gives_up _ _ Hb) as (i & p & Hp & Hbad).
      by exists builder, i, p.
    + split; [| apply build_list_frame]. right.
      destruct (build_list_stops builder ps o Hb) as [k Hk]. by exists builder, k.
Qed.

End ConfigureTheorems.

(** C6, on a router of two configured workers, a text that can be built
    and a clock that ticks. *)
Lemma router_configure_all_or_nothing_witness :
  let router := Demo.configured_router in
  exists rc router',
    @router_configure Demo.builder Demo.ticking router "pools" = Ok (rc, router') /\
    ((rc = 0%Z /\ @build_fails Demo.builder router "pools" /\
      ((exists what, @router_builder Demo.builder router "pools" = Some (Thrown what)) /\
       router' = router
       \/
       exists builder k,
         @router_builder Demo.builder router "pools" = Some (Returned builder) /\
         @stopped_at Demo.builder builder k router router') /\
      Forall2 same_but_destinations (proxy_threads router) (proxy_threads router'))
     \/
     (rc = 1%Z /\ ~ @build_fails Demo.builder router "pools" /\
      exists builder,
        @router_builder Demo.builder router "pools" = Some (Returned builder) /\
        @all_swapped Demo.builder Demo.ticking builder router router' /\
        swapped_in_order Demo.ticking router router')).
Proof.
  apply (@router_configure_all_or_nothing Demo.builder Demo.ticking
           Demo.configured_router "pools").
  - reflexivity.
  - simpl. lia.
Defined.

(** C6 as first stated fails: when [buildConfig] throws for the only
    worker, [router_configure] returns 0 and the worker's destination is no
    longer marked as used. *)
Lemma router_configure_failure_marks_destinations :
  @router_configure Demo.builder Demo.ticking Demo.router "bad"
  = Ok (0%Z, Demo.router_marked) /\
  Demo.router_marked <> Demo.router.
Proof. split; [reflexivity | discriminate]. Qed.

(** On the router of two configured workers the clock is read four
    times: worker 0 succeeds at 10 and retires its configuration at 11,
    worker 1 at 12 and 13. *)
Example router_configure_reads_clock :
  let view p :=
    (stat_get config_last_success_stat (stats p), request_queue p) in
  match @router_configure Demo.builder Demo.ticking Demo.configured_router "pools" with
  | Ok (rc, router') =>
      rc = 1%Z /\
      view <$> proxy_threads router'
      = [ (10%Z, [request_type_old_config Demo.config 11]);
          (12%Z, [request_type_old_config Demo.config 13]) ]
  | Err _ => False
  end.
Proof. vm_compute. done. Qed.

(** ** Claims on proxy_set_default_route *)

Section DefaultRouteClaims.

Lemma empty_default_route_fails `{!ConfigBuilder} time router input i p :
  length (proxy_threads router) = num_proxies (router_opts router) ->
  proxy_threads router !! i = Some p -> default_route p = "" ->
  exists router', router_configure time router input = Ok (0%Z, router').
Proof.
  destruct router as [o ps]. cbn [proxy_threads router_opts]. intros Hn Hp He.
  assert (exists p0, ps !! 0 = Some p0) as [p0 H0].
  { destruct ps; [done | eauto]. }
  rewrite (router_configure_unfold time o ps p0 input H0) by done.
  destruct (ProxyConfigBuilder_new _ _ _ _ _) as [builder | what]; [| eauto].
  destruct (build_list builder ps).2 as [cs|] eqn:Hb; [| eauto].
  destruct (build_list_done _ _ _ Hb) as [_ Hall].
  by destruct (Hall i p Hp) as [Hne _].
Qed.

(** C8. A default route accepted by [^/[^/]+/[^/]+/?$] is
    [/region/cluster] with or without a closing slash;
    [proxy_set_default_route] stores it with the closing slash, its first
    segment as region and its second as cluster. An empty or rejected
    default route leaves a new proxy without default route, and
    [router_configure] returns 0 for every router with such a worker. *)
Theorem proxy_set_default_route_parses :
  (forall p str,
     str <> "" -> regex_match str routeRegex = true ->
     exists region cluster,
       is_segment region /\ is_segment cluster /\ route_of region cluster str /\
       proxy_set_default_route p str
       = Ok (with_default_cluster cluster (with_default_region region
               (with_default_route
                  (if bool_decide (Str.back str = Some slash)
                   then str else str +:+ "/") p)))) /\
  (forall opts_,
     opt_default_route opts_ = "" \/
     regex_match (opt_default_route opts_) routeRegex = false ->
     exists p,
       proxy_t_new opts_ = Ok p /\ default_route p = "" /\
       forall (B : ConfigBuilder) time router input i,
         length (proxy_threads router) = num_proxies (router_opts router) ->
         proxy_threads router !! i = Some p ->
         exists router', router_configure time router input = Ok (0%Z, router')).
Proof.
  split.
  - intros p str _ Hm.
    destruct (proj1 (routeRegex_match_iff str) Hm) as (region & cluster & Hr & Hc & Hs).
    exists region, cluster. repeat (split; [done |]).
    rewrite (proxy_set_default_route_accepts p region cluster str) by done.
    pose proof (route_of_normalized _ _ _ Hc Hs) as Hn.
    destruct (bool_decide (Str.back str = Some slash)); simpl in Hn; by rewrite Hn.
  - intros opts_ Hbad. eexists. split; [by apply proxy_set_default_route_rejects |].
    split; [done |]. intros B time router input i Hn Hp.
    by eapply empty_default_route_fails.
Qed.

(** C8 on the route [/prn/cluster01]. *)
Lemma proxy_set_default_route_parses_witness :
  exists region cluster,
    is_segment region /\ is_segment cluster /\
    route_of region cluster "/prn/cluster01" /\
    proxy_set_default_route (Demo.worker 2) "/prn/cluster01"
    = Ok (with_default_cluster cluster (with_default_region region
            (with_default_route
               (if bool_decide (Str.back "/prn/cluster01" = Some slash)
                then "/prn/cluster01" else "/prn/cluster01" +:+ "/")
               (Demo.worker 2)))).
Proof.
  apply (proj1 proxy_set_default_route_parses (Demo.worker 2) "/prn/cluster01").
  - discriminate.
  - reflexivity.
Defined.

(** C10. On an empty string and on one the pattern rejects,
    [proxy_set_default_route] returns without an assertion failure or an
    exception and leaves the proxy, so its default route, region and
    cluster, as it was; a proxy constructed with such a default route has
    all three empty. *)
Theorem proxy_set_default_route_rejects_unchanged p str :
  str = "" \/ regex_match str routeRegex = false ->
  proxy_set_default_route p str = Ok p /\
  forall opts_, opt_default_route opts_ = str ->
    exists p', proxy_t_new opts_ = Ok p' /\
      default_route p' = "" /\ default_region p' = "" /\ default_cluster p' = "".
Proof.
  intros Hbad. split; [by apply proxy_set_default_route_rejects |].
  intros opts_ <-. eexists. split; [by apply proxy_set_default_route_rejects |]. done.
Qed.

(** C10 on the route [prn/cluster01], which lacks the leading slash. *)
Lemma proxy_set_default_route_rejects_unchanged_witness :
  proxy_set_default_route (Demo.worker 2) "prn/cluster01" = Ok (Demo.worker 2) /\
  forall opts_, opt_default_route opts_ = "prn/cluster01" ->
    exists p', proxy_t_new opts_ = Ok p' /\
      default_route p' = "" /\ default_region p' = "" /\ default_cluster p' = "".
Proof.
  apply (proxy_set_default_route_rejects_unchanged (Demo.worker 2) "prn/cluster01").
  right. reflexivity.
Defined.

End DefaultRouteClaims.

(** ** The request engine *)

Lemma bind_Ok {A B} (m : res A) (f : A -> res B) (b : B) :
  m ≫= f = Ok b <-> exists a, m = Ok a /\ f a = Ok b.
Proof. destruct m; simpl; [| split; [done | by intros (? & ? & ?)]]. split; [eauto | by intros (? & [= <-] & ?)]. Qed.

Lemma deref_Ok a w q : deref a w = Ok q <-> heap w !! a = Some q.
Proof. unfold deref. destruct (heap w !! a); naive_solver. Qed.

Lemma FBI_ASSERT_Ok b u : FBI_ASSERT b = Ok u <-> b = true.
Proof. destruct b, u; simpl; naive_solver. Qed.

Lemma Ok_inj {A} (a b : A) : Ok a = Ok b -> a = b.
Proof. by intros [= ->]. Qed.

Ltac res_inv :=
  repeat match goal with
  | H : Ok _ = Ok _ |- _ => apply Ok_inj in H; try subst
  | H : Err _ = Ok _ |- _ => discriminate H
  | H : mbind _ _ = Ok _ |- _ => apply bind_Ok in H as (? & ? & H)
  | H : deref _ _ = Ok _ |- _ => apply deref_Ok in H
  | H : FBI_ASSERT _ = Ok _ |- _ => apply FBI_ASSERT_Ok in H
  end.

Section Evolution.

Lemma req_le_refl q : req_le q q.
Proof. by split. Qed.

Lemma req_le_trans q1 q2 q3 : req_le q1 q2 -> req_le q2 q3 -> req_le q1 q3.
Proof.
  intros [] []. split; try congruence; try lia; auto.
Qed.

Lemma heap_le_refl h : heap_le h h.
Proof. intros a q Hq. exists q. split; [done | apply req_le_refl]. Qed.

Lemma heap_le_trans h1 h2 h3 : heap_le h1 h2 -> heap_le h2 h3 -> heap_le h1 h3.
Proof.
  intros H12 H23 a q3 Hq3.
  destruct (H23 a q3 Hq3) as (q2 & Hq2 & Hle23).
  destruct (H12 a q2 Hq2) as (q1 & Hq1 & Hle12).
  exists q1. split; [done | by eapply req_le_trans].
Qed.

Lemma heap_le_insert h a q q' :
  h !! a = Some q -> req_le q q' -> heap_le h (<[a := q']> h).
Proof.
  intros Hq Hle b qb. rewrite lookup_insert. case_decide.
  - intros [= <-]. subst. eauto.
  - intros Hb. exists qb. split; [done | apply req_le_refl].
Qed.

Lemma heap_le_delete h a : heap_le h (delete a h).
Proof.
  intros b qb. rewrite lookup_delete. case_decide; [done |].
  intros Hb. exists qb. split; [done | apply req_le_refl].
Qed.

Lemma world_le_refl w : world_le w w.
Proof. split; [apply heap_le_refl | done]. Qed.

Lemma world_le_trans w1 w2 w3 : world_le w1 w2 -> world_le w2 w3 -> world_le w1 w3.
Proof.
  intros (H1 & H2 & H3) (H1' & H2' & H3'). split; [by eapply heap_le_trans |].
  split; congruence.
Qed.

End Evolution.

Create HintDb engine.
#[local] Hint Resolve req_le_refl heap_le_refl world_le_refl : engine.

Section Counting.
Implicit Types (h : gmap nat proxy_request_t) (q : proxy_request_t).

Lemma bypass_processing_insert h a q :
  bypass_processing (<[a := q]> h)
  = bypass_processing (delete a h) + (if bypass_in_process q then 1 else 0).
Proof.
  unfold bypass_processing. rewrite map_filter_insert. cbn [snd].
  destruct (bypass_in_process q) eqn:Hq.
  - rewrite decide_True by done.
    rewrite <- insert_delete_eq, <- map_filter_delete.
    rewrite map_size_insert_None; [lia |].
    apply map_lookup_filter_None. left. apply lookup_delete_eq.
  - rewrite decide_False; [lia | simpl; congruence].
Qed.

Lemma bypass_processing_lookup h a q :
  h !! a = Some q ->
  bypass_processing h
  = bypass_processing (delete a h) + (if bypass_in_process q then 1 else 0).
Proof.
  intros Hq. rewrite <- (insert_id h a q) at 1 by done.
  apply bypass_processing_insert.
Qed.

Lemma bypass_processing_update h a q q' :
  h !! a = Some q -> bypass_in_process q' = bypass_in_process q ->
  bypass_processing (<[a := q']> h) = bypass_processing h.
Proof.
  intros Hq Hsame.
  by rewrite bypass_processing_insert, (bypass_processing_lookup h a q), Hsame.
Qed.

Lemma bypass_processing_fresh h a q :
  h !! a = None -> bypass_in_process q = false ->
  bypass_processing (<[a := q]> h) = bypass_processing h.
Proof.
  intros Hq Hf. rewrite bypass_processing_insert, Hf, delete_id by done. lia.
Qed.

End Counting.

Section EngineFacts.
Context {C : Collaborators}.

Lemma continueSendReply_Ok a w w' :
  continueSendReply a w = Ok w' ->
  exists q r,
    heap w !! a = Some q /\ reply q = Some r /\
    heap w' = <[a := with_reply_state REPLY_STATE_REPLIED q]> (heap w) /\
    proxy w' = with_stats (stats (proxy w')) (proxy w) /\
    completed w' = completed w /\
    enqueued w' = enqueued w ++ (if sync (opts (proxy w)) then [] else [(a, Some r)]).
Proof.
  unfold continueSendReply. intros Hc. res_inv. rename x into q.
  exists q. cbn [reply with_reply_state proxy store] in Hc.
  destruct (reply q) as [r|] eqn:Hr; [| done]. exists r.
  destruct (mc_res_is_err (result r)), (sync (opts (proxy w))) eqn:Hs;
    res_inv; cbn; rewrite ?Hs, ?Hr, ?app_nil_r; done.
Qed.

Lemma req_le_with_reply_state q s :
  reply_rank (reply_state q) <= reply_rank s -> req_le q (with_reply_state s q).
Proof. by split. Qed.

Lemma continueSendReply_local a w w' :
  continueSendReply a w = Ok w' -> local_step a w w'.
Proof.
  intros (q & r & Hq & Hr & Hh & Hp & _)%continueSendReply_Ok.
  exists q, (with_reply_state REPLY_STATE_REPLIED q).
  split_and!; try done.
  - apply req_le_with_reply_state. destruct (reply_state q); simpl; lia.
  - by rewrite Hp.
  - by rewrite Hp.
  - by rewrite Hp.
  - by rewrite Hp.
Qed.

Lemma local_step_trans a w1 w2 w3 :
  local_step a w1 w2 -> local_step a w2 w3 -> local_step a w1 w3.
Proof.
  intros (q1 & q2 & Hq1 & Hh2 & Hle & ? & ? & ? & ? & Hc & ? & ? & ?)
         (q2' & q3 & Hq2 & Hh3 & Hle' & ? & ? & ? & ? & Hc' & ? & ? & ?).
  rewrite Hh2, lookup_insert_eq in Hq2. simplify_eq.
  exists q1, q3. split_and!; try congruence.
  - by rewrite Hh3, Hh2, insert_insert_eq.
  - by eapply req_le_trans.
  - unfold proxy_core. congruence.
Qed.

Lemma local_step_store a w q q' :
  heap w !! a = Some q -> req_le q q' -> _refcount q' = _refcount q ->
  processing_ q' = processing_ q -> delay_reply q' = delay_reply q ->
  reqComplete_ q' = reqComplete_ q ->
  local_step a w (store a q' w).
Proof. intros. exists q, q'. split_and!; done. Qed.

Lemma sendReply_local a m w w' :
  sendReply a m w = Ok w' -> local_step a w w'.
Proof.
  unfold sendReply. intros Hs. res_inv. rename x into q.
  apply bool_decide_eq_true in H0.
  cbn [reply_state with_reply delay_reply] in Hs.
  set (q1 := with_reply _ q) in *.
  assert (local_step a w (store a q1 w)) as Hstep.
  { apply (local_step_store a w q q1); try done.
    split; try done. intros r. by rewrite H0. }
  case_bool_decide as Hst; cbn [negb] in Hs; [| by res_inv].
  destruct (delay_reply q =? 0)%Z.
  - eapply local_step_trans; [exact Hstep |]. by apply continueSendReply_local.
  - res_inv. eapply local_step_trans; [exact Hstep |].
    apply (local_step_store a _ q1); try done.
    + simpl. by rewrite lookup_insert_eq.
    + apply req_le_with_reply_state. subst q1. cbn [reply_state with_reply].
      rewrite Hst. simpl. lia.
Qed.

Lemma local_request_step a w w' :
  local_step a w w' -> request_step a 0 0 [] w w'.
Proof.
  intros (q & q' & ? & ? & ? & ? & ? & ? & ? & ? & ? & ? & ?).
  exists q, q'. split_and!; try done; try lia. by rewrite app_nil_r.
Qed.

Lemma local_step_processing a w w' q q' :
  local_step a w w' -> heap w !! a = Some q -> heap w' !! a = Some q' ->
  processing_ q' = processing_ q.
Proof.
  intros (q0 & q0' & ? & Hh & ? & ? & ? & ? & ? & ? & ? & ? & ?) Hq Hq'.
  rewrite Hh, lookup_insert_eq in Hq'. by simplify_eq.
Qed.

Lemma proxy_request_incref_Ok a w w' :
  proxy_request_incref a w = Ok w' ->
  exists q, heap w !! a = Some q /\ (0 < _refcount q)%Z /\
            w' = store a (with_refcount (_refcount q + 1) q) w.
Proof.
  unfold proxy_request_incref. intros Hi. res_inv.
  eexists. split; [done |]. split; [lia | done].
Qed.

Lemma routeHandlesProcessRequest_step a w w' q :
  heap w !! a = Some q ->
  routeHandlesProcessRequest a w = Ok w' ->
  let inline := answered_inline (op (orig_req q)) in
  request_step a (if inline then 0 else 1) 0 (if inline then [] else [a]) w w' /\
  forall q', heap w' !! a = Some q' -> processing_ q' = processing_ q.
Proof.
  intros Hq. unfold routeHandlesProcessRequest, answered_inline.
  rewrite (proj2 (deref_Ok a w q) Hq). cbn [mbind res_bind].
  intros Hr. case_bool_decide as Hstats; cbn [orb].
  { apply sendReply_local in Hr. split; [by apply local_request_step |].
    intros q' Hq'. by eapply local_step_processing. }
  case_bool_decide as Hgsi; cbn [orb].
  { destruct (config_ (proxy w)); [| done].
    apply sendReply_local in Hr. split; [by apply local_request_step |].
    intros q' Hq'. by eapply local_step_processing. }
  res_inv. apply proxy_request_incref_Ok in H as (q0 & Hq0 & Hpos & ->).
  simplify_eq. cbn. split.
  - exists q, (with_refcount (_refcount q + 1) q). split_and!; try done.
    cbn. lia.
  - intros q'. rewrite lookup_insert_eq. by intros [= <-].
Qed.

Lemma cmd_stat_incr_stats o p :
  cmd_stat_incr o p = with_stats (stats (cmd_stat_incr o p)) p.
Proof. by destruct o. Qed.

Lemma processRequest_step a w w' :
  processRequest a w = Ok w' ->
  exists q,
    heap w !! a = Some q /\ processing_ q = false /\
    let inline := answered_inline (op (orig_req q)) in
    request_step a (if inline then 0 else 1) 1 (if inline then [] else [a]) w w' /\
    forall q', heap w' !! a = Some q' -> processing_ q' = true.
Proof.
  unfold processRequest. intros Hp. res_inv. rename x into q.
  apply negb_true_iff in H0. exists q. split; [done |]. split; [done |].
  rename H1 into Hr.
  eapply routeHandlesProcessRequest_step in Hr; [| cbn; by rewrite lookup_insert_eq].
  cbn [orig_req with_processing] in Hr.
  destruct Hr as [(q1 & q' & Hq1 & Hh & Hle & Hrc & Hd & Hc & Hcore & Hn & Hw & Hf) Hproc].
  cbn in Hq1. rewrite lookup_insert_eq in Hq1. injection Hq1 as <-.
  cbn [proxy on_proxy store] in Hcore, Hn, Hw, Hf.
  rewrite cmd_stat_incr_stats in Hcore, Hn, Hw, Hf. split.
  - exists q, q'. split_and!; try done.
    + cbn. rewrite Hh. cbn. by rewrite insert_insert_eq.
    + apply (req_le_trans _ (with_processing true q)); [by split | exact Hle].
    + change (numRequestsProcessing_ (proxy x1)
              = (numRequestsProcessing_ (proxy w) + 1)%Z). rewrite Hn. cbn. lia.
  - cbn. intros q'' Hq''. by apply Hproc.
Qed.

Lemma engine_le_refl w : engine_le w w.
Proof.
  split; [apply world_le_refl |]. split; [done |]. split; [by exists 0 | done].
Qed.

Lemma engine_le_trans w1 w2 w3 : engine_le w1 w2 -> engine_le w2 w3 -> engine_le w1 w3.
Proof.
  intros (Hw & Hc & [k Hk] & Hi) (Hw' & Hc' & [k' Hk'] & Hi').
  split; [by eapply world_le_trans |]. split; [congruence |]. split; [| auto].
  exists (k + k'). by rewrite Hk', Hk, drop_drop.
Qed.

Lemma proxy_core_opts p p' : proxy_core p' = proxy_core p -> opts p' = opts p.
Proof. unfold proxy_core. congruence. Qed.

Lemma proxy_core_config p p' : proxy_core p' = proxy_core p -> config_ p' = config_ p.
Proof. unfold proxy_core. congruence. Qed.

Lemma request_step_engine_le a dr dn tasks w w' :
  request_step a dr dn tasks w w' -> (inflight_ok w -> inflight_ok w') ->
  engine_le w w'.
Proof.
  intros (q & q' & Hq & Hh & Hle & _ & _ & _ & Hc & _ & Hw & _) Hi.
  split; [| split; [done | split; [by exists 0 | done]]].
  split; [| split; [by apply proxy_core_opts | by apply proxy_core_config]].
  rewrite Hh. by eapply heap_le_insert.
Qed.

Lemma local_step_engine_le a w w' : local_step a w w' -> engine_le w w'.
Proof.
  intros Hl. eapply request_step_engine_le; [by apply local_request_step |].
  destruct Hl as (q & q' & Hq & Hh & [] & _ & Hp & _ & _ & Hc & Hn & _).
  unfold inflight_ok. rewrite Hh, Hn, (proxy_core_opts _ _ Hc).
  rewrite (bypass_processing_update _ _ q); [done | done |].
  unfold bypass_in_process. congruence.
Qed.

Lemma processRequest_engine_le a w w' q :
  processRequest a w = Ok w' -> heap w !! a = Some q ->
  bypass_op (op (orig_req q)) = true \/
  (numRequestsProcessing_ (proxy w) < proxy_max_inflight_requests (opts (proxy w)))%Z ->
  engine_le w w'.
Proof.
  intros (q0 & Hq0 & Hnp & Hstep & Hproc)%processRequest_step Hq Hcond.
  assert (q0 = q) as -> by congruence. clear Hq0.
  eapply request_step_engine_le; [exact Hstep |].
  destruct Hstep as (q1 & q' & Hq1 & Hh & [Ho _ _ _ _] & _ & _ & _ & Hc & Hn & _).
  assert (q1 = q) as -> by congruence. clear Hq1.
  apply proxy_core_opts in Hc. unfold inflight_ok.
  rewrite Hh, Hn, Hc, bypass_processing_insert.
  rewrite (bypass_processing_lookup _ _ _ Hq).
  assert (processing_ q' = true) as Hq'.
  { apply Hproc. by rewrite Hh, lookup_insert_eq. }
  unfold bypass_in_process. rewrite Hnp, Hq', Ho. cbn [andb].
  destruct Hcond as [-> | Hlt]; [lia |]. destruct (bypass_op _); lia.
Qed.

Lemma proxy_request_decref_with_Ok f a w w' :
  proxy_request_decref_with f a w = Ok w' ->
  exists q,
    heap w !! a = Some q /\ (0 < _refcount q)%Z /\
    ((1 < _refcount q)%Z /\
     heap w' = <[a := with_refcount (_refcount q - 1) q]> (heap w) /\
     proxy w' = proxy w
     \/
     _refcount q = 1%Z /\ processing_ q = false /\
     heap w' = delete a (heap w) /\
     proxy w' = stat_decr proxy_request_num_outstanding_stat 1 (proxy w)
     \/
     _refcount q = 1%Z /\ processing_ q = true /\
     exists w1 w2,
       heap w1 = delete a (heap w) /\
       proxy w1 = stat_decr proxy_reqs_processing_stat 1
                    (with_numRequestsProcessing
                       (numRequestsProcessing_ (proxy w) - 1) (proxy w)) /\
       f w1 = Ok w2 /\
       heap w' = heap w2 /\
       proxy w' = stat_decr proxy_request_num_outstanding_stat 1 (proxy w2)).
Proof.
  unfold proxy_request_decref_with. intros Hd.
  apply bind_Ok in Hd as (q & Hq%deref_Ok & Hd).
  apply bind_Ok in Hd as (_ & Hpos%FBI_ASSERT_Ok & Hd). apply Z.ltb_lt in Hpos.
  exists q. split; [done |]. split; [done |].
  set (wc := if (_refcount q =? 1)%Z then _ else w) in Hd.
  assert (heap wc = heap w /\ proxy wc = proxy w) as [Hhc Hpc].
  { subst wc. destruct (_refcount q =? 1)%Z; [| done].
    by destruct (sync (opts (proxy w)) && _), (reqComplete_ q). }
  cbn [_refcount with_refcount] in Hd.
  destruct (0 <? _refcount q - 1)%Z eqn:Hlt.
  { apply Z.ltb_lt in Hlt. left. apply Ok_inj in Hd as <-. split; [lia |].
    cbn. by rewrite Hhc, Hpc. }
  apply Z.ltb_ge in Hlt. assert (_refcount q = 1%Z) as Hone by lia.
  right. apply bind_Ok in Hd as (w2 & Hdel & Hd). apply Ok_inj in Hd as <-.
  unfold proxy_request_delete, deref in Hdel. cbn [heap store] in Hdel.
  rewrite lookup_insert_eq in Hdel. cbn [mbind res_bind processing_ with_refcount] in Hdel.
  destruct (processing_ q) eqn:Hp.
  - right. split; [done |]. split; [done |].
    eexists _, w2. split_and!; [| | exact Hdel | done | done].
    + cbn. by rewrite delete_insert_eq, Hhc.
    + cbn. by rewrite Hpc.
  - left. apply Ok_inj in Hdel as <-. split; [done |]. split; [done |]. split.
    + cbn. by rewrite delete_insert_eq, Hhc.
    + cbn. by rewrite Hpc.
Qed.

Lemma engine_le_intro w w' :
  heap_le (heap w) (heap w') ->
  proxy_core (proxy w') = proxy_core (proxy w) ->
  (exists k, waitingRequests_ (proxy w') = drop k (waitingRequests_ (proxy w))) ->
  (inflight_ok w -> inflight_ok w') ->
  engine_le w w'.
Proof.
  intros Hh Hc Hk Hi. split; [| done].
  split; [done |]. split; [by apply proxy_core_opts | by apply proxy_core_config].
Qed.

Lemma req_le_with_refcount q n : req_le q (with_refcount n q).
Proof. by split. Qed.

Lemma proxy_request_decref_with_engine_le f a w w' :
  (forall w1 w2, f w1 = Ok w2 -> engine_le w1 w2) ->
  proxy_request_decref_with f a w = Ok w' -> engine_le w w'.
Proof.
  intros Hf (q & Hq & Hpos & Hcases)%proxy_request_decref_with_Ok.
  destruct Hcases as [(Hgt & Hh & Hp) | [(Hone & Hnp & Hh & Hp) |
                      (Hone & Hproc & w1 & w2 & Hh1 & Hp1 & Hfw & Hh & Hp)]].
  - apply engine_le_intro.
    + rewrite Hh. eapply heap_le_insert; [done | apply req_le_with_refcount].
    + by rewrite Hp.
    + exists 0. by rewrite Hp.
    + unfold inflight_ok. rewrite Hh, Hp.
      by rewrite (bypass_processing_update _ _ q).
  - apply engine_le_intro.
    + rewrite Hh. apply heap_le_delete.
    + by rewrite Hp.
    + exists 0. by rewrite Hp.
    + unfold inflight_ok. rewrite Hh, Hp. cbn.
      rewrite (bypass_processing_lookup _ _ _ Hq).
      unfold bypass_in_process. rewrite Hnp. cbn. by rewrite Nat.add_0_r.
  - assert (engine_le w w1) as H1.
    { apply engine_le_intro.
      - rewrite Hh1. apply heap_le_delete.
      - by rewrite Hp1.
      - exists 0. by rewrite Hp1.
      - unfold inflight_ok. rewrite Hh1, Hp1. cbn.
        rewrite (bypass_processing_lookup _ _ _ Hq).
        destruct (bypass_in_process q); lia. }
    assert (engine_le w2 w') as H2.
    { apply engine_le_intro.
      - rewrite Hh. apply heap_le_refl.
      - by rewrite Hp.
      - exists 0. by rewrite Hp.
      - unfold inflight_ok. by rewrite Hh, Hp. }
    eapply engine_le_trans; [exact H1 |].
    eapply engine_le_trans; [by apply Hf | exact H2].
Qed.

Lemma pump_fuel_S n w :
  pump_fuel (S n) w
  = if (numRequestsProcessing_ (proxy w) <?
          proxy_max_inflight_requests (opts (proxy w)))%Z &&
       negb (bool_decide (waitingRequests_ (proxy w) = []))
    then
      match waitingRequests_ (proxy w) with
      | preq :: rest =>
          let w := on_proxy (with_waitingRequests rest) w in
          let w := on_proxy (stat_decr proxy_reqs_waiting_stat 1) w in
          w ← processRequest preq w;
          w ← proxy_request_decref_with (pump_fuel n) preq w;
          pump_fuel n w
      | [] => Err out_of_fuel
      end
    else Ok w.
Proof. reflexivity. Qed.

Lemma pump_fuel_engine_le n : forall w w',
  pump_fuel n w = Ok w' -> engine_le w w'.
Proof.
  induction n as [|n IH]; intros w w'.
  { simpl. destruct (_ && _); [done |]. intros [= <-]. apply engine_le_refl. }
  rewrite pump_fuel_S.
  destruct (_ <? _)%Z eqn:Hlt; cbn [andb];
    [| intros [= <-]; apply engine_le_refl].
  destruct (waitingRequests_ (proxy w)) as [|a rest] eqn:Hw;
    [intros [= <-]; apply engine_le_refl |].
  cbn [negb bool_decide decide_rel]. rewrite bool_decide_eq_false_2 by done.
  cbn [negb]. intros Hp.
  apply bind_Ok in Hp as (w1 & Hproc & Hp).
  apply bind_Ok in Hp as (w2 & Hdec & Hp).
  apply Z.ltb_lt in Hlt.
  set (w0 := on_proxy (stat_decr proxy_reqs_waiting_stat 1)
               (on_proxy (with_waitingRequests rest) w)) in *.
  assert (engine_le w w0) as H0.
  { apply engine_le_intro; try done.
    - apply heap_le_refl.
    - exists 1. cbn. by rewrite Hw. }
  pose proof Hproc as (q & Hq & _)%processRequest_step.
  eapply engine_le_trans; [exact H0 |].
  eapply engine_le_trans; [by eapply processRequest_engine_le; eauto |].
  eapply engine_le_trans; [by eapply proxy_request_decref_with_engine_le; eauto |].
  by apply IH.
Qed.

Lemma pump_engine_le w w' : pump w = Ok w' -> engine_le w w'.
Proof. apply pump_fuel_engine_le. Qed.

Lemma proxy_request_decref_engine_le a w w' :
  proxy_request_decref a w = Ok w' -> engine_le w w'.
Proof.
  apply proxy_request_decref_with_engine_le. intros ? ?. apply pump_engine_le.
Qed.

(** *** [pump] never runs out of fuel *)

Lemma bind_fueled {A B} (m : res A) (f : A -> res B) :
  m ≫= f = Err out_of_fuel ->
  m = Err out_of_fuel \/ exists a, m = Ok a /\ f a = Err out_of_fuel.
Proof. destruct m as [a|e]; simpl; [eauto | intros [= ->]; by left]. Qed.

Lemma continueSendReply_fueled a w : continueSendReply a w <> Err out_of_fuel.
Proof.
  unfold continueSendReply, deref. destruct (heap w !! a); [| done]. cbn.
  destruct (reply _); [| done]. by destruct (mc_res_is_err _).
Qed.

Lemma sendReply_fueled a m w : sendReply a m w <> Err out_of_fuel.
Proof.
  unfold sendReply, deref. destruct (heap w !! a) as [q|]; [| done]. cbn.
  destruct (bool_decide (reply q = None)); [| done]. cbn.
  destruct (negb _); [done |]. destruct (_ =? _)%Z; [| done].
  apply continueSendReply_fueled.
Qed.

Lemma processRequest_fueled a w : processRequest a w <> Err out_of_fuel.
Proof.
  unfold processRequest, deref. destruct (heap w !! a) as [q|]; [| done]. cbn.
  destruct (negb (processing_ q)); [| done]. cbn.
  intros [Hr | (w1 & _ & [=])]%bind_fueled. revert Hr.
  unfold routeHandlesProcessRequest, deref. cbn. rewrite lookup_insert_eq. cbn.
  destruct (bool_decide _); [apply sendReply_fueled |].
  destruct (bool_decide _).
  { destruct (config_ _); [apply sendReply_fueled | done]. }
  unfold proxy_request_incref, deref. cbn. rewrite lookup_insert_eq. cbn.
  by destruct (0 <? _)%Z.
Qed.

Lemma proxy_request_decref_with_ext f g a w :
  (forall w1, waitingRequests_ (proxy w1) = waitingRequests_ (proxy w) ->
              f w1 = g w1) ->
  proxy_request_decref_with f a w = proxy_request_decref_with g a w.
Proof.
  intros Hfg. unfold proxy_request_decref_with, deref.
  destruct (heap w !! a) as [q|]; [| done]. cbn [mbind res_bind].
  destruct (FBI_ASSERT _); [| done]. cbn [mbind res_bind].
  set (wc := if (_refcount q =? 1)%Z then _ else w).
  assert (proxy wc = proxy w) as Hpc.
  { subst wc. destruct (_refcount q =? 1)%Z; [| done].
    by destruct (sync (opts (proxy w)) && _), (reqComplete_ q). }
  destruct (0 <? _)%Z; [done |].
  unfold proxy_request_delete, deref. cbn [heap store].
  rewrite lookup_insert_eq. cbn [mbind res_bind processing_ with_refcount].
  destruct (processing_ q); [| done].
  rewrite Hfg; [done |]. cbn. by rewrite Hpc.
Qed.

Lemma proxy_request_decref_with_fueled f a w :
  (forall w1, waitingRequests_ (proxy w1) = waitingRequests_ (proxy w) ->
              f w1 <> Err out_of_fuel) ->
  proxy_request_decref_with f a w <> Err out_of_fuel.
Proof.
  intros Hf. unfold proxy_request_decref_with, deref.
  destruct (heap w !! a) as [q|]; [| done]. cbn [mbind res_bind].
  unfold FBI_ASSERT. destruct (0 <? _refcount q)%Z; [| done]. cbn [mbind res_bind].
  set (wc := if (_refcount q =? 1)%Z then _ else w).
  assert (proxy wc = proxy w) as Hpc.
  { subst wc. destruct (_refcount q =? 1)%Z; [| done].
    by destruct (sync (opts (proxy w)) && _), (reqComplete_ q). }
  destruct (0 <? _)%Z; [done |].
  intros [Hd | (w2 & _ & [=])]%bind_fueled. revert Hd.
  unfold proxy_request_delete, deref. cbn [heap store].
  rewrite lookup_insert_eq. cbn [mbind res_bind processing_ with_refcount].
  destruct (processing_ q); [| done].
  apply Hf. cbn. by rewrite Hpc.
Qed.

Lemma engine_le_waiting_length w w' :
  engine_le w w' ->
  length (waitingRequests_ (proxy w')) <= length (waitingRequests_ (proxy w)).
Proof. intros (_ & _ & [k ->] & _). rewrite length_drop. lia. Qed.

Lemma processRequest_waiting a w w' :
  processRequest a w = Ok w' ->
  waitingRequests_ (proxy w') = waitingRequests_ (proxy w).
Proof.
  intros (q & _ & _ & (? & ? & ? & ? & ? & ? & ? & ? & ? & ? & ? & ?) & _)%processRequest_step.
  done.
Qed.

Lemma pump_fuel_empty n w :
  waitingRequests_ (proxy w) = [] -> pump_fuel n w = Ok w.
Proof.
  intros Hw. destruct n; simpl; rewrite Hw; cbn; by rewrite andb_false_r.
Qed.

(** Any fuel that covers the queue gives the same result. *)
Lemma pump_fuel_enough n : forall m w,
  length (waitingRequests_ (proxy w)) <= n ->
  length (waitingRequests_ (proxy w)) <= m ->
  pump_fuel n w = pump_fuel m w.
Proof.
  induction n as [|n IH]; intros m w Hn Hm.
  { rewrite !pump_fuel_empty; [done | |];
      destruct (waitingRequests_ (proxy w)); (done || simpl in *; lia). }
  destruct m as [|m].
  { rewrite !pump_fuel_empty; [done | |];
      destruct (waitingRequests_ (proxy w)); (done || simpl in *; lia). }
  rewrite !pump_fuel_S. destruct (_ && _); [| done].
  destruct (waitingRequests_ (proxy w)) as [|a rest] eqn:Hw; [done |].
  simpl in Hn, Hm. cbn zeta.
  destruct (processRequest a _) as [w1|] eqn:Hp; [| done]. cbn [mbind res_bind].
  apply processRequest_waiting in Hp as Hw1. cbn in Hw1.
  rewrite (proxy_request_decref_with_ext (pump_fuel n) (pump_fuel m)).
  2:{ intros w' Hw'. apply IH; rewrite Hw', Hw1; lia. }
  destruct (proxy_request_decref_with _ _ _) as [w2|] eqn:Hd; [| done].
  cbn [mbind res_bind].
  assert (engine_le w1 w2) as Hle.
  { eapply proxy_request_decref_with_engine_le; [| exact Hd].
    intros ? ?. apply pump_fuel_engine_le. }
  apply engine_le_waiting_length in Hle. rewrite Hw1 in Hle.
  apply IH; lia.
Qed.

Lemma pump_fuel_fueled n : forall w,
  length (waitingRequests_ (proxy w)) <= n -> pump_fuel n w <> Err out_of_fuel.
Proof.
  induction n as [|n IH]; intros w Hn.
  { rewrite pump_fuel_empty; [done |].
    destruct (waitingRequests_ (proxy w)); (done || simpl in *; lia). }
  rewrite pump_fuel_S. destruct (_ && _) eqn:Hc; [| done].
  destruct (waitingRequests_ (proxy w)) as [|a rest] eqn:Hw.
  { cbn in Hc. by rewrite andb_false_r in Hc. }
  simpl in Hn. cbn zeta.
  intros [Hp | (w1 & Hp & H1)]%bind_fueled; [by eapply processRequest_fueled |].
  apply processRequest_waiting in Hp as Hw1. cbn in Hw1.
  apply bind_fueled in H1 as [Hd | (w2 & Hd & H2)].
  - revert Hd. apply proxy_request_decref_with_fueled.
    intros w' Hw'. apply IH. rewrite Hw', Hw1. lia.
  - assert (engine_le w1 w2) as Hle.
    { eapply proxy_request_decref_with_engine_le; [| exact Hd].
      intros ? ?. apply pump_fuel_engine_le. }
    apply engine_le_waiting_length in Hle. rewrite Hw1 in Hle.
    revert H2. apply IH. lia.
Qed.

(** [pump] is the loop of the source: it either is done, or takes the
    head of the queue, processes it, drops the queue's reference, and
    goes round again. *)
Lemma pump_unfold w :
  pump w
  = if (numRequestsProcessing_ (proxy w) <?
          proxy_max_inflight_requests (opts (proxy w)))%Z &&
       negb (bool_decide (waitingRequests_ (proxy w) = []))
    then
      match waitingRequests_ (proxy w) with
      | preq :: rest =>
          let w := on_proxy (with_waitingRequests rest) w in
          let w := on_proxy (stat_decr proxy_reqs_waiting_stat 1) w in
          w ← processRequest preq w;
          w ← proxy_request_decref preq w;
          pump w
      | [] => Ok w
      end
    else Ok w.
Proof.
  unfold pump at 1. destruct (waitingRequests_ (proxy w)) as [|a rest] eqn:Hw.
  { rewrite pump_fuel_empty by done. by destruct (_ && _). }
  cbn [length]. rewrite pump_fuel_S, Hw. destruct (_ && _); [| done]. cbn zeta.
  destruct (processRequest a _) as [w1|] eqn:Hp; [| done]. cbn [mbind res_bind].
  apply processRequest_waiting in Hp as Hw1. cbn in Hw1.
  unfold proxy_request_decref.
  rewrite (proxy_request_decref_with_ext (pump_fuel (length rest)) pump).
  2:{ intros w' Hw'. unfold pump. by rewrite Hw', Hw1. }
  destruct (proxy_request_decref_with _ _ _) as [w2|] eqn:Hd; [| done].
  cbn [mbind res_bind].
  assert (engine_le w1 w2) as Hle.
  { eapply proxy_request_decref_with_engine_le; [| exact Hd].
    intros ? ?. apply pump_engine_le. }
  apply engine_le_waiting_length in Hle. rewrite Hw1 in Hle.
  unfold pump. apply pump_fuel_enough; lia.
Qed.

Lemma pump_fueled w : pump w <> Err out_of_fuel.
Proof. by apply pump_fuel_fueled. Qed.

(** *** Every event *)

Lemma inflight_ok_same w w' :
  bypass_processing (heap w') = bypass_processing (heap w) ->
  numRequestsProcessing_ (proxy w') = numRequestsProcessing_ (proxy w) ->
  opts (proxy w') = opts (proxy w) ->
  inflight_ok w -> inflight_ok w'.
Proof. unfold inflight_ok. by intros -> -> ->. Qed.

Lemma engine_le_heap_le w w' : engine_le w w' -> heap_le (heap w) (heap w').
Proof. by intros [[? _] _]. Qed.

Lemma engine_le_inflight w w' : engine_le w w' -> inflight_ok w -> inflight_ok w'.
Proof. by intros (_ & _ & _ & ?). Qed.

Lemma proxy_request_new_Ok a req rc sid w w' :
  proxy_request_new a req rc sid w = Ok w' ->
  exists q,
    heap w !! a = None /\ mc_client_req_is_valid req = true /\
    heap w' = <[a := q]> (heap w) /\
    proxy w' = stat_incr proxy_request_num_outstanding_stat 1 (proxy w) /\
    q = mk_preq (orig_req q) None REPLY_STATE_NO_REPLY 0 0 1 sid
          (legacy_get_service_info q) rc false /\
    legacy_get_service_info q
    = bool_decide (op req = mc_op_get) &&
      Str.strncmp_eq (key req) kInternalGetPrefix (String.length kInternalGetPrefix) /\
    orig_req q
    = if legacy_get_service_info q
      then mk_msg mc_op_get_service_info (result req)
             (shift_nstring_inplace (key req) (String.length kInternalGetPrefix))
             (value req)
      else req.
Proof.
  unfold proxy_request_new. case_bool_decide as Hlive; [done |].
  destruct (mc_client_req_is_valid req) eqn:Hv; [| done]. cbn [negb].
  intros [= <-]. eexists. split.
  { destruct (heap w !! a) eqn:E; [| done]. exfalso. apply Hlive. eauto. }
  split; [done |]. split; [done |]. split; [done |]. cbn. done.
Qed.

Lemma dispatchRequest_Ok a w w' :
  dispatchRequest a w = Ok w' ->
  exists q, heap w !! a = Some q /\
    (rateLimited (proxy w) q = true /\ (0 < _refcount q)%Z /\
     w' = on_proxy (stat_incr proxy_reqs_waiting_stat 1)
            (on_proxy (fun p => with_waitingRequests (waitingRequests_ p ++ [a]) p)
               (store a (with_refcount (_refcount q + 1) q) w))
     \/
     rateLimited (proxy w) q = false /\ processRequest a w = Ok w').
Proof.
  unfold dispatchRequest. intros Hd.
  apply bind_Ok in Hd as (q & Hq%deref_Ok & Hd). exists q. split; [done |].
  destruct (rateLimited (proxy w) q); [left | by right].
  apply bind_Ok in Hd as (w1 & Hi & Hd). apply Ok_inj in Hd as <-.
  apply proxy_request_incref_Ok in Hi as (q0 & Hq0 & Hpos & ->).
  assert (q0 = q) as -> by congruence. done.
Qed.

Lemma rateLimited_false p q :
  rateLimited p q = false ->
  proxy_max_inflight_requests (opts p) = 0%Z \/
  bypass_op (op (orig_req q)) = true \/
  waitingRequests_ p = [] /\
  (numRequestsProcessing_ p < proxy_max_inflight_requests (opts p))%Z.
Proof.
  unfold rateLimited, bypass_op.
  destruct (_ =? 0)%Z eqn:E0; [apply Z.eqb_eq in E0; by left |].
  destruct (_ || _ || _); [by right; left |].
  destruct (bool_decide _ && _) eqn:E; [| done].
  apply andb_prop in E as [E1%bool_decide_eq_true E2%Z.ltb_lt]. by right; right.
Qed.

Lemma fiber_task_Ok a out w w' :
  fiber_task a out w = Ok w' ->
  exists tasks q w1,
    remove_first a (fiberManager (proxy w)) = Some tasks /\
    heap w !! a = Some q /\ is_Some (config_ (proxy w)) /\
    sendReply a (fiber_result q out) (on_proxy (with_fiberManager tasks) w) = Ok w1 /\
    proxy_request_decref a w1 = Ok w'.
Proof.
  unfold fiber_task. destruct (remove_first _ _) as [tasks|]; [| done].
  intros Hf. apply bind_Ok in Hf as (q & Hq%deref_Ok & Hf).
  cbn [proxy on_proxy config_ with_fiberManager] in Hf.
  destruct (config_ (proxy w)) eqn:Hc; [| done].
  apply bind_Ok in Hf as (w1 & Hs & Hf). exists tasks, q, w1. split_and!; eauto.
Qed.

Lemma request_step_heap_le a dr dn tasks w w' :
  request_step a dr dn tasks w w' -> heap_le (heap w) (heap w').
Proof.
  intros (q & q' & Hq & Hh & Hle & _). rewrite Hh. by eapply heap_le_insert.
Qed.

(** Whatever happens, a request that stays alive only moves on. *)
Lemma step_heap_le e w w' :
  step e w = Ok w' ->
  (forall a req rc sid, e <> ev_new a req rc sid) ->
  heap_le (heap w) (heap w').
Proof.
  intros Hs Hnew. destruct e as [a req rc sid | a | a out | a | a | a d | a | a];
    cbn [step] in Hs.
  - by destruct (Hnew a req rc sid).
  - apply dispatchRequest_Ok in Hs as (q & Hq & [(_ & _ & ->) | [Hr Hp]]).
    + cbn. eapply heap_le_insert; [done | apply req_le_with_refcount].
    + apply processRequest_step in Hp as (q0 & _ & _ & Hstep & _).
      by eapply request_step_heap_le.
  - apply fiber_task_Ok in Hs as (tasks & q & w1 & _ & _ & _ & Hs & Hd).
    eapply heap_le_trans.
    + apply sendReply_local, local_step_engine_le, engine_le_heap_le in Hs. exact Hs.
    + by eapply engine_le_heap_le, proxy_request_decref_engine_le.
  - apply proxy_request_incref_Ok in Hs as (q & Hq & _ & ->).
    cbn. eapply heap_le_insert; [done | apply req_le_with_refcount].
  - by eapply engine_le_heap_le, proxy_request_decref_engine_le.
  - apply bind_Ok in Hs as (q & Hq%deref_Ok & Hs). apply Ok_inj in Hs as <-.
    cbn. eapply heap_le_insert; [done | by split].
  - by eapply engine_le_heap_le, local_step_engine_le, continueSendReply_local.
  - unfold proxy_on_continue_reply_error in Hs.
    apply bind_Ok in Hs as (q & Hq%deref_Ok & Hs).
    destruct (_ && _).
    + by eapply engine_le_heap_le, local_step_engine_le, continueSendReply_local.
    + apply Ok_inj in Hs as <-. apply heap_le_refl.
Qed.

Lemma step_req_le e w w' a q q' :
  step e w = Ok w' -> heap w !! a = Some q -> heap w' !! a = Some q' ->
  req_le q q'.
Proof.
  intros Hs Hq Hq'.
  assert ((exists b req rc sid, e = ev_new b req rc sid) \/
          (forall b req rc sid, e <> ev_new b req rc sid))
    as [(b & req & rc & sid & ->) | Hnew].
  { destruct e; try (by right); left; eauto. }
  - cbn [step] in Hs.
    apply proxy_request_new_Ok in Hs as (qn & Hb & _ & Hh & _).
    rewrite Hh, lookup_insert_ne in Hq' by congruence.
    assert (q' = q) as -> by congruence. apply req_le_refl.
  - destruct (step_heap_le e w w' Hs Hnew a q' Hq') as (q0 & Hq0 & Hle).
    by assert (q0 = q) as -> by congruence.
Qed.

(** Whatever happens, the bound on the counter is kept. *)
Lemma step_inflight_ok e w w' :
  step e w = Ok w' -> inflight_ok w -> inflight_ok w'.
Proof.
  intros Hs. destruct e as [a req rc sid | a | a out | a | a | a d | a | a];
    cbn [step] in Hs.
  - apply proxy_request_new_Ok in Hs as (q & Hnone & _ & Hh & Hp & Hq & _).
    apply inflight_ok_same; rewrite ?Hh, ?Hp; try done.
    apply bypass_processing_fresh; [done |]. by rewrite Hq.
  - apply dispatchRequest_Ok in Hs as (q & Hq & [(_ & _ & ->) | [Hr Hp]]).
    + apply inflight_ok_same; try done. cbn.
      by apply (bypass_processing_update _ _ q).
    + apply rateLimited_false in Hr as [H0 | Hr].
      * intros _. unfold inflight_ok.
        apply processRequest_step in Hp as (q0 & _ & _ & Hstep & _).
        destruct Hstep as (? & ? & _ & _ & _ & _ & _ & _ & Hc & _).
        rewrite (proxy_core_opts _ _ Hc), H0. lia.
      * eapply engine_le_inflight, processRequest_engine_le; eauto.
        destruct Hr as [? | [_ ?]]; eauto.
  - apply fiber_task_Ok in Hs as (tasks & q & w1 & _ & _ & _ & Hs & Hd).
    intros Hi. eapply engine_le_inflight; [by eapply proxy_request_decref_engine_le |].
    eapply engine_le_inflight; [by eapply local_step_engine_le, sendReply_local |].
    done.
  - apply proxy_request_incref_Ok in Hs as (q & Hq & _ & ->).
    apply inflight_ok_same; try done. cbn. by apply (bypass_processing_update _ _ q).
  - by eapply engine_le_inflight, proxy_request_decref_engine_le.
  - apply bind_Ok in Hs as (q & Hq%deref_Ok & Hs). apply Ok_inj in Hs as <-.
    apply inflight_ok_same; try done. cbn. by apply (bypass_processing_update _ _ q).
  - by eapply engine_le_inflight, local_step_engine_le, continueSendReply_local.
  - unfold proxy_on_continue_reply_error in Hs.
    apply bind_Ok in Hs as (q & Hq%deref_Ok & Hs).
    destruct (_ && _).
    + by eapply engine_le_inflight, local_step_engine_le, continueSendReply_local.
    + by apply Ok_inj in Hs as <-.
Qed.

Lemma run_inflight_ok evs : forall w w',
  run evs w = Ok w' -> inflight_ok w -> inflight_ok w'.
Proof.
  induction evs as [|e evs IH]; intros w w'; cbn [run].
  - by intros [= <-].
  - intros (w1 & Hs & Hr)%bind_Ok Hi. eapply IH; [exact Hr |].
    by eapply step_inflight_ok.
Qed.

Lemma step_proxy_core e w w' :
  step e w = Ok w' -> proxy_core (proxy w') = proxy_core (proxy w).
Proof.
  intros Hs. destruct e as [a req rc sid | a | a out | a | a | a d | a | a];
    cbn [step] in Hs.
  - apply proxy_request_new_Ok in Hs as (q & _ & _ & _ & Hp & _). by rewrite Hp.
  - apply dispatchRequest_Ok in Hs as (q & Hq & [(_ & _ & ->) | [Hr Hp]]); [done |].
    apply processRequest_step in Hp as (q0 & _ & _ & Hstep & _).
    by destruct Hstep as (? & ? & _ & _ & _ & _ & _ & _ & Hc & _).
  - apply fiber_task_Ok in Hs as (tasks & q & w1 & _ & _ & _ & Hs & Hd).
    apply proxy_request_decref_engine_le in Hd as (_ & Hc2 & _).
    apply sendReply_local, local_step_engine_le in Hs as (_ & Hc1 & _).
    by rewrite Hc2, Hc1.
  - by apply proxy_request_incref_Ok in Hs as (q & Hq & _ & ->).
  - by apply proxy_request_decref_engine_le in Hs as (_ & Hc & _).
  - apply bind_Ok in Hs as (q & Hq%deref_Ok & Hs). by apply Ok_inj in Hs as <-.
  - by apply continueSendReply_local, local_step_engine_le in Hs as (_ & Hc & _).
  - unfold proxy_on_continue_reply_error in Hs.
    apply bind_Ok in Hs as (q & Hq%deref_Ok & Hs).
    destruct (_ && _).
    + by apply continueSendReply_local, local_step_engine_le in Hs as (_ & Hc & _).
    + by apply Ok_inj in Hs as <-.
Qed.

Lemma run_proxy_core evs : forall w w',
  run evs w = Ok w' -> proxy_core (proxy w') = proxy_core (proxy w).
Proof.
  induction evs as [|e evs IH]; intros w w'; cbn [run].
  - by intros [= <-].
  - intros (w1 & Hs & Hr)%bind_Ok.
    by rewrite (IH _ _ Hr), (step_proxy_core _ _ _ Hs).
Qed.

Lemma proxy_set_default_route_frame p str p' :
  proxy_set_default_route p str = Ok p' ->
  exists route region cluster,
    p' = with_default_cluster cluster (with_default_region region
           (with_default_route route p)).
Proof.
  destruct (regex_match str routeRegex) eqn:Hm.
  - apply routeRegex_match_iff in Hm as (region & cluster & Hr & Hc & Hs).
    rewrite (proxy_set_default_route_accepts p region cluster str) by done.
    intros [= <-]. eauto.
  - rewrite proxy_set_default_route_rejects by eauto. intros [= <-].
    exists (default_route p), (default_region p), (default_cluster p). by destruct p.
Qed.

End EngineFacts.

(** ** Claims on admission *)

Section AdmissionClaims.
Context {C : Collaborators}.

(** C1 (amended). On a worker with limit [M > 0], after any sequence of
    events, [numRequestsProcessing_] is at most [M] plus the number of live
    requests in process whose operation bypasses the limit ([stats],
    [version], [get_service_info]); with no such request in process it is
    at most [M]. A worker starts within the bound, as its constructor
    leaves it and after a configuration is swapped in: the counter is 0
    and no request is alive. From any world within the bound, whatever has
    happened before, every sequence of events that returns ends in a world
    within the bound, under the same limit. *)
Theorem inflight_bounded_by_limit_and_bypass :
  (forall opts_ p w,
     proxy_t_new opts_ = Ok p ->
     w = world_new p \/
     (exists time reads config,
        w = world_new (proxy_config_swap time reads p config).1) ->
     proxy_max_inflight_requests (opts (proxy w))
     = proxy_max_inflight_requests opts_ /\
     numRequestsProcessing_ (proxy w) = 0%Z /\
     bypass_processing (heap w) = 0) /\
  (forall evs w w',
     let M := proxy_max_inflight_requests (opts (proxy w)) in
     (0 < M)%Z ->
     (numRequestsProcessing_ (proxy w)
        <= M + Z.of_nat (bypass_processing (heap w)))%Z ->
     run evs w = Ok w' ->
     proxy_max_inflight_requests (opts (proxy w')) = M /\
     (numRequestsProcessing_ (proxy w')
        <= M + Z.of_nat (bypass_processing (heap w')))%Z /\
     (bypass_processing (heap w') = 0 ->
      (numRequestsProcessing_ (proxy w') <= M)%Z)).
Proof.
  split.
  - intros opts_ p w Hnew Hw.
    apply proxy_set_default_route_frame in Hnew as (d & r & c & ->).
    assert (bypass_processing (∅ : gmap nat proxy_request_t) = 0) as Hempty.
    { unfold bypass_processing. by rewrite map_filter_empty, map_size_empty. }
    destruct Hw as [-> | (time & reads & config & ->)]; [done |].
    cbn [world_new proxy heap].
    match goal with
    | |- context [proxy_config_swap time reads ?p0 config] =>
        destruct (proxy_config_swap_frame time reads p0 config)
          as (-> & _ & _ & _ & _ & _ & _ & -> & _)
    end. done.
  - intros evs w w' M HM Hbound Hrun.
    pose proof (run_proxy_core _ _ _ Hrun) as Hc%proxy_core_opts.
    assert (inflight_ok w') as Hi.
    { eapply run_inflight_ok; [exact Hrun |]. by intros _. }
    unfold inflight_ok in Hi. rewrite Hc in Hi. specialize (Hi HM).
    split; [by rewrite Hc |]. split; [exact Hi |].
    intros Hb. rewrite Hb in Hi. subst M. lia.
Qed.

End AdmissionClaims.

Lemma Ok_the_world (r : res world) : is_Ok r = true -> r = Ok (Demo.the_world r).
Proof. by destruct r. Qed.

(** C1 on a configured worker with limit 1 that admits a [set] and then
    a [version], and on which the routing task of the [set] runs to its
    end. *)
Lemma inflight_bounded_by_limit_and_bypass_witness :
  let evs := Demo.set_then_version ++
             [ev_fiber 1 (route_replied (mk_msg mc_op_set mc_res_stored "" ""))] in
  let w := Demo.fresh_world 1 in
  let w' := Demo.the_world (@run Demo.collaborators evs w) in
  proxy_max_inflight_requests (opts (proxy w')) = 1%Z /\
  (numRequestsProcessing_ (proxy w')
     <= 1 + Z.of_nat (bypass_processing (heap w')))%Z /\
  (bypass_processing (heap w') = 0 -> (numRequestsProcessing_ (proxy w') <= 1)%Z).
Proof.
  refine (proj2 (@inflight_bounded_by_limit_and_bypass Demo.collaborators)
            (Demo.set_then_version ++
             [ev_fiber 1 (route_replied (mk_msg mc_op_set mc_res_stored "" ""))])
            (Demo.fresh_world 1) _ _ _ _).
  - reflexivity.
  - unfold Demo.fresh_world.
    destruct (proxy_t_new _) as [p|] eqn:Hp.
    + apply proxy_set_default_route_frame in Hp as (d & r & c & ->).
      cbn. unfold bypass_processing. rewrite map_filter_empty, map_size_empty. lia.
    + cbn. unfold bypass_processing. rewrite map_filter_empty, map_size_empty. lia.
  - apply Ok_the_world. vm_compute. reflexivity.
Defined.

(** C1 as first stated fails: with limit 1, a [set] in flight and a
    [version] admitted after it, the counter stands at 2. *)
Lemma inflight_exceeds_limit :
  proxy_t_new (Demo.options "/prn/cluster01/" 1 1) = Ok Demo.new_worker /\
  match @run Demo.collaborators Demo.set_then_version (world_new Demo.new_worker) with
  | Ok w => proxy_max_inflight_requests (opts (proxy w)) = 1%Z /\
            numRequestsProcessing_ (proxy w) = 2%Z
  | Err _ => False
  end.
Proof. vm_compute. done. Qed.

(** C2. [rateLimited] answers no when no limit is set; it answers no for
    [stats], [version] and [get_service_info] whatever the load; and with
    a limit set it answers no for another request exactly when nothing is
    waiting and the counter is below the limit. *)
Theorem rateLimited_spec (p : proxy_t) (q : proxy_request_t) :
  (proxy_max_inflight_requests (opts p) = 0%Z -> rateLimited p q = false) /\
  (op (orig_req q) = mc_op_stats \/ op (orig_req q) = mc_op_version \/
   op (orig_req q) = mc_op_get_service_info -> rateLimited p q = false) /\
  (proxy_max_inflight_requests (opts p) <> 0%Z ->
   op (orig_req q) <> mc_op_stats -> op (orig_req q) <> mc_op_version ->
   op (orig_req q) <> mc_op_get_service_info ->
   (rateLimited p q = false <->
    waitingRequests_ p = [] /\
    (numRequestsProcessing_ p < proxy_max_inflight_requests (opts p))%Z)).
Proof.
  unfold rateLimited. split_and!.
  - intros ->. done.
  - intros Hop. destruct (_ =? 0)%Z; [done |].
    destruct Hop as [-> | [-> | ->]]; done.
  - intros HM H1 H2 H3. apply Z.eqb_neq in HM. rewrite HM.
    rewrite !bool_decide_eq_false_2 by done. cbn [orb].
    destruct (bool_decide (waitingRequests_ p = [])) eqn:Hw; cbn [andb].
    + apply bool_decide_eq_true in Hw.
      destruct (_ <? _)%Z eqn:Hlt.
      * apply Z.ltb_lt in Hlt. done.
      * apply Z.ltb_ge in Hlt. split; [done |]. intros [_ ?]. lia.
    + apply bool_decide_eq_false in Hw. split; [done | by intros [? _]].
Qed.

(** C2 on a worker with limit 2 and nothing in flight, for a [set]. *)
Lemma rateLimited_spec_witness :
  let p := Demo.worker 2 in
  let q := mk_preq (Demo.request mc_op_set "k") None REPLY_STATE_NO_REPLY
             0 0 1 0 false true false in
  rateLimited p q = false <->
  waitingRequests_ p = [] /\
  (numRequestsProcessing_ p < proxy_max_inflight_requests (opts p))%Z.
Proof.
  intros p q.
  apply (proj2 (proj2 (rateLimited_spec p q))); discriminate.
Defined.

(** ** Claims on requests and replies *)

Section ReplyClaims.
Context {C : Collaborators}.

Lemma reply_rank_edge s s' :
  reply_rank s <= reply_rank s' -> s' = s \/ reply_edge s s'.
Proof.
  destruct s, s'; simpl; intros; try lia; (by left) || (right; constructor).
Qed.

Lemma sendReply_unfold a m w q :
  heap w !! a = Some q -> reply q = None ->
  let o := if legacy_get_service_info q then mc_op_get else op (orig_req q) in
  let q1 := with_reply (Some (set_op o m)) q in
  sendReply a m w
  = if negb (bool_decide (reply_state q = REPLY_STATE_NO_REPLY))
    then Ok (store a q1 w)
    else if (delay_reply q =? 0)%Z then continueSendReply a (store a q1 w)
    else Ok (store a (with_reply_state REPLY_STATE_REPLY_DELAYED q1)
               (store a q1 w)).
Proof.
  intros Hq Hr o q1. unfold sendReply, deref. rewrite Hq. cbn [mbind res_bind].
  rewrite Hr. done.
Qed.

Lemma continueSendReply_replied a w q r :
  heap w !! a = Some q -> reply q = Some r ->
  exists w', continueSendReply a w = Ok w' /\
    heap w' = <[a := with_reply_state REPLY_STATE_REPLIED q]> (heap w).
Proof.
  intros Hq Hr. unfold continueSendReply, deref. rewrite Hq. cbn [mbind res_bind].
  cbn [reply with_reply_state]. rewrite Hr.
  destruct (mc_res_is_err _); eexists; (split; [done |]);
    by destruct (sync _).
Qed.

(** C3. Across any event a live request's [reply_state] stays or moves
    along one of the edges NO_REPLY -> REPLY_DELAYED -> REPLIED and
    NO_REPLY -> REPLIED, and a reply that is set stays as it is; [sendReply]
    on a request that has its reply stops on the assertion. In [sendReply]
    on a request in NO_REPLY, [delay_reply == 0] goes through
    [continueSendReply] and ends in REPLIED, and [delay_reply > 0] ends in
    REPLY_DELAYED. *)
Theorem reply_latch :
  (forall e w w' a q q',
     step e w = Ok w' -> heap w !! a = Some q -> heap w' !! a = Some q' ->
     (reply_state q' = reply_state q \/
      reply_edge (reply_state q) (reply_state q')) /\
     (forall r, reply q = Some r -> reply q' = Some r)) /\
  (forall a m w q r,
     heap w !! a = Some q -> reply q = Some r ->
     sendReply a m w = Err assertion_failed) /\
  (forall a m w q,
     heap w !! a = Some q -> reply q = None ->
     reply_state q = REPLY_STATE_NO_REPLY ->
     let o := if legacy_get_service_info q then mc_op_get else op (orig_req q) in
     let q1 := with_reply (Some (set_op o m)) q in
     (delay_reply q = 0%Z ->
      sendReply a m w = continueSendReply a (store a q1 w) /\
      exists w', sendReply a m w = Ok w' /\
        heap w' !! a = Some (with_reply_state REPLY_STATE_REPLIED q1)) /\
     ((0 < delay_reply q)%Z ->
      sendReply a m w
      = Ok (store a (with_reply_state REPLY_STATE_REPLY_DELAYED q1)
              (store a q1 w)))).
Proof.
  split_and!.
  - intros e w w' a q q' Hs Hq Hq'.
    destruct (step_req_le e w w' a q q' Hs Hq Hq') as [_ _ Hrank Hreply _].
    split; [by apply reply_rank_edge | done].
  - intros a m w q r Hq Hr. unfold sendReply, deref. rewrite Hq.
    cbn [mbind res_bind]. rewrite Hr. done.
  - intros a m w q Hq Hr Hst o q1. split.
    + intros Hd. rewrite (sendReply_unfold a m w q Hq Hr).
      rewrite Hst, Hd. cbn. split; [done |].
      destruct (continueSendReply_replied a (store a q1 w) q1 (set_op o m))
        as (w' & Hc & Hh); [cbn; by rewrite lookup_insert_eq | done |].
      exists w'. split; [exact Hc |]. by rewrite Hh, lookup_insert_eq.
    + intros Hd. rewrite (sendReply_unfold a m w q Hq Hr).
      rewrite Hst. cbn. destruct (delay_reply q =? 0)%Z eqn:E; [| done].
      apply Z.eqb_eq in E. lia.
Qed.

End ReplyClaims.

(** C3 on the worker with one [set] in flight: its routing task ends and
    the reply goes out. *)
Lemma reply_latch_witness :
  let stored := mk_msg mc_op_set mc_res_stored "" "" in
  let w' := Demo.the_world
              (@step Demo.collaborators (ev_fiber 1 (route_replied stored))
                 Demo.set_in_flight) in
  (forall q', heap w' !! 1 = Some q' ->
     (reply_state q' = REPLY_STATE_NO_REPLY \/
      reply_edge REPLY_STATE_NO_REPLY (reply_state q')) /\
     (forall r, None = Some r -> reply q' = Some r)) /\
  exists w'',
    @sendReply Demo.collaborators 1 stored Demo.set_in_flight = Ok w'' /\
    heap w'' !! 1
    = Some (mk_preq (Demo.request mc_op_set "k") (Some stored) REPLY_STATE_REPLIED
              0 0 2 0 false true true).
Proof.
  intros stored w'.
  pose proof (@reply_latch Demo.collaborators) as (Hstep & _ & Hsend).
  split.
  - intros q' Hq'.
    refine (Hstep _ Demo.set_in_flight w' 1 Demo.the_set q' _ eq_refl Hq').
    apply Ok_the_world. vm_compute. reflexivity.
  - destruct (Hsend 1 stored Demo.set_in_flight Demo.the_set eq_refl eq_refl eq_refl)
      as [H0 _].
    destruct (H0 eq_refl) as [_ Hw]. exact Hw.
Defined.

Section RewriteClaims.
Context {C : Collaborators}.


Lemma sendReply_stores a m w w' q :
  heap w !! a = Some q -> sendReply a m w = Ok w' ->
  exists q',
    heap w' !! a = Some q' /\
    reply q' = Some (set_op (if legacy_get_service_info q then mc_op_get
                             else op (orig_req q)) m).
Proof.
  intros Hq Hs.
  assert (reply q = None) as Hr.
  { unfold sendReply, deref in Hs. rewrite Hq in Hs. cbn [mbind res_bind] in Hs.
    destruct (reply q) as [r|]; [| done].
    by rewrite bool_decide_eq_false_2 in Hs. }
  rewrite (sendReply_unfold a m w q Hq Hr) in Hs.
  destruct (negb _).
  { apply Ok_inj in Hs as <-. eexists. cbn. by rewrite lookup_insert_eq. }
  destruct (_ =? _)%Z.
  - apply continueSendReply_Ok in Hs as (q1 & r & Hq1 & _ & Hh & _).
    cbn in Hq1. rewrite lookup_insert_eq in Hq1. injection Hq1 as <-.
    eexists. rewrite Hh, lookup_insert_eq. done.
  - apply Ok_inj in Hs as <-. eexists. cbn. by rewrite lookup_insert_eq.
Qed.

Lemma sendReply_succeeds a m w q :
  heap w !! a = Some q -> reply q = None ->
  exists w', sendReply a m w = Ok w'.
Proof.
  intros Hq Hr. rewrite (sendReply_unfold a m w q Hq Hr).
  destruct (negb _); [eauto |]. destruct (_ =? _)%Z; [| eauto].
  edestruct continueSendReply_replied as (w' & Hc & _); [| | eauto].
  - cbn. by rewrite lookup_insert_eq.
  - done.
Qed.


End RewriteClaims.


Section RoutingClaims.
Context {C : Collaborators}.

(** C5. When the root route handle throws for a request, the function run
    on the fiber still returns: its result is a reply with result
    [mc_res_local_error] whose value is [error routing <key>: <what>];
    [sendReply] stores it for the request (with the op the client used),
    and the task goes on to its cleanup, [proxy_request_decref]. *)
Theorem routing_exception_becomes_reply a what w q tasks :
  heap w !! a = Some q -> reply q = None ->
  is_Some (config_ (proxy w)) ->
  remove_first a (fiberManager (proxy w)) = Some tasks ->
  nul_free (key (orig_req q)) -> nul_free what ->
  let message := "error routing " +:+ key (orig_req q) +:+ ": " +:+ what in
  let synthetic := mk_msg (op (orig_req q)) mc_res_local_error "" message in
  fiber_result q (route_threw what) = synthetic /\
  exists w1 q1,
    sendReply a synthetic (on_proxy (with_fiberManager tasks) w) = Ok w1 /\
    heap w1 !! a = Some q1 /\
    reply q1 = Some (set_op (if legacy_get_service_info q then mc_op_get
                             else op (orig_req q)) synthetic) /\
    fiber_task a (route_threw what) w = proxy_request_decref a w1.
Proof.
  intros Hq Hr [cfg Hcfg] Htasks Hkey Hwhat message synthetic.
  assert (fiber_result q (route_threw what) = synthetic) as Hres.
  { unfold fiber_result, create_reply, new_reply. cbn [key value].
    subst synthetic message. f_equal.
    rewrite (c_str_nul_free what) by done.
    apply c_str_nul_free.
    repeat (apply nul_free_append; try done). }
  split; [exact Hres |].
  set (w0 := on_proxy (with_fiberManager tasks) w).
  assert (heap w0 !! a = Some q) as Hq0 by done.
  destruct (sendReply_succeeds a synthetic w0 q Hq0 Hr) as [w1 Hs].
  destruct (sendReply_stores a synthetic w0 w1 q Hq0 Hs) as (q1 & Hq1 & Hr1).
  exists w1, q1. split_and!; try done.
  unfold fiber_task. rewrite Htasks. fold w0. unfold deref. rewrite Hq0.
  cbn [mbind res_bind]. subst w0. cbn [proxy on_proxy config_ with_fiberManager].
  rewrite Hcfg, Hres. fold (on_proxy (with_fiberManager tasks) w).
  by rewrite Hs.
Qed.

End RoutingClaims.

(** C5 on the worker with one [set] in flight for key [k], whose route
    throws [upstream down]. *)
Lemma routing_exception_becomes_reply_witness :
  let q := Demo.the_set in
  let synthetic := mk_msg mc_op_set mc_res_local_error ""
                     ("error routing " +:+ "k" +:+ ": " +:+ "upstream down") in
  fiber_result q (route_threw "upstream down") = synthetic /\
  exists w1 q1,
    @sendReply Demo.collaborators 1 synthetic
      (on_proxy (with_fiberManager []) Demo.set_in_flight) = Ok w1 /\
    heap w1 !! 1 = Some q1 /\
    reply q1 = Some (set_op mc_op_set synthetic) /\
    @fiber_task Demo.collaborators 1 (route_threw "upstream down") Demo.set_in_flight
    = @proxy_request_decref Demo.collaborators 1 w1.
Proof.
  apply (@routing_exception_becomes_reply Demo.collaborators 1 "upstream down"
           Demo.set_in_flight Demo.the_set []); try reflexivity.
  by eexists.
Defined.

(** ** Claims on the admission pump *)

Section PumpClaims.
Context {C : Collaborators}.

Lemma with_refcount_same q : with_refcount (_refcount q) q = q.
Proof. by destruct q. Qed.

Lemma processRequest_fiber_Ok a w q :
  heap w !! a = Some q -> processing_ q = false ->
  answered_inline (op (orig_req q)) = false -> (0 < _refcount q)%Z ->
  exists w1,
    processRequest a w = Ok w1 /\
    heap w1 = <[a := with_refcount (_refcount q + 1) (with_processing true q)]> (heap w) /\
    numRequestsProcessing_ (proxy w1) = (numRequestsProcessing_ (proxy w) + 1)%Z /\
    waitingRequests_ (proxy w1) = waitingRequests_ (proxy w) /\
    fiberManager (proxy w1) = fiberManager (proxy w) ++ [a] /\
    opts (proxy w1) = opts (proxy w).
Proof.
  intros Hq Hp Hin Hpos. unfold answered_inline in Hin.
  apply orb_false_elim in Hin as [H1 H2].
  unfold processRequest, deref. rewrite Hq. cbn [mbind res_bind]. rewrite Hp.
  cbn [negb FBI_ASSERT mbind res_bind].
  unfold routeHandlesProcessRequest, deref. cbn [heap store on_proxy].
  rewrite lookup_insert_eq. cbn [mbind res_bind orig_req with_processing].
  rewrite H1, H2. unfold proxy_request_incref, deref. cbn [heap store on_proxy].
  rewrite lookup_insert_eq. cbn [mbind res_bind _refcount with_processing].
  apply Z.ltb_lt in Hpos. rewrite Hpos. cbn [FBI_ASSERT mbind res_bind].
  eexists. split; [reflexivity |]. cbn.
  rewrite insert_insert_eq. split; [done |].
  rewrite cmd_stat_incr_stats. done.
Qed.

Lemma proxy_request_decref_shared a w q :
  heap w !! a = Some q -> (1 < _refcount q)%Z ->
  proxy_request_decref a w = Ok (store a (with_refcount (_refcount q - 1) q) w).
Proof.
  intros Hq Hgt. unfold proxy_request_decref, proxy_request_decref_with, deref.
  rewrite Hq. cbn [mbind res_bind].
  assert ((0 <? _refcount q)%Z = true) as -> by (apply Z.ltb_lt; lia).
  cbn [FBI_ASSERT mbind res_bind].
  assert ((_refcount q =? 1)%Z = false) as -> by (apply Z.eqb_neq; lia).
  cbn [_refcount with_refcount].
  assert ((0 <? _refcount q - 1)%Z = true) as -> by (apply Z.ltb_lt; lia).
  done.
Qed.

(** The loop on a ready queue: it takes the first [k] requests in their
    order, as many as the limit lets through. *)
Lemma pump_fifo_aux l : forall w,
  waitingRequests_ (proxy w) = l -> queue_ready w ->
  exists k w',
    pump w = Ok w' /\ k <= length l /\
    waitingRequests_ (proxy w') = drop k l /\
    fiberManager (proxy w') = fiberManager (proxy w) ++ take k l /\
    numRequestsProcessing_ (proxy w')
    = (numRequestsProcessing_ (proxy w) + Z.of_nat k)%Z /\
    opts (proxy w') = opts (proxy w) /\
    (k = length l \/
     (proxy_max_inflight_requests (opts (proxy w))
        <= numRequestsProcessing_ (proxy w'))%Z) /\
    (forall a q, a ∈ take k l -> heap w !! a = Some q ->
                 heap w' !! a = Some (with_processing true q)) /\
    (forall a, a ∉ take k l -> heap w' !! a = heap w !! a).
Proof.
  induction l as [|a rest IH]; intros w Hw [Hnd Hready]; rewrite pump_unfold, Hw.
  { exists 0, w. rewrite andb_false_r. cbn. rewrite app_nil_r.
    split_and!; try done; try lia; try (by left);
      by intros ? ? ?%elem_of_nil. }
  rewrite bool_decide_eq_false_2 by done. cbn [negb]. rewrite andb_true_r.
  destruct (_ <? _)%Z eqn:Hlt.
  2:{ apply Z.ltb_ge in Hlt. exists 0, w. cbn. rewrite app_nil_r.
      split_and!; try done; try lia; try (by right);
        by intros ? ? ?%elem_of_nil. }
  cbn zeta. rewrite Hw in Hnd, Hready. apply NoDup_cons in Hnd as [Hna Hnd].
  destruct (Hready a) as (q & Hq & Hp & Hpos & Hin); [by left |].
  set (w0 := on_proxy (stat_decr proxy_reqs_waiting_stat 1)
               (on_proxy (with_waitingRequests rest) w)).
  destruct (processRequest_fiber_Ok a w0 q) as (w1 & Hp1 & Hh1 & Hn1 & Hw1 & Hf1 & Ho1);
    try done.
  rewrite Hp1. cbn [mbind res_bind].
  rewrite (proxy_request_decref_shared a w1
             (with_refcount (_refcount q + 1) (with_processing true q))).
  2:{ by rewrite Hh1, lookup_insert_eq. }
  2:{ cbn. lia. }
  cbn [mbind res_bind _refcount with_refcount].
  set (w2 := store a _ w1).
  assert (heap w2 = <[a := with_processing true q]> (heap w)) as Hh2.
  { subst w2. cbn. rewrite Hh1. cbn. rewrite insert_insert_eq.
    f_equal. rewrite Z.add_simpl_r. by destruct q. }
  destruct (IH w2) as (k & w' & Hpump & Hk & Hwk & Hfk & Hnk & Hok & Hstop & Hin' & Hout).
  { subst w2. cbn. by rewrite Hw1. }
  { split; [subst w2; cbn; by rewrite Hw1 |].
    intros b Hb. assert (waitingRequests_ (proxy w2) = rest) as Hw2.
    { subst w2. cbn. by rewrite Hw1. }
    rewrite Hw2 in Hb. destruct (Hready b) as (qb & Hqb & ?); [by right |].
    exists qb. split; [| done]. rewrite Hh2, lookup_insert_ne; [done |].
    intros ->. done. }
  exists (S k), w'. split; [exact Hpump |]. split; [simpl; lia |].
  split; [exact Hwk |]. split.
  { rewrite Hfk. subst w2. cbn. rewrite Hf1. cbn. by rewrite <- app_assoc. }
  split.
  { rewrite Hnk. subst w2. cbn. rewrite Hn1. cbn. lia. }
  split.
  { rewrite Hok. subst w2. cbn. by rewrite Ho1. }
  split.
  { destruct Hstop as [-> | Hstop]; [by left |]. right.
    revert Hstop. subst w2. cbn. by rewrite Ho1. }
  split.
  - intros b qb Hb Hqb. cbn [take] in Hb. apply elem_of_cons in Hb as [-> | Hb].
    + assert (qb = q) as -> by congruence.
      rewrite Hout, Hh2, lookup_insert_eq; [done |].
      intros Ha%elem_of_take. by destruct Ha as (? & ?%list_elem_of_lookup_2 & _).
    + apply (Hin' b qb Hb). rewrite Hh2, lookup_insert_ne; [done |].
      intros ->. apply Hna.
      apply elem_of_take in Hb as (? & ?%list_elem_of_lookup_2 & _). done.
  - intros b Hb. cbn [take] in Hb. apply not_elem_of_cons in Hb as [Hba Hb].
    rewrite (Hout b Hb), Hh2, lookup_insert_ne; done.
Qed.

(** C7. [pump] is the loop of the source: while the counter is below
    the limit and requests wait, it takes the head of the queue, decrements
    the waiting statistic, calls [processRequest] on it and then
    [proxy_request_decref], and goes round again; otherwise it leaves the
    world as it is, and it always comes to an end. [dispatchRequest] puts a
    rate-limited request at the tail of the queue with one more reference.
    On a queue built that way [pump] returns, having processed the first
    [k] waiting requests in the order of the queue (their tasks reach the
    fiber manager in that order), with [k] all of them or as many as the
    limit allows; each processed request is left with its reference count
    as before, the queue's reference released and the task's taken. *)
Theorem pump_fifo :
  (forall w,
     pump w
     = if (numRequestsProcessing_ (proxy w) <?
             proxy_max_inflight_requests (opts (proxy w)))%Z &&
          negb (bool_decide (waitingRequests_ (proxy w) = []))
       then
         match waitingRequests_ (proxy w) with
         | preq :: rest =>
             let w := on_proxy (with_waitingRequests rest) w in
             let w := on_proxy (stat_decr proxy_reqs_waiting_stat 1) w in
             w ← processRequest preq w;
             w ← proxy_request_decref preq w;
             pump w
         | [] => Ok w
         end
       else Ok w) /\
  (forall w, pump w <> Err out_of_fuel) /\
  (forall a w q,
     heap w !! a = Some q -> rateLimited (proxy w) q = true ->
     (0 < _refcount q)%Z ->
     dispatchRequest a w
     = Ok (on_proxy (stat_incr proxy_reqs_waiting_stat 1)
             (on_proxy (fun p => with_waitingRequests (waitingRequests_ p ++ [a]) p)
                (store a (with_refcount (_refcount q + 1) q) w)))) /\
  (forall w,
     queue_ready w ->
     let l := waitingRequests_ (proxy w) in
     exists k w',
       pump w = Ok w' /\ k <= length l /\
       waitingRequests_ (proxy w') = drop k l /\
       fiberManager (proxy w') = fiberManager (proxy w) ++ take k l /\
       numRequestsProcessing_ (proxy w')
       = (numRequestsProcessing_ (proxy w) + Z.of_nat k)%Z /\
       (k = length l \/
        (proxy_max_inflight_requests (opts (proxy w))
           <= numRequestsProcessing_ (proxy w'))%Z) /\
       (forall a q, a ∈ take k l -> heap w !! a = Some q ->
                    heap w' !! a = Some (with_processing true q)) /\
       (forall a, a ∉ take k l -> heap w' !! a = heap w !! a)).
Proof.
  split_and!.
  - apply pump_unfold.
  - apply pump_fueled.
  - intros a w q Hq Hr Hpos. unfold dispatchRequest, deref. rewrite Hq.
    cbn [mbind res_bind]. rewrite Hr.
    unfold proxy_request_incref, deref. rewrite Hq. cbn [mbind res_bind].
    apply Z.ltb_lt in Hpos. by rewrite Hpos.
  - intros w Hready l.
    destruct (pump_fifo_aux l w eq_refl Hready)
      as (k & w' & ? & ? & ? & ? & ? & ? & ? & ? & ?).
    exists k, w'. by split_and!.
Qed.

End PumpClaims.

(** C7 on a worker with limit 3, two requests in flight and requests 3
    and 4 waiting: request 3 is processed, request 4 stays. *)
Lemma pump_fifo_witness :
  exists k w',
    @pump Demo.collaborators Demo.two_waiting = Ok w' /\ k <= 2 /\
    waitingRequests_ (proxy w') = drop k [3; 4] /\
    fiberManager (proxy w') = [1; 2] ++ take k [3; 4] /\
    numRequestsProcessing_ (proxy w') = (2 + Z.of_nat k)%Z /\
    (k = 2 \/ (3 <= numRequestsProcessing_ (proxy w'))%Z) /\
    (forall a q, a ∈ take k [3; 4] -> heap Demo.two_waiting !! a = Some q ->
                 heap w' !! a = Some (with_processing true q)) /\
    (forall a, a ∉ take k [3; 4] -> heap w' !! a = heap Demo.two_waiting !! a).
Proof.
  apply (proj2 (proj2 (proj2 (@pump_fifo Demo.collaborators))) Demo.two_waiting).
  split.
  - apply (bool_decide_unpack (NoDup [3; 4])). vm_compute. exact I.
  - intros a Ha. cbn in Ha.
    apply elem_of_cons in Ha as [-> | Ha]; [eexists; by vm_compute |].
    apply elem_of_cons in Ha as [-> | Ha]; [eexists; by vm_compute |].
    by apply elem_of_nil in Ha.
Defined.

(** ** The seed scenarios *)

(** Limit 2, four [set] requests: the first two are processed, the others
    wait; as the first two complete, the others start in their order. *)
Example rate_limit_fifo :
  let arrive a k :=
    [ev_new a (Demo.request mc_op_set k) false 0; ev_dispatch a; ev_decref a] in
  let stored := route_replied (mk_msg mc_op_set mc_res_stored "" "") in
  let view r :=
    match r with
    | Ok w => Some (numRequestsProcessing_ (proxy w), waitingRequests_ (proxy w),
                    fiberManager (proxy w),
                    stat_get proxy_reqs_waiting_stat (stats (proxy w)))
    | Err _ => None
    end in
  let after evs := view (@run Demo.collaborators evs (Demo.fresh_world 2)) in
  after (arrive 1 "a" ++ arrive 2 "b") = Some (2%Z, [], [1; 2], 0%Z) /\
  after (arrive 1 "a" ++ arrive 2 "b" ++ arrive 3 "c" ++ arrive 4 "d")
  = Some (2%Z, [3; 4], [1; 2], 2%Z) /\
  after (arrive 1 "a" ++ arrive 2 "b" ++ arrive 3 "c" ++ arrive 4 "d"
         ++ [ev_fiber 1 stored])
  = Some (2%Z, [4], [2; 3], 1%Z) /\
  after (arrive 1 "a" ++ arrive 2 "b" ++ arrive 3 "c" ++ arrive 4 "d"
         ++ [ev_fiber 1 stored; ev_fiber 2 stored])
  = Some (2%Z, [], [3; 4], 0%Z).
Proof. vm_compute. done. Qed.

(** Limit 1 and a [set] in flight: a [stats] request is processed at
    once and answered; nothing waits. *)
Example bypass_under_saturation :
  match @run Demo.collaborators
          [ev_new 1 (Demo.request mc_op_set "k") false 0; ev_dispatch 1;
           ev_new 2 (Demo.request mc_op_stats "") false 0; ev_dispatch 2]
          (Demo.fresh_world 1) with
  | Ok w => waitingRequests_ (proxy w) = [] /\
            numRequestsProcessing_ (proxy w) = 2%Z /\
            enqueued w = [(2, Some (mk_msg mc_op_stats mc_res_ok "" "STAT"))]
  | Err _ => False
  end.
Proof. vm_compute. done. Qed.

(** The route throws [upstream down] for key [k]: the client is handed a
    reply with [mc_res_local_error], and the request is gone. *)
Example route_handle_exception :
  match @run Demo.collaborators
          [ev_new 1 (Demo.request mc_op_get "k") true 0; ev_dispatch 1; ev_decref 1;
           ev_fiber 1 (route_threw "upstream down")]
          (Demo.fresh_world 0) with
  | Ok w => enqueued w
            = [(1, Some (mk_msg mc_op_get mc_res_local_error ""
                           "error routing k: upstream down"))] /\
            completed w = [1] /\ heap w = ∅ /\
            numRequestsProcessing_ (proxy w) = 0%Z
  | Err _ => False
  end.
Proof. vm_compute. done. Qed.

(** [get __mcrouter__.version] is routed as [get_service_info version]
    and answered as a [get]. *)
Example legacy_service_info :
  match @run Demo.collaborators
          [ev_new 1 (Demo.request mc_op_get "__mcrouter__.version") true 0;
           ev_dispatch 1]
          (Demo.fresh_world 0) with
  | Ok w => (orig_req <$> heap w !! 1)
            = Some (mk_msg mc_op_get_service_info mc_res_unknown "version" "") /\
            enqueued w = [(1, Some (mk_msg mc_op_get mc_res_found "version" "info"))]
  | Err _ => False
  end.
Proof. vm_compute. done. Qed.

(** ** Claims on the shadowing policy *)

Section ShadowingClaims.
Import Shadowing.
Variable double : Type.
Variable double_le : double -> double -> bool.
Variable double_0 double_1 : double.
Variable convertTo_vector_size_t : dynamic double -> Try (list N).
Variable convertTo_vector_double : dynamic double -> Try (list double).
Hypothesis double_le_trans : forall x y z,
  double_le x y = true -> double_le y z = true -> double_le x z = true.

Let Data := Data double.
Let read_index_range := read_index_range double convertTo_vector_size_t.
Let read_key_fraction_range :=
  read_key_fraction_range double double_le double_0 double_1 convertTo_vector_double.
Let Data_of_json :=
  Data_of_json double double_le double_0 double_1
    convertTo_vector_size_t convertTo_vector_double.
Let index_range_ok := index_range_ok double convertTo_vector_size_t.
Let key_fraction_range_ok :=
  key_fraction_range_ok double double_le double_0 double_1 convertTo_vector_double.

Lemma checkLogic_Ok b msg u : checkLogic b msg = Ok u <-> b = true.
Proof. destruct b, u; simpl; split; done. Qed.

Lemma rethrow_Ok {A} (t : Try A) a : rethrow t = Ok a <-> t = Returned a.
Proof. destruct t; simpl; split; congruence. Qed.

Lemma list_two {A} (l : list A) (x : A) :
  length l = 2 -> l = [default x (l !! 0); default x (l !! 1)].
Proof. by destruct l as [|a [|b [|c l]]]. Qed.

Lemma read_index_range_Ok json d d' :
  read_index_range json d = Ok d' ->
  match at_key double "index_range" json with
  | None => d' = d
  | Some v =>
      index_range_ok v (start_index _ d') (end_index _ d') /\
      d' = with_index_range _ (start_index _ d') (end_index _ d') d
  end.
Proof.
  unfold read_index_range, Shadowing.read_index_range.
  destruct (at_key double "index_range" json) as [v|]; [| by intros [= <-]].
  intros H. apply bind_Ok in H as (_ & Harr%checkLogic_Ok & H).
  apply bind_Ok in H as (ar & Hconv%rethrow_Ok & H).
  apply bind_Ok in H as (_ & Hlen%checkLogic_Ok%bool_decide_eq_true & H).
  apply bind_Ok in H as (_ & Hle%checkLogic_Ok%N.leb_le & H).
  apply Ok_inj in H as <-. cbn in *.
  split; [| done]. split; [done |]. split; [| done].
  by rewrite Hconv, (list_two ar 0%N Hlen) at 1.
Qed.

Lemma read_key_fraction_range_Ok json d d' :
  read_key_fraction_range json d = Ok d' ->
  match at_key double "key_fraction_range" json with
  | None => d' = d
  | Some v =>
      key_fraction_range_ok v (start_key_fraction _ d') (end_key_fraction _ d') /\
      d' = with_key_fraction_range _ (start_key_fraction _ d')
             (end_key_fraction _ d') d
  end.
Proof.
  unfold read_key_fraction_range, Shadowing.read_key_fraction_range.
  destruct (at_key double "key_fraction_range" json) as [v|]; [| by intros [= <-]].
  intros H. apply bind_Ok in H as (_ & Harr%checkLogic_Ok & H).
  apply bind_Ok in H as (ar & Hconv%rethrow_Ok & H).
  apply bind_Ok in H as (_ & Hlen%checkLogic_Ok%bool_decide_eq_true & H).
  apply bind_Ok in H as (_ & Hle%checkLogic_Ok & H).
  apply Ok_inj in H as <-. cbn in *.
  apply andb_prop in Hle as [[H0 Hab]%andb_prop H1].
  split; [| done]. split; [done |]. split.
  { by rewrite Hconv, (list_two ar double_0 Hlen) at 1. }
  split_and!; eauto.
Qed.

Lemma read_rv_Ok json d d' :
  (read_index_range_rv double json d ≫= read_key_fraction_range_rv double json)
  = Ok d' ->
  start_index _ d' = start_index _ d /\ end_index _ d' = end_index _ d /\
  start_key_fraction _ d' = start_key_fraction _ d /\
  end_key_fraction _ d' = end_key_fraction _ d.
Proof.
  intros (d1 & H1 & H2)%bind_Ok.
  unfold read_index_range_rv in H1. unfold read_key_fraction_range_rv in H2.
  destruct (at_key double "index_range_rv" json).
  - apply bind_Ok in H1 as (_ & _ & H1). apply Ok_inj in H1 as <-.
    destruct (at_key double "key_fraction_range_rv" json).
    + apply bind_Ok in H2 as (_ & _ & H2). by apply Ok_inj in H2 as <-.
    + by apply Ok_inj in H2 as <-.
  - apply Ok_inj in H1 as <-.
    destruct (at_key double "key_fraction_range_rv" json).
    + apply bind_Ok in H2 as (_ & _ & H2). by apply Ok_inj in H2 as <-.
    + by apply Ok_inj in H2 as <-.
Qed.

(** What a successful construction tells. *)
Lemma Data_of_json_Ok json d :
  Data_of_json json = Ok d ->
  isObject double json = true /\
  (forall v, at_key double "index_range" json = Some v ->
             index_range_ok v (start_index _ d) (end_index _ d)) /\
  (forall v, at_key double "key_fraction_range" json = Some v ->
             key_fraction_range_ok v (start_key_fraction _ d) (end_key_fraction _ d)).
Proof.
  unfold Data_of_json, Shadowing.Data_of_json. intros H.
  apply bind_Ok in H as (_ & Hobj%checkLogic_Ok & H).
  apply bind_Ok in H as (d1 & H1 & H).
  apply bind_Ok in H as (d2 & H2 & H).
  apply (read_index_range_Ok json) in H1.
  apply (read_key_fraction_range_Ok json) in H2.
  apply read_rv_Ok in H as (E1 & E2 & E3 & E4).
  split; [done |]. split.
  - intros v Hv. rewrite Hv in H1. destruct H1 as [Hok _].
    rewrite E1, E2.
    destruct (at_key double "key_fraction_range" json).
    + destruct H2 as [_ ->]. exact Hok.
    + by subst d2.
  - intros v Hv. rewrite Hv in H2. destruct H2 as [Hok _]. by rewrite E3, E4.
Qed.

(** Every failure of the constructor is an exception. *)
Lemma Data_of_json_Err json e :
  Data_of_json json = Err e -> exists what, e = thrown what.
Proof.
  unfold Data_of_json, Shadowing.Data_of_json, Shadowing.read_index_range,
    Shadowing.read_key_fraction_range, read_index_range_rv,
    read_key_fraction_range_rv, checkLogic, rethrow.
  repeat match goal with
  | |- context [match ?x with _ => _ end] => destruct x; cbn [mbind res_bind]
  | |- context [if ?x then _ else _] => destruct x; cbn [mbind res_bind]
  end; intros [=]; eauto.
Qed.

(** C9. If the constructor of [Data] returns, the document is an object;
    an [index_range] in it is an array that converts to exactly two sizes
    [start <= end], a [key_fraction_range] in it is an array that converts
    to exactly two numbers of [0, 1] with [start <= end], and the four
    bounds of the result are these numbers. If an [index_range] or a
    [key_fraction_range] is there and is not such an array, the
    constructor throws. *)
Theorem Data_of_json_validates json :
  (forall d,
     Data_of_json json = Ok d ->
     isObject double json = true /\
     (forall v, at_key double "index_range" json = Some v ->
        index_range_ok v (start_index _ d) (end_index _ d)) /\
     (forall v, at_key double "key_fraction_range" json = Some v ->
        key_fraction_range_ok v (start_key_fraction _ d) (end_key_fraction _ d))) /\
  (forall v,
     at_key double "index_range" json = Some v ->
     (forall a b, ~ index_range_ok v a b) ->
     exists what, Data_of_json json = Err (thrown what)) /\
  (forall v,
     at_key double "key_fraction_range" json = Some v ->
     (forall a b, ~ key_fraction_range_ok v a b) ->
     exists what, Data_of_json json = Err (thrown what)).
Proof.
  split_and!.
  - apply Data_of_json_Ok.
  - intros v Hv Hbad. destruct (Data_of_json json) as [d|e] eqn:E.
    + apply Data_of_json_Ok in E as (_ & Hok & _). by destruct (Hbad _ _ (Hok v Hv)).
    + apply Data_of_json_Err in E as [what ->]. eauto.
  - intros v Hv Hbad. destruct (Data_of_json json) as [d|e] eqn:E.
    + apply Data_of_json_Ok in E as (_ & _ & Hok). by destruct (Hbad _ _ (Hok v Hv)).
    + apply Data_of_json_Err in E as [what ->]. eauto.
Qed.

End ShadowingClaims.

Lemma demo_double_le_trans x y z :
  Demo.double_le x y = true -> Demo.double_le y z = true ->
  Demo.double_le x z = true.
Proof.
  unfold Demo.double_le. rewrite !QArith_base.Qle_bool_iff.
  apply QArith_base.Qle_trans.
Qed.

(** C9 on the document
    [{"index_range": [3, 7], "key_fraction_range": [0, 0.5]}]. *)
Lemma Data_of_json_validates_witness :
  exists d,
    Demo.Data_of_json Demo.policy = Ok d /\
    Shadowing.start_index _ d = 3%N /\ Shadowing.end_index _ d = 7%N /\
    Shadowing.isObject _ Demo.policy = true /\
    (forall v, Shadowing.at_key _ "index_range" Demo.policy = Some v ->
       Shadowing.index_range_ok _ (Demo.convert_all Demo.to_size_t) v
         (Shadowing.start_index _ d) (Shadowing.end_index _ d)) /\
    (forall v, Shadowing.at_key _ "key_fraction_range" Demo.policy = Some v ->
       Shadowing.key_fraction_range_ok _ Demo.double_le (Demo.double_of_Z 0)
         (Demo.double_of_Z 1) (Demo.convert_all Demo.to_double) v
         (Shadowing.start_key_fraction _ d) (Shadowing.end_key_fraction _ d)).
Proof.
  eexists. split; [vm_compute; reflexivity |].
  split; [reflexivity |]. split; [reflexivity |].
  apply (proj1 (Data_of_json_validates _ Demo.double_le (Demo.double_of_Z 0)
                  (Demo.double_of_Z 1) (Demo.convert_all Demo.to_size_t)
                  (Demo.convert_all Demo.to_double) demo_double_le_trans
                  Demo.policy)).
  vm_compute. reflexivity.
Defined.

(** A range that runs backwards is refused. *)
Example Data_of_json_backwards :
  Demo.Data_of_json
    (Shadowing.dyn_object _
       [("index_range",
         Shadowing.dyn_array _ [Shadowing.dyn_int64 _ 10; Shadowing.dyn_int64 _ 2])])
  = Err (thrown "shadowing_policy: index_range start > end").
Proof. reflexivity. Qed.

(** * Further properties of the code *)

(** ** The region of a routing prefix *)

Section RoutingPrefix.
#[local] Open Scope string_scope.

Lemma find_Some c n s i :
  Str.find c n s = Some i ->
  exists pre mid rest,
    s = pre ++ mid ++ String c rest /\ String.length pre = n /\
    Str.lacks c mid = true /\ i = n + String.length mid.
Proof.
  revert n i. induction s as [|a s IH]; intros n i; simpl; [done |].
  destruct n as [|n].
  - destruct (Ascii.eqb a c) eqn:Ha.
    + intros [= <-]. apply Ascii.eqb_eq in Ha as ->.
      by exists "", "", s.
    + destruct (Str.find c 0 s) as [j|] eqn:Hj; [| done].
      intros [= <-]. destruct (IH _ _ Hj) as (pre & mid & rest & -> & Hp & Hm & ->).
      destruct pre; [| done].
      exists "", (String a mid), rest. simpl. by rewrite Ha, Hm.
  - destruct (Str.find c n s) as [j|] eqn:Hj; [| done].
    intros [= <-]. destruct (IH _ _ Hj) as (pre & mid & rest & -> & Hp & Hm & ->).
    exists (String a pre), mid, rest. simpl. by rewrite Hp.
Qed.

Lemma getRegionFromRoutingPrefix_found region rest :
  Str.lacks slash region = true ->
  getRegionFromRoutingPrefix ("/" ++ region ++ "/" ++ rest) = Ok region.
Proof.
  intros Hr. unfold getRegionFromRoutingPrefix.
  change (Str.empty ("/" ++ region ++ "/" ++ rest)) with false.
  change (String.get 0 ("/" ++ region ++ "/" ++ rest)) with (Some slash).
  rewrite bool_decide_eq_true_2 by done. cbn [orb negb].
  change (Str.find slash 1 ("/" ++ region ++ "/" ++ rest))
    with (Str.find slash (String.length "/") ("/" ++ region ++ String slash rest)).
  rewrite (find_after _ _ _ _ Hr).
  change (String.length "/" + String.length region) with (S (String.length region)).
  cbn [leb FBI_ASSERT mbind res_bind].
  replace (S (String.length region) - 1) with (String.length region) by lia.
  change (Str.substr 1 (String.length region) ("/" ++ region ++ "/" ++ rest))
    with (Str.substr (String.length "/") (String.length region)
            ("/" ++ region ++ "/" ++ rest)).
  by rewrite substr_append.
Qed.

Lemma getRegionFromRoutingPrefix_cases prefix :
  getRegionFromRoutingPrefix prefix = Ok "" \/
  exists region rest,
    Str.lacks slash region = true /\ prefix = "/" ++ region ++ "/" ++ rest.
Proof.
  unfold getRegionFromRoutingPrefix.
  destruct (Str.empty prefix || _) eqn:Hguard; [by left |].
  apply orb_false_elim in Hguard as [He H0].
  apply negb_false_iff, bool_decide_eq_true in H0.
  destruct (Str.find slash 1 prefix) as [regEnd|] eqn:Hf; [| by left].
  destruct (find_Some _ _ _ _ Hf) as (pre & mid & rest & -> & Hp & Hm & ->).
  destruct pre as [|a [|b pre]]; try done.
  simpl in H0. injection H0 as ->. right. by exists mid, rest.
Qed.

(** X1 (getRegionFromRoutingPrefix): the function never fails; its
    result has no slash; it is the region [r] exactly of a prefix that
    reads "/r/..." with a slash-free [r], and a result that is not empty
    is such a region of the prefix. *)
Theorem getRegionFromRoutingPrefix_spec prefix :
  exists region,
    getRegionFromRoutingPrefix prefix = Ok region /\
    Str.lacks slash region = true /\
    (region <> "" -> exists rest, prefix = "/" ++ region ++ "/" ++ rest) /\
    (forall r rest, Str.lacks slash r = true ->
       prefix = "/" ++ r ++ "/" ++ rest -> region = r).
Proof.
  destruct (getRegionFromRoutingPrefix_cases prefix)
    as [E | (region & rest & Hr & Hp)].
  - exists "". split_and!; [done | done | done |].
    intros r rest Hr ->. rewrite getRegionFromRoutingPrefix_found in E by done.
    congruence.
  - exists region. split_and!.
    + rewrite Hp. by apply getRegionFromRoutingPrefix_found.
    + done.
    + by exists rest.
    + intros r rest' Hr' Hp'.
      pose proof (getRegionFromRoutingPrefix_found region rest Hr) as E.
      rewrite <- Hp, Hp', getRegionFromRoutingPrefix_found in E by done.
      congruence.
Qed.

(** X2 (getRegionFromRoutingPrefix, proxy_set_default_route): on a route
    that [proxy_set_default_route] accepts, the region it stores in
    [default_region] is the region [getRegionFromRoutingPrefix] reads
    from the route as given and from the route as stored. *)
Theorem default_region_is_region_of_prefix p str p' :
  regex_match str routeRegex = true ->
  proxy_set_default_route p str = Ok p' ->
  getRegionFromRoutingPrefix str = Ok (default_region p') /\
  getRegionFromRoutingPrefix (default_route p') = Ok (default_region p').
Proof.
  intros Hm. apply routeRegex_match_iff in Hm as (region & cluster & Hr & Hc & Hs).
  rewrite (proxy_set_default_route_accepts p region cluster str) by done.
  intros [= <-]. cbn. destruct Hr as [_ Hr]. split.
  - destruct Hs as [-> | ->]; by apply getRegionFromRoutingPrefix_found.
  - destruct p; cbn. by apply getRegionFromRoutingPrefix_found.
Qed.

(** X2 on the route [/prn/cluster01] of a new worker. *)
Lemma default_region_is_region_of_prefix_witness :
  getRegionFromRoutingPrefix "/prn/cluster01"
  = Ok (default_region (Demo.new_worker))%string.
Proof.
  refine (proj1 (default_region_is_region_of_prefix
                   Demo.new_worker "/prn/cluster01" Demo.new_worker _ _));
    reflexivity.
Defined.

(** X3 (proxy_set_default_route): the route as stored is a fixed point.
    After a route was accepted, setting the stored [default_route] again
    changes nothing, and on any other worker it gives the same route,
    region and cluster. *)
Theorem proxy_set_default_route_idempotent p str p' :
  regex_match str routeRegex = true ->
  proxy_set_default_route p str = Ok p' ->
  proxy_set_default_route p' (default_route p') = Ok p' /\
  forall q, exists q',
    proxy_set_default_route q (default_route p') = Ok q' /\
    default_route q' = default_route p' /\
    default_region q' = default_region p' /\
    default_cluster q' = default_cluster p'.
Proof.
  intros Hm. apply routeRegex_match_iff in Hm as (region & cluster & Hr & Hc & Hs).
  rewrite (proxy_set_default_route_accepts p region cluster str) by done.
  intros [= <-].
  assert (forall q,
    proxy_set_default_route q (default_route
      (with_default_cluster cluster (with_default_region region
         (with_default_route ("/" ++ region ++ "/" ++ cluster ++ "/") p))))
    = Ok (with_default_cluster cluster (with_default_region region
         (with_default_route ("/" ++ region ++ "/" ++ cluster ++ "/") q)))) as Hq.
  { intros q. apply proxy_set_default_route_accepts; [done | done |].
    right. by destruct p. }
  split.
  - rewrite Hq. by destruct p.
  - intros q. eexists. split; [apply Hq |]. by destruct p, q.
Qed.

(** X3 on the same route. *)
Lemma proxy_set_default_route_idempotent_witness :
  proxy_set_default_route Demo.new_worker (default_route Demo.new_worker)
  = Ok Demo.new_worker.
Proof.
  refine (proj1 (proxy_set_default_route_idempotent
                   Demo.new_worker "/prn/cluster01" Demo.new_worker _ _));
    reflexivity.
Defined.

End RoutingPrefix.

(** ** References, counters and gauges of the request engine *)

Section EngineBooks.
Context {C : Collaborators}.
Implicit Types (h : gmap nat proxy_request_t) (q : proxy_request_t) (w : world).

(** X4 (proxy_request_incref, proxy_request_decref): dropping a
    reference just taken gives back the world as it was; no callback
    runs, and nothing is freed. *)
Theorem proxy_request_incref_decref a w w1 :
  proxy_request_incref a w = Ok w1 ->
  proxy_request_decref a w1 = Ok w.
Proof.
  intros (q & Hq & Hpos & ->)%proxy_request_incref_Ok.
  rewrite (proxy_request_decref_shared a _ (with_refcount (_refcount q + 1) q)).
  - f_equal. destruct w as [p h e c], q. unfold store, with_refcount in *.
    cbn in *. by rewrite insert_insert_eq, Z.add_simpl_r, insert_id.
  - cbn. by rewrite lookup_insert_eq.
  - cbn. lia.
Qed.

(** *** Counting lemmas *)

Lemma processing_count_insert h a q :
  processing_count (<[a := q]> h)
  = processing_count (delete a h) + (if processing_ q then 1 else 0).
Proof.
  unfold processing_count. rewrite map_filter_insert. cbn [snd].
  destruct (processing_ q) eqn:Hq.
  - rewrite decide_True by done.
    rewrite <- insert_delete_eq, <- map_filter_delete.
    rewrite map_size_insert_None; [lia |].
    apply map_lookup_filter_None. left. apply lookup_delete_eq.
  - rewrite decide_False; [lia | simpl; congruence].
Qed.

Lemma processing_count_lookup h a q :
  h !! a = Some q ->
  processing_count h
  = processing_count (delete a h) + (if processing_ q then 1 else 0).
Proof.
  intros Hq. rewrite <- (insert_id h a q) at 1 by done.
  apply processing_count_insert.
Qed.

Lemma size_lookup h a q : h !! a = Some q -> size h = S (size (delete a h)).
Proof.
  intros Hq. rewrite <- (insert_id h a q) at 1 by done.
  rewrite <- insert_delete_eq. apply map_size_insert_None, lookup_delete_eq.
Qed.

Lemma size_update h a q q' : h !! a = Some q -> size (<[a := q']> h) = size h.
Proof.
  intros Hq. rewrite (size_lookup h a q Hq), <- insert_delete_eq.
  apply map_size_insert_None, lookup_delete_eq.
Qed.

Lemma stat_get_stats_incr g s n st :
  stat_get g (stats_incr s n st)
  = if decide (g = s) then (stat_get g st + n)%Z else stat_get g st.
Proof.
  unfold stats_incr, stat_get at 1. rewrite lookup_insert.
  destruct (decide (g = s)) as [->|]; [by rewrite decide_True |].
  by rewrite decide_False.
Qed.

Lemma stat_get_stats_decr g s n st :
  stat_get g (stats_decr s n st)
  = if decide (g = s) then (stat_get g st - n)%Z else stat_get g st.
Proof.
  unfold stats_decr, stat_get at 1. rewrite lookup_insert.
  destruct (decide (g = s)) as [->|]; [by rewrite decide_True |].
  by rewrite decide_False.
Qed.

Lemma gauges_stat_incr s n p :
  s <> proxy_reqs_processing_stat -> s <> proxy_reqs_waiting_stat ->
  s <> proxy_request_num_outstanding_stat ->
  gauges (stat_incr s n p) = gauges p.
Proof.
  intros. unfold gauges, stat_incr. cbn [stats with_stats].
  rewrite !stat_get_stats_incr, !decide_False by done. done.
Qed.

(** *** What each operation does to the gauges *)

Lemma continueSendReply_gauges a w w' :
  continueSendReply a w = Ok w' -> gauges (proxy w') = gauges (proxy w).
Proof.
  unfold continueSendReply. intros Hc. res_inv.
  cbn [reply with_reply_state proxy store] in Hc.
  destruct (reply _); [| done].
  destruct (mc_res_is_err _), (sync (opts (proxy w))); res_inv;
    cbn [on_proxy proxy negb enqueueReply_ store];
    by rewrite !gauges_stat_incr.
Qed.

Lemma sendReply_gauges a m w w' :
  sendReply a m w = Ok w' -> gauges (proxy w') = gauges (proxy w).
Proof.
  unfold sendReply. intros Hs. res_inv.
  destruct (negb _); [by res_inv |].
  destruct (_ =? _)%Z; [| by res_inv].
  by apply continueSendReply_gauges in Hs.
Qed.

Lemma cmd_stat_incr_gauges o p : gauges (cmd_stat_incr o p) = gauges p.
Proof. destruct o; cbn [cmd_stat_incr]; by rewrite !gauges_stat_incr. Qed.

Lemma processRequest_gauges a w w' :
  processRequest a w = Ok w' ->
  gauges (proxy w')
  = ((gauges (proxy w)).1.1 + 1, (gauges (proxy w)).1.2, (gauges (proxy w)).2)%Z.
Proof.
  unfold processRequest. intros Hp. res_inv. rename H1 into Hr.
  cbn [on_proxy proxy]. rewrite !gauges_stat_incr by done.
  assert (gauges (proxy x1)
          = gauges (cmd_stat_incr (op (orig_req x))
                      (stat_incr proxy_reqs_processing_stat 1
                         (with_numRequestsProcessing
                            (numRequestsProcessing_ (proxy w) + 1) (proxy w))))) as ->.
  { revert Hr. unfold routeHandlesProcessRequest. intros Hr. res_inv.
    destruct (bool_decide _); [by apply sendReply_gauges in Hr |].
    destruct (bool_decide _).
    { destruct (config_ _); [by apply sendReply_gauges in Hr | done]. }
    res_inv.
    match goal with
    | H : proxy_request_incref _ _ = Ok _ |- _ =>
        apply proxy_request_incref_Ok in H as (? & ? & ? & ->)
    end. done. }
  rewrite cmd_stat_incr_gauges. unfold gauges, stat_incr.
  cbn [stats with_stats with_numRequestsProcessing fst snd].
  rewrite !stat_get_stats_incr. by rewrite decide_True, !decide_False.
Qed.

(** *** The books are kept by every operation *)

Ltac stat_cases :=
  rewrite ?stat_get_stats_incr, ?stat_get_stats_decr;
  repeat case_decide; try done.

Ltac books_solve :=
  split; [try done; try lia |];
  repeat match goal with
         | |- (_, _) = (_, _) => apply pair_equal_spec; split
         end; try done; try lia.

Lemma books_kept_trans w1 w2 w3 :
  books_kept w1 w2 -> books_kept w2 w3 -> books_kept w1 w3.
Proof. intros [] []. split; congruence. Qed.

Lemma gauges_inv p p' :
  gauges p' = gauges p ->
  stat_get proxy_reqs_processing_stat (stats p')
  = stat_get proxy_reqs_processing_stat (stats p) /\
  stat_get proxy_reqs_waiting_stat (stats p')
  = stat_get proxy_reqs_waiting_stat (stats p) /\
  stat_get proxy_request_num_outstanding_stat (stats p')
  = stat_get proxy_request_num_outstanding_stat (stats p).
Proof. unfold gauges. intros [= -> -> ->]. done. Qed.

Lemma local_step_books a w w' :
  local_step a w w' -> gauges (proxy w') = gauges (proxy w) -> books_kept w w'.
Proof.
  intros (q & q' & Hq & Hh & _ & _ & Hp & _ & _ & _ & Hn & Hw & _)
         (Hg1 & Hg2 & Hg3)%gauges_inv.
  unfold books_kept, counter_drift, gauge_drift.
  rewrite Hg1, Hg2, Hg3, Hn, Hw, Hh, (size_update _ _ _ _ Hq).
  by rewrite processing_count_insert, (processing_count_lookup _ _ _ Hq), Hp.
Qed.

Lemma store_books a w q q' :
  heap w !! a = Some q -> processing_ q' = processing_ q ->
  books_kept w (store a q' w).
Proof.
  intros Hq Hp. unfold books_kept, counter_drift, gauge_drift. cbn [proxy heap store].
  rewrite (size_update _ _ _ _ Hq).
  by rewrite processing_count_insert, (processing_count_lookup _ _ _ Hq), Hp.
Qed.

Lemma processRequest_books a w w' :
  processRequest a w = Ok w' -> books_kept w w'.
Proof.
  intros Hp. pose proof (processRequest_gauges _ _ _ Hp) as Hg.
  apply processRequest_step in Hp as (q & Hq & Hnp & Hstep & Hproc).
  destruct Hstep as (q1 & q' & Hq1 & Hh & _ & _ & _ & _ & _ & Hn & Hw & _).
  assert (q1 = q) as -> by congruence.
  assert (processing_ q' = true) as Hq'.
  { apply Hproc. by rewrite Hh, lookup_insert_eq. }
  unfold gauges in Hg. cbn [fst snd] in Hg. injection Hg as Hg1 Hg2 Hg3.
  unfold books_kept, counter_drift, gauge_drift.
  rewrite Hg1, Hg2, Hg3, Hn, Hw, Hh, (size_update _ _ _ _ Hq).
  rewrite processing_count_insert, (processing_count_lookup _ _ _ Hq), Hnp, Hq'.
  books_solve.
Qed.

Lemma proxy_request_decref_with_books f a w w' :
  (forall w1 w2, f w1 = Ok w2 -> books_kept w1 w2) ->
  proxy_request_decref_with f a w = Ok w' -> books_kept w w'.
Proof.
  intros Hf (q & Hq & Hpos & Hcases)%proxy_request_decref_with_Ok.
  pose proof (size_lookup _ _ _ Hq) as Hsize.
  pose proof (processing_count_lookup _ _ _ Hq) as Hcount.
  destruct Hcases as [(Hgt & Hh & Hp) | [(Hone & Hnp & Hh & Hp) |
                      (Hone & Hproc & w1 & w2 & Hh1 & Hp1 & Hfw & Hh & Hp)]].
  - unfold books_kept, counter_drift, gauge_drift.
    rewrite Hh, Hp, (size_update _ _ _ _ Hq), processing_count_insert, Hcount.
    done.
  - unfold books_kept, counter_drift, gauge_drift.
    rewrite Hh, Hp, Hsize, Hcount, Hnp. unfold stat_decr.
    cbn [stats with_stats numRequestsProcessing_ waitingRequests_].
    stat_cases.
    books_solve.
  - destruct (Hf _ _ Hfw) as [Hc Hg]. revert Hc Hg.
    unfold books_kept, counter_drift, gauge_drift.
    rewrite Hh, Hp, Hh1, Hp1, Hsize, Hcount, Hproc. unfold stat_decr.
    cbn [stats with_stats numRequestsProcessing_ waitingRequests_
         with_numRequestsProcessing].
    stat_cases.
    intros Hc [= Hg1 Hg2 Hg3]. books_solve.
Qed.

Lemma pump_fuel_books n : forall w w',
  pump_fuel n w = Ok w' -> books_kept w w'.
Proof.
  induction n as [|n IH]; intros w w'.
  { simpl. destruct (_ && _); [done |]. by intros [= <-]. }
  rewrite pump_fuel_S.
  destruct (_ <? _)%Z; cbn [andb]; [| by intros [= <-]].
  destruct (waitingRequests_ (proxy w)) as [|a rest] eqn:Hw; [by intros [= <-] |].
  rewrite bool_decide_eq_false_2 by done. cbn [negb]. intros Hp.
  apply bind_Ok in Hp as (w1 & Hproc & Hp).
  apply bind_Ok in Hp as (w2 & Hdec & Hp).
  set (w0 := on_proxy (stat_decr proxy_reqs_waiting_stat 1)
               (on_proxy (with_waitingRequests rest) w)) in *.
  assert (books_kept w w0) as H0.
  { unfold books_kept, counter_drift, gauge_drift. subst w0.
    cbn [proxy heap on_proxy]. unfold stat_decr.
    cbn [stats with_stats numRequestsProcessing_ waitingRequests_ with_waitingRequests].
    stat_cases.
    rewrite Hw. cbn [length]. books_solve. }
  eapply books_kept_trans; [exact H0 |].
  eapply books_kept_trans; [by eapply processRequest_books |].
  eapply books_kept_trans; [by eapply proxy_request_decref_with_books; eauto |].
  by apply IH.
Qed.

Lemma proxy_request_decref_books a w w' :
  proxy_request_decref a w = Ok w' -> books_kept w w'.
Proof.
  apply proxy_request_decref_with_books. intros ? ?. apply pump_fuel_books.
Qed.

Lemma step_books e w w' : step e w = Ok w' -> books_kept w w'.
Proof.
  destruct e as [a req rc sid | a | a out | a | a | a d | a | a]; cbn [step].
  - intros (q & Hnone & _ & Hh & Hp & Hq & _)%proxy_request_new_Ok.
    unfold books_kept, counter_drift, gauge_drift.
    rewrite Hh, Hp, processing_count_insert, delete_id, map_size_insert_None by done.
    rewrite Hq. cbn [processing_]. unfold stat_incr.
    cbn [stats with_stats numRequestsProcessing_ waitingRequests_].
    stat_cases.
    books_solve.
  - intros (q & Hq & [(_ & _ & ->) | (_ & Hp)])%dispatchRequest_Ok;
      [| by eapply processRequest_books].
    eapply (books_kept_trans _ (store a (with_refcount (_refcount q + 1) q) w));
      [by apply (store_books a w q) |].
    unfold books_kept, counter_drift, gauge_drift.
    cbn [proxy heap on_proxy store]. unfold stat_incr.
    cbn [stats with_stats numRequestsProcessing_ waitingRequests_ with_waitingRequests].
    stat_cases.
    rewrite length_app. cbn [length]. books_solve.
  - intros (tasks & q & w1 & _ & Hq & _ & Hs & Hd)%fiber_task_Ok.
    eapply books_kept_trans; [| by eapply proxy_request_decref_books].
    pose proof (sendReply_gauges _ _ _ _ Hs) as Hg.
    apply sendReply_local in Hs. by apply local_step_books in Hs.
  - intros (q & Hq & _ & ->)%proxy_request_incref_Ok. by apply (store_books a w q).
  - apply proxy_request_decref_books.
  - intros Hs. res_inv. by eapply store_books.
  - intros Hc. pose proof (continueSendReply_gauges _ _ _ Hc).
    apply continueSendReply_local in Hc. by eapply local_step_books.
  - unfold proxy_on_continue_reply_error. intros Hc. res_inv.
    destruct (_ && _); [| by res_inv].
    pose proof (continueSendReply_gauges _ _ _ Hc).
    apply continueSendReply_local in Hc. by eapply local_step_books.
Qed.

Lemma run_books evs : forall w w', run evs w = Ok w' -> books_kept w w'.
Proof.
  induction evs as [|e evs IH]; intros w w'; cbn [run].
  - by intros [= <-].
  - intros Hr. res_inv. eapply books_kept_trans; [by eapply step_books | by apply IH].
Qed.

(** *** A new worker *)

Lemma proxy_t_new_books opts_ p :
  proxy_t_new opts_ = Ok p ->
  numRequestsProcessing_ p = 0%Z /\ stats p = ∅ /\ waitingRequests_ p = [].
Proof.
  intros (route & region & cluster & ->)%proxy_set_default_route_frame. done.
Qed.

Lemma world_new_books p :
  numRequestsProcessing_ p = 0%Z -> stats p = ∅ -> waitingRequests_ p = [] ->
  counter_drift (world_new p) = 0%Z /\ gauge_drift (world_new p) = (0, 0, 0)%Z.
Proof.
  intros Hn Hs Hw. unfold counter_drift, gauge_drift, processing_count.
  cbn [world_new proxy heap]. rewrite Hn, Hs, Hw, map_filter_empty, map_size_empty.
  unfold stat_get. by rewrite !lookup_empty.
Qed.

Lemma fresh_world_books M :
  counter_drift (Demo.fresh_world M) = 0%Z /\
  gauge_drift (Demo.fresh_world M) = (0, 0, 0)%Z.
Proof.
  unfold Demo.fresh_world.
  destruct (proxy_t_new _) as [p|] eqn:Hp; [| by apply world_new_books].
  apply proxy_t_new_books in Hp as (Hn & Hs & Hw). by apply world_new_books.
Qed.

(** X5 (processRequest, ~proxy_request_t, pump, dispatchRequest): the
    counter [numRequestsProcessing_] is the number of live requests whose
    [processing_] flag is set. Every event of the engine keeps the two
    equal, so the counter never falls below zero. *)
Theorem processing_counter_exact evs w w' :
  numRequestsProcessing_ (proxy w) = Z.of_nat (processing_count (heap w)) ->
  run evs w = Ok w' ->
  numRequestsProcessing_ (proxy w') = Z.of_nat (processing_count (heap w')) /\
  (0 <= numRequestsProcessing_ (proxy w'))%Z.
Proof.
  intros H0 [Hc _]%run_books. unfold counter_drift in Hc. lia.
Qed.

(** X6 (proxy_request_t, ~proxy_request_t, processRequest,
    dispatchRequest, pump): the three gauges among the statistics are
    exact. If [proxy_reqs_processing_stat] shows the counter of requests
    in process, [proxy_reqs_waiting_stat] the length of the queue and
    [proxy_request_num_outstanding_stat] the number of live requests, they
    still do after any events of the engine. *)
Theorem gauges_exact evs w w' :
  gauge_drift w = (0, 0, 0)%Z ->
  run evs w = Ok w' ->
  stat_get proxy_reqs_processing_stat (stats (proxy w'))
  = numRequestsProcessing_ (proxy w') /\
  stat_get proxy_reqs_waiting_stat (stats (proxy w'))
  = Z.of_nat (length (waitingRequests_ (proxy w'))) /\
  stat_get proxy_request_num_outstanding_stat (stats (proxy w'))
  = Z.of_nat (size (heap w')).
Proof.
  intros H0 [_ Hg]%run_books. rewrite H0 in Hg. unfold gauge_drift in Hg.
  injection Hg as H1 H2 H3. lia.
Qed.

End EngineBooks.

(** X4 on the worker with one [set] in flight. *)
Lemma proxy_request_incref_decref_witness :
  @proxy_request_decref Demo.collaborators 1
    (Demo.the_world (proxy_request_incref 1 Demo.set_in_flight))
  = Ok Demo.set_in_flight.
Proof.
  apply (@proxy_request_incref_decref Demo.collaborators 1 Demo.set_in_flight).
  apply Ok_the_world. vm_compute. reflexivity.
Defined.

(** X5 on a new worker with limit 1 that admits a [set] and then a
    [version]. *)
Lemma processing_counter_exact_witness :
  let w' := Demo.the_world (@run Demo.collaborators Demo.set_then_version
                               (Demo.fresh_world 1)) in
  numRequestsProcessing_ (proxy w') = Z.of_nat (processing_count (heap w')) /\
  (0 <= numRequestsProcessing_ (proxy w'))%Z.
Proof.
  apply (@processing_counter_exact Demo.collaborators Demo.set_then_version
           (Demo.fresh_world 1)).
  - pose proof (proj1 (fresh_world_books 1)) as H. unfold counter_drift in H. lia.
  - apply Ok_the_world. vm_compute. reflexivity.
Defined.

(** X6 on the same run. *)
Lemma gauges_exact_witness :
  let w' := Demo.the_world (@run Demo.collaborators Demo.set_then_version
                               (Demo.fresh_world 1)) in
  stat_get proxy_reqs_processing_stat (stats (proxy w'))
  = numRequestsProcessing_ (proxy w') /\
  stat_get proxy_reqs_waiting_stat (stats (proxy w'))
  = Z.of_nat (length (waitingRequests_ (proxy w'))) /\
  stat_get proxy_request_num_outstanding_stat (stats (proxy w'))
  = Z.of_nat (size (heap w')).
Proof.
  apply (@gauges_exact Demo.collaborators Demo.set_then_version
           (Demo.fresh_world 1)).
  - apply fresh_world_books.
  - apply Ok_the_world. vm_compute. reflexivity.
Defined.

(** ** Admission and progress *)

Section EngineFlow.
Context {C : Collaborators}.

Lemma rateLimited_no_limit p q :
  proxy_max_inflight_requests (opts p) = 0%Z -> rateLimited p q = false.
Proof. unfold rateLimited. by intros ->. Qed.

Lemma step_no_limit e w w' :
  proxy_max_inflight_requests (opts (proxy w)) = 0%Z ->
  waitingRequests_ (proxy w) = [] ->
  step e w = Ok w' ->
  waitingRequests_ (proxy w') = [].
Proof.
  intros HM Hw.
  destruct e as [a req rc sid | a | a out | a | a | a d | a | a]; cbn [step].
  - intros (q & _ & _ & _ & Hp & _)%proxy_request_new_Ok. by rewrite Hp.
  - intros (q & Hq & [(Hr & _) | (_ & Hp)])%dispatchRequest_Ok.
    + by rewrite rateLimited_no_limit in Hr.
    + apply processRequest_waiting in Hp. congruence.
  - intros (tasks & q & w1 & _ & _ & _ & Hs & Hd)%fiber_task_Ok.
    apply sendReply_local in Hs
      as (? & ? & _ & _ & _ & _ & _ & _ & _ & _ & _ & Hw1 & _).
    apply proxy_request_decref_engine_le in Hd as (_ & _ & [k Hk] & _).
    rewrite Hk, Hw1. cbn. rewrite Hw. by destruct k.
  - by intros (q & _ & _ & ->)%proxy_request_incref_Ok.
  - intros (_ & _ & [k Hk] & _)%proxy_request_decref_engine_le.
    rewrite Hk, Hw. by destruct k.
  - intros Hs. by res_inv.
  - intros (? & ? & _ & _ & _ & _ & _ & _ & _ & _ & _ & Hw1 & _)%continueSendReply_local.
    congruence.
  - unfold proxy_on_continue_reply_error. intros Hc. res_inv.
    destruct (_ && _); [| by res_inv].
    apply continueSendReply_local in Hc
      as (? & ? & _ & _ & _ & _ & _ & _ & _ & _ & _ & Hw1 & _).
    congruence.
Qed.

(** X7 (rateLimited, dispatchRequest, pump): with
    [proxy_max_inflight_requests] at 0 the limit is off for good. On a
    worker whose queue is empty no event ever puts a request on
    [waitingRequests_]. *)
Theorem no_limit_never_queues evs : forall w w',
  proxy_max_inflight_requests (opts (proxy w)) = 0%Z ->
  waitingRequests_ (proxy w) = [] ->
  run evs w = Ok w' ->
  waitingRequests_ (proxy w') = [].
Proof.
  induction evs as [|e evs IH]; intros w w' HM Hw; cbn [run].
  - by intros [= <-].
  - intros Hr. apply bind_Ok in Hr as (w1 & Hs & Hr).
    apply (IH w1 w'); [| by eapply step_no_limit | done].
    apply step_proxy_core, proxy_core_opts in Hs. by rewrite Hs.
Qed.

(** X8 (dispatchRequest, rateLimited): a [stats], [version] or
    [get_service_info] request is never queued. Whatever the load,
    [dispatchRequest] leaves the queue as it is and the request is in
    process when it returns. *)
Theorem bypass_dispatched_at_once a w w' q :
  heap w !! a = Some q ->
  bypass_op (op (orig_req q)) = true ->
  dispatchRequest a w = Ok w' ->
  waitingRequests_ (proxy w') = waitingRequests_ (proxy w) /\
  numRequestsProcessing_ (proxy w') = (numRequestsProcessing_ (proxy w) + 1)%Z /\
  exists q', heap w' !! a = Some q' /\ processing_ q' = true.
Proof.
  intros Hq Hb (q0 & Hq0 & [(Hr & _) | (_ & Hp)])%dispatchRequest_Ok.
  { assert (q0 = q) as -> by congruence.
    unfold rateLimited in Hr. unfold bypass_op in Hb. rewrite Hb in Hr.
    by destruct (_ =? _)%Z. }
  apply processRequest_step in Hp as (q1 & _ & _ & Hstep & Hproc).
  destruct Hstep as (q2 & q' & _ & Hh & _ & _ & _ & _ & _ & Hn & Hw & _).
  split; [done |]. split; [done |].
  exists q'. split; [by rewrite Hh, lookup_insert_eq |].
  apply Hproc. by rewrite Hh, lookup_insert_eq.
Qed.

Lemma proxy_request_decref_last a w q :
  heap w !! a = Some q -> _refcount q = 1%Z -> processing_ q = true ->
  exists w1,
    heap w1 = delete a (heap w) /\
    proxy w1 = stat_decr proxy_reqs_processing_stat 1
                 (with_numRequestsProcessing
                    (numRequestsProcessing_ (proxy w) - 1) (proxy w)) /\
    enqueued w1
    = enqueued w ++
      (if sync (opts (proxy w)) && bool_decide (reply_state q = REPLY_STATE_REPLIED)
       then [(a, reply q)] else []) /\
    completed w1 = completed w ++ (if reqComplete_ q then [a] else []) /\
    proxy_request_decref a w
    = w2 ← pump w1; Ok (on_proxy (stat_decr proxy_request_num_outstanding_stat 1) w2).
Proof.
  intros Hq H1 Hp.
  unfold proxy_request_decref, proxy_request_decref_with, deref. rewrite Hq.
  cbn [mbind res_bind]. rewrite H1. cbn [Z.ltb Z.compare FBI_ASSERT Z.eqb Pos.eqb].
  cbn [mbind res_bind _refcount with_refcount Z.sub Z.add Z.opp Z.pos_sub Z.ltb Z.compare].
  unfold proxy_request_delete, deref. cbn [heap store].
  rewrite lookup_insert_eq. cbn [mbind res_bind processing_ with_refcount]. rewrite Hp.
  eexists. split_and!; [| | | | reflexivity].
  - cbn. rewrite delete_insert_eq.
    by destruct (sync _ && _), (reqComplete_ q).
  - cbn. by destruct (sync _ && _), (reqComplete_ q).
  - cbn. destruct (sync _ && _), (reqComplete_ q); cbn; by rewrite ?app_nil_r.
  - cbn. destruct (sync _ && _), (reqComplete_ q); cbn; by rewrite ?app_nil_r.
Qed.

(** X9 (~proxy_request_t, proxy_request_decref, pump): a request that
    completes hands its slot to the queue. When the last reference of a
    request in process is dropped while requests wait and the counter is
    not above the limit, the call returns with the request gone and the
    head of the queue in process: the first [k >= 1] waiting requests have
    been taken off the queue, in order, and the counter has lost one and
    gained [k]. *)
Theorem completion_admits_next a w q b rest :
  heap w !! a = Some q -> _refcount q = 1%Z -> processing_ q = true ->
  queue_ready w -> waitingRequests_ (proxy w) = b :: rest ->
  (numRequestsProcessing_ (proxy w)
     <= proxy_max_inflight_requests (opts (proxy w)))%Z ->
  exists w' k qb,
    proxy_request_decref a w = Ok w' /\
    heap w' !! a = None /\
    1 <= k /\
    waitingRequests_ (proxy w') = drop k (b :: rest) /\
    fiberManager (proxy w') = fiberManager (proxy w) ++ take k (b :: rest) /\
    numRequestsProcessing_ (proxy w')
    = (numRequestsProcessing_ (proxy w) - 1 + Z.of_nat k)%Z /\
    heap w' !! b = Some qb /\ processing_ qb = true.
Proof.
  intros Hq H1 Hp [Hnd Hready] Hw HM.
  destruct (proxy_request_decref_last a w q Hq H1 Hp)
    as (w1 & Hh1 & Hp1 & _ & _ & ->).
  assert (a ∉ b :: rest) as Hna.
  { rewrite <- Hw. intros (qa & Hqa & Hpa & _)%Hready. congruence. }
  assert (waitingRequests_ (proxy w1) = b :: rest) as Hw1 by (by rewrite Hp1).
  destruct (pump_fifo_aux (b :: rest) w1 Hw1)
    as (k & w2 & -> & Hk & Hwk & Hfk & Hnk & Hok & Hstop & Hin & Hout).
  { split; [by rewrite Hw1, <- Hw |]. rewrite Hw1. intros c Hc.
    destruct (Hready c) as (qc & Hqc & ?); [by rewrite Hw |].
    exists qc. split; [| done]. rewrite Hh1, lookup_delete_ne; [done |].
    intros ->. done. }
  assert (1 <= k) as Hk1.
  { destruct k; [| lia]. exfalso. destruct Hstop as [Hs | Hs]; [done |].
    rewrite Hnk, Hp1 in Hs. cbn in Hs. lia. }
  destruct (Hready b) as (qb & Hqb & _); [rewrite Hw; by left |].
  exists (on_proxy (stat_decr proxy_request_num_outstanding_stat 1) w2), k,
    (with_processing true qb).
  cbn [mbind res_bind on_proxy heap proxy stat_decr with_stats waitingRequests_
       fiberManager numRequestsProcessing_].
  split_and!; try done.
  - rewrite Hout, Hh1; [apply lookup_delete_eq |].
    intros Ha%subseteq_take. done.
  - rewrite Hfk, Hp1. done.
  - rewrite Hnk, Hp1. done.
  - apply Hin.
    + destruct k; [lia |]. by left.
    + rewrite Hh1, lookup_delete_ne; [done |]. intros ->. apply Hna. by left.
Qed.

End EngineFlow.

(** X8 on a worker with two requests waiting: the [version] request
    goes past them. *)
Lemma bypass_dispatched_at_once_witness :
  let w := Scenes.version_arrives in
  let w' := Demo.the_world (@dispatchRequest Demo.collaborators 5 w) in
  waitingRequests_ (proxy w') = waitingRequests_ (proxy w) /\
  numRequestsProcessing_ (proxy w') = (numRequestsProcessing_ (proxy w) + 1)%Z /\
  exists q', heap w' !! 5 = Some q' /\ processing_ q' = true.
Proof.
  apply (@bypass_dispatched_at_once Demo.collaborators 5 Scenes.version_arrives
           (Demo.the_world (@dispatchRequest Demo.collaborators 5
                              Scenes.version_arrives))
           Scenes.the_version).
  - apply lookup_insert_eq.
  - reflexivity.
  - apply Ok_the_world. vm_compute. reflexivity.
Defined.

(** X9 on the worker with limit 3, two requests in flight and two
    waiting: request 1 ends. *)
Lemma completion_admits_next_witness :
  let w := Demo.two_waiting in
  exists w' k qb,
    @proxy_request_decref Demo.collaborators 1 w = Ok w' /\
    heap w' !! 1 = None /\
    1 <= k /\
    waitingRequests_ (proxy w') = drop k [3; 4] /\
    fiberManager (proxy w') = fiberManager (proxy w) ++ take k [3; 4] /\
    numRequestsProcessing_ (proxy w')
    = (numRequestsProcessing_ (proxy w) - 1 + Z.of_nat k)%Z /\
    heap w' !! 3 = Some qb /\ processing_ qb = true.
Proof.
  refine (@completion_admits_next Demo.collaborators 1 Demo.two_waiting
            (mk_preq (Demo.request mc_op_set "a") None REPLY_STATE_NO_REPLY 0 0 1 0
               false true true) 3 [4] _ _ _ _ _ _).
  - vm_compute. reflexivity.
  - reflexivity.
  - reflexivity.
  - split.
    + apply (bool_decide_unpack (NoDup [3; 4])). vm_compute. exact I.
    + intros c Hc. cbn in Hc.
      apply elem_of_cons in Hc as [-> | Hc];
        [| apply elem_of_cons in Hc as [-> | Hc]; [| by apply elem_of_nil in Hc]].
      * eexists. split; [vm_compute; reflexivity |]. split_and!; [done | done | done].
      * eexists. split; [vm_compute; reflexivity |]. split_and!; [done | done | done].
  - reflexivity.
  - vm_compute. discriminate.
Defined.

(** X7 on a new worker without limit. *)
Lemma no_limit_never_queues_witness :
  waitingRequests_
    (proxy (Demo.the_world (@run Demo.collaborators Demo.set_then_version
                              (Demo.fresh_world 0)))) = [].
Proof.
  apply (@no_limit_never_queues Demo.collaborators Demo.set_then_version
           (Demo.fresh_world 0)).
  - reflexivity.
  - unfold Demo.fresh_world. destruct (proxy_t_new _) as [p|] eqn:Hp; [| done].
    apply proxy_t_new_books in Hp as (_ & _ & Hw). exact Hw.
  - apply Ok_the_world. vm_compute. reflexivity.
Defined.

(** ** What the front end is handed *)

Section ReplyDelivery.
Context {C : Collaborators}.

Lemma proxy_request_decref_last_unprocessed a w q :
  heap w !! a = Some q -> _refcount q = 1%Z -> processing_ q = false ->
  exists w',
    proxy_request_decref a w = Ok w' /\
    heap w' = delete a (heap w) /\
    enqueued w'
    = enqueued w ++
      (if sync (opts (proxy w)) && bool_decide (reply_state q = REPLY_STATE_REPLIED)
       then [(a, reply q)] else []) /\
    completed w' = completed w ++ (if reqComplete_ q then [a] else []).
Proof.
  intros Hq H1 Hp.
  unfold proxy_request_decref, proxy_request_decref_with, deref. rewrite Hq.
  cbn [mbind res_bind]. rewrite H1. cbn [Z.ltb Z.compare FBI_ASSERT Z.eqb Pos.eqb].
  cbn [mbind res_bind _refcount with_refcount Z.sub Z.add Z.opp Z.pos_sub Z.ltb Z.compare].
  unfold proxy_request_delete, deref. cbn [heap store].
  rewrite lookup_insert_eq. cbn [mbind res_bind processing_ with_refcount].
  rewrite Hp.
  eexists. split; [reflexivity |]. cbn. rewrite delete_insert_eq.
  destruct (sync _ && _), (reqComplete_ q); cbn; rewrite ?app_nil_r;
    split_and!; done.
Qed.

(** A request that goes to a routing task hands nothing to the front end. *)
Lemma processRequest_fiber_quiet a w q w1 :
  heap w !! a = Some q -> processing_ q = false ->
  answered_inline (op (orig_req q)) = false -> (0 < _refcount q)%Z ->
  processRequest a w = Ok w1 ->
  enqueued w1 = enqueued w /\ completed w1 = completed w.
Proof.
  intros Hq Hp Hin Hpos. unfold answered_inline in Hin.
  apply orb_false_elim in Hin as [H1 H2].
  unfold processRequest, deref. rewrite Hq. cbn [mbind res_bind]. rewrite Hp.
  cbn [negb FBI_ASSERT mbind res_bind].
  unfold routeHandlesProcessRequest, deref. cbn [heap store on_proxy].
  rewrite lookup_insert_eq. cbn [mbind res_bind orig_req with_processing].
  rewrite H1, H2. unfold proxy_request_incref, deref. cbn [heap store on_proxy].
  rewrite lookup_insert_eq. cbn [mbind res_bind _refcount with_processing].
  apply Z.ltb_lt in Hpos. rewrite Hpos. cbn [FBI_ASSERT mbind res_bind].
  intros [= <-]. done.
Qed.

(** The loop on a ready queue hands nothing to the front end and runs no
    completion callback: what it admits goes to routing tasks. *)
Lemma pump_quiet l : forall w w',
  waitingRequests_ (proxy w) = l -> queue_ready w -> pump w = Ok w' ->
  enqueued w' = enqueued w /\ completed w' = completed w.
Proof.
  induction l as [|a rest IH]; intros w w' Hw [Hnd Hready]; rewrite pump_unfold, Hw.
  { rewrite andb_false_r. by intros [= <-]. }
  rewrite bool_decide_eq_false_2 by done. cbn [negb]. rewrite andb_true_r.
  destruct (_ <? _)%Z eqn:Hlt; [| by intros [= <-]].
  cbn zeta. rewrite Hw in Hnd, Hready. apply NoDup_cons in Hnd as [Hna Hnd].
  destruct (Hready a) as (q & Hq & Hp & Hpos & Hin); [by left |].
  set (w0 := on_proxy (stat_decr proxy_reqs_waiting_stat 1)
               (on_proxy (with_waitingRequests rest) w)).
  destruct (processRequest_fiber_Ok a w0 q) as (w1 & Hp1 & Hh1 & Hn1 & Hw1 & Hf1 & Ho1);
    try done.
  destruct (processRequest_fiber_quiet a w0 q w1) as [He1 Hc1]; try done.
  rewrite Hp1. cbn [mbind res_bind].
  rewrite (proxy_request_decref_shared a w1
             (with_refcount (_refcount q + 1) (with_processing true q))).
  2:{ by rewrite Hh1, lookup_insert_eq. }
  2:{ cbn. lia. }
  cbn [mbind res_bind _refcount with_refcount].
  set (w2 := store a _ w1).
  assert (heap w2 = <[a := with_processing true q]> (heap w)) as Hh2.
  { subst w2. cbn. rewrite Hh1. cbn. rewrite insert_insert_eq.
    f_equal. rewrite Z.add_simpl_r. by destruct q. }
  assert (waitingRequests_ (proxy w2) = rest) as Hw2.
  { subst w2. cbn. by rewrite Hw1. }
  intros Hpump. destruct (IH w2 w' Hw2) as [He Hc]; [| exact Hpump |].
  { split; [by rewrite Hw2 |]. rewrite Hw2. intros b Hb.
    destruct (Hready b) as (qb & Hqb & ?); [by right |].
    exists qb. split; [| done]. rewrite Hh2, lookup_insert_ne; [done |].
    intros ->. done. }
  rewrite He, Hc. subst w2. cbn. by rewrite He1, Hc1.
Qed.

(** X10 (sendReply, continueSendReply, proxy_request_decref): the front
    end is handed a reply once, whatever the [sync] option. On a worker
    whose queue is as [dispatchRequest] builds it ([queue_ready]: the
    waiting requests are distinct, alive, not in process and none of them
    is answered in line), for a request without reply or delay, held by
    one reference, [sendReply] followed by the drop of that reference
    returns and calls [enqueueReply_] exactly once, with the reply carrying
    the request's operation: from [sendReply] when [sync] is off, from
    [proxy_request_decref] when it is on. The completion callback runs if
    it is set, no other callback runs, and the request is gone; the
    requests that the drop admits from the queue hand nothing to the front
    end. With an empty queue the heap is left as it was, less the
    request. *)
Theorem reply_delivered_once a m w q :
  heap w !! a = Some q -> reply q = None ->
  reply_state q = REPLY_STATE_NO_REPLY -> delay_reply q = 0%Z ->
  _refcount q = 1%Z -> queue_ready w ->
  let r := set_op (if legacy_get_service_info q then mc_op_get
                   else op (orig_req q)) m in
  exists w1 w2,
    sendReply a m w = Ok w1 /\
    proxy_request_decref a w1 = Ok w2 /\
    enqueued w1 = enqueued w ++ (if sync (opts (proxy w)) then [] else [(a, Some r)]) /\
    enqueued w2 = enqueued w ++ [(a, Some r)] /\
    completed w1 = completed w /\
    completed w2 = completed w ++ (if reqComplete_ q then [a] else []) /\
    heap w2 !! a = None /\
    (waitingRequests_ (proxy w) = [] -> heap w2 = delete a (heap w)).
Proof.
  intros Hq Hr Hst Hd H1 [Hnd Hready] r.
  rewrite (sendReply_unfold a m w q Hq Hr), Hst, Hd.
  cbn [negb bool_decide decide_rel Z.eqb]. rewrite bool_decide_eq_true_2 by done.
  cbn [negb]. fold r.
  set (q1 := with_reply (Some r) q).
  destruct (continueSendReply_replied a (store a q1 w) q1 r)
    as (w1 & Hc & _); [cbn; by rewrite lookup_insert_eq | done |].
  pose proof Hc as (q1' & r' & Hq1 & Hr1 & Hh1 & Hp1 & Hc1 & He1)%continueSendReply_Ok.
  cbn in Hq1. rewrite lookup_insert_eq in Hq1. injection Hq1 as <-.
  cbn in Hr1. injection Hr1 as <-. cbn in Hh1, Hc1, He1.
  rewrite insert_insert_eq in Hh1.
  set (q2 := with_reply_state REPLY_STATE_REPLIED q1) in *.
  assert (heap w1 !! a = Some q2) as Hq2 by (by rewrite Hh1, lookup_insert_eq).
  assert (enqueued w ++ (if sync (opts (proxy w)) then [] else [(a, Some r)]) ++
            (if sync (opts (proxy w1)) &&
                bool_decide (reply_state q2 = REPLY_STATE_REPLIED)
             then [(a, reply q2)] else [])
          = enqueued w ++ [(a, Some r)]) as Honce.
  { rewrite Hp1. cbn. rewrite bool_decide_eq_true_2 by done.
    destruct (sync _); cbn; by rewrite ?app_nil_r. }
  exists w1. destruct (processing_ q) eqn:Hproc.
  - destruct (proxy_request_decref_last a w1 q2 Hq2 H1 Hproc)
      as (w1' & Hh1' & Hp1' & He1' & Hc1' & Hdec).
    assert (a ∉ waitingRequests_ (proxy w)) as Hna.
    { intros (qa & Hqa & Hpa & _)%Hready. congruence. }
    assert (waitingRequests_ (proxy w1') = waitingRequests_ (proxy w)) as Hw1'.
    { rewrite Hp1', Hp1. done. }
    assert (queue_ready w1') as Hready'.
    { split; [by rewrite Hw1' |]. rewrite Hw1'. intros c Hc'.
      destruct (Hready c Hc') as (qc & Hqc & ?).
      exists qc. split; [| done].
      assert (c <> a) by (intros ->; done).
      by rewrite Hh1', lookup_delete_ne, Hh1, lookup_insert_ne. }
    destruct (pump_fifo_aux _ w1' eq_refl Hready')
      as (k & w2 & Hpump & _ & _ & _ & _ & _ & _ & _ & Hout).
    destruct (pump_quiet _ w1' w2 eq_refl Hready' Hpump) as [He2 Hc2].
    exists (on_proxy (stat_decr proxy_request_num_outstanding_stat 1) w2).
    rewrite Hdec, Hpump. cbn [mbind res_bind on_proxy heap enqueued completed].
    split; [exact Hc |]. split; [done |]. split; [exact He1 |].
    split; [by rewrite He2, He1', He1, <- app_assoc |].
    split; [exact Hc1 |]. split; [by rewrite Hc2, Hc1', Hc1 |]. split.
    + rewrite Hout, Hh1'; [apply lookup_delete_eq |].
      rewrite Hw1'. intros Ha%subseteq_take. done.
    + intros Hempty. unfold pump in Hpump. rewrite pump_fuel_empty in Hpump by (by rewrite Hw1').
      injection Hpump as <-. by rewrite Hh1', Hh1, delete_insert_eq.
  - destruct (proxy_request_decref_last_unprocessed a w1 q2 Hq2 H1 Hproc)
      as (w2 & Hdec & Hh2 & He2 & Hc2).
    exists w2. split; [exact Hc |]. split; [exact Hdec |]. split; [exact He1 |].
    split; [by rewrite He2, He1, <- app_assoc |].
    split; [exact Hc1 |]. split; [by rewrite Hc2, Hc1 |]. split.
    + rewrite Hh2. apply lookup_delete_eq.
    + intros _. by rewrite Hh2, Hh1, delete_insert_eq.
Qed.


End ReplyDelivery.

(** X10 on the worker with requests 3 and 4 waiting, for the [set] in
    process at address 1. *)
Lemma reply_delivered_once_witness :
  let w := Demo.two_waiting in
  let r := mk_msg mc_op_set mc_res_stored "" "" in
  exists w1 w2,
    @sendReply Demo.collaborators 1 r w = Ok w1 /\
    @proxy_request_decref Demo.collaborators 1 w1 = Ok w2 /\
    enqueued w1 = enqueued w ++ (if sync (opts (proxy w)) then [] else [(1, Some r)]) /\
    enqueued w2 = enqueued w ++ [(1, Some r)] /\
    completed w1 = completed w /\
    completed w2 = completed w ++ [1] /\
    heap w2 !! 1 = None /\
    (waitingRequests_ (proxy w) = [] -> heap w2 = delete 1 (heap w)).
Proof.
  refine (@reply_delivered_once Demo.collaborators 1
            (mk_msg mc_op_set mc_res_stored "" "") Demo.two_waiting
            (mk_preq (Demo.request mc_op_set "a") None REPLY_STATE_NO_REPLY 0 0 1 0
               false true true) _ _ _ _ _ _).
  - vm_compute. reflexivity.
  - reflexivity.
  - reflexivity.
  - reflexivity.
  - reflexivity.
  - split.
    + apply (bool_decide_unpack (NoDup [3; 4])). vm_compute. exact I.
    + intros c Hc. cbn in Hc.
      apply elem_of_cons in Hc as [-> | Hc];
        [| apply elem_of_cons in Hc as [-> | Hc]; [| by apply elem_of_nil in Hc]].
      * eexists. split; [vm_compute; reflexivity |]. split_and!; [done | done | done].
      * eexists. split; [vm_compute; reflexivity |]. split_and!; [done | done | done].
Defined.


(** ** Replies made from C strings *)

Section CStringReplies.
#[local] Open Scope string_scope.

Lemma c_str_cut s :
  nul_free (Str.c_str s) /\
  (s = Str.c_str s \/ exists rest, s = Str.c_str s ++ String zero rest).
Proof.
  unfold nul_free. induction s as [|a s [IH1 IH2]]; simpl; [by split; [| left] |].
  destruct (Ascii.eqb a zero) eqn:Ha.
  - apply Ascii.eqb_eq in Ha as ->. split; [done |]. right. by exists s.
  - simpl. rewrite Ha, IH1. split; [done |].
    destruct IH2 as [IH2 | [rest IH2]].
    + left. by rewrite <- IH2.
    + right. exists rest. by rewrite <- IH2.
Qed.

Lemma c_str_append s1 s2 :
  Str.c_str (s1 ++ s2)
  = if Str.lacks zero s1 then s1 ++ Str.c_str s2 else Str.c_str s1.
Proof.
  induction s1 as [|a s1 IH]; simpl; [done |].
  destruct (Ascii.eqb a zero); simpl; [done |].
  rewrite IH. by destruct (Str.lacks zero s1).
Qed.

Lemma cut_unique v v' s :
  nul_free v -> nul_free v' ->
  (s = v \/ exists rest, s = v ++ String zero rest) ->
  (s = v' \/ exists rest, s = v' ++ String zero rest) ->
  v = v'.
Proof.
  unfold nul_free. revert v' s. induction v as [|a v IH]; intros v' s Hv Hv' H H'.
  - destruct v' as [|b v']; [done |]. exfalso.
    simpl in Hv'. apply andb_prop in Hv' as [Hb _].
    apply negb_true_iff, Ascii.eqb_neq in Hb.
    destruct H as [-> | [rest ->]], H' as [H' | [rest' H']]; simpl in H'; congruence.
  - simpl in Hv. apply andb_prop in Hv as [Ha Hv].
    apply negb_true_iff, Ascii.eqb_neq in Ha.
    destruct v' as [|b v'].
    { exfalso. destruct H as [-> | [rest ->]], H' as [H' | [rest' H']];
        simpl in H'; congruence. }
    simpl in Hv'. apply andb_prop in Hv' as [_ Hv'].
    destruct s as [|c s].
    { destruct H as [H | [rest H]]; simpl in H; congruence. }
    assert (c = a /\ (s = v \/ exists rest, s = v ++ String zero rest)) as [-> Hs].
    { destruct H as [H | [rest H]]; simpl in H; injection H as -> ->; eauto. }
    assert (a = b /\ (s = v' \/ exists rest, s = v' ++ String zero rest)) as [-> Hs'].
    { destruct H' as [H' | [rest H']]; simpl in H'; injection H' as -> ->; eauto. }
    f_equal. by apply (IH v' s).
Qed.

(** X12 (new_reply, create_reply): the reply made from a C string
    carries the given operation and result, no key, and as its value the
    string up to its first NUL byte: the value has no NUL byte and is
    either the whole string or what stands before a NUL byte in it, and it
    is the only string of which that holds. *)
Theorem create_reply_value o r str :
  let m := create_reply o r str in
  op m = o /\ result m = r /\ key m = "" /\
  nul_free (value m) /\
  (str = value m \/ exists rest, str = value m ++ String zero rest) /\
  forall v, nul_free v ->
    (str = v \/ exists rest, str = v ++ String zero rest) -> value m = v.
Proof.
  cbn. destruct (c_str_cut str) as [H1 H2]. split_and!; try done.
  intros v Hv Hs. by apply (cut_unique _ _ str).
Qed.

(** X13 (routeHandlesProcessRequest, create_reply): the reply made for
    a route that throws is always there, with result [mc_res_local_error],
    the request's operation, and a text without NUL byte that starts with
    [error routing]. A NUL byte in the key or in the exception's message
    cuts the text short there: with a NUL-free key the text is
    [error routing <key>: ] and the message up to its first NUL byte, and
    otherwise it ends with the key up to its first NUL byte. *)
Theorem routing_error_text q what :
  let m := fiber_result q (route_threw what) in
  let k := key (orig_req q) in
  op m = op (orig_req q) /\ result m = mc_res_local_error /\
  nul_free (value m) /\
  value m
  = "error routing " ++
    (if Str.lacks zero k then k ++ ": " ++ Str.c_str what else Str.c_str k).
Proof.
  cbn [fiber_result create_reply new_reply op result value key].
  split; [done |]. split; [done |]. split; [apply c_str_cut |].
  rewrite (c_str_append "error routing "). cbn [Str.lacks Ascii.eqb negb andb].
  change (Str.lacks zero "error routing ") with true. cbv iota. f_equal.
  rewrite c_str_append. destruct (Str.lacks zero (key (orig_req q))); [| done].
  f_equal. rewrite (c_str_append ": "). change (Str.lacks zero ": ") with true.
  cbv iota. f_equal. destruct (c_str_cut what) as [H _].
  by apply c_str_nul_free.
Qed.

End CStringReplies.

(** ** Swapping configurations *)

Section ConfigSwap.

Lemma stat_get_stats_set g s n st :
  stat_get g (stats_set s n st) = if decide (g = s) then n else stat_get g st.
Proof.
  unfold stats_set, stat_get at 1. rewrite lookup_insert.
  destruct (decide (g = s)) as [->|]; [by rewrite decide_True |].
  by rewrite decide_False.
Qed.

Lemma count_servers_fold pools : forall p,
  foldl count_servers p pools = with_stats (stats (foldl count_servers p pools)) p /\
  forall s,
    stat_get s (stats (foldl count_servers p pools))
    = if decide (s = num_servers_stat)
      then (stat_get s (stats p)
            + foldr (fun pool n => (servers_of pool + n)%Z) 0%Z pools)%Z
      else stat_get s (stats p).
Proof.
  induction pools as [|pool pools IH]; intros p; cbn [foldl foldr].
  { split; [by destruct p |]. intros s. case_decide; lia. }
  destruct (IH (count_servers p pool)) as [IH1 IH2]. split.
  - rewrite IH1 at 1. unfold count_servers.
    by destruct (pool_type pool.2), p.
  - intros s. rewrite IH2. unfold count_servers, servers_of.
    destruct (pool_type pool.2); unfold stat_incr; cbn [stats with_stats];
      rewrite ?stat_get_stats_incr; repeat case_decide; try done; lia.
Qed.

(** X14 (proxy_config_swap, proxy_t::swapConfig): after the swap the
    worker has the new configuration, [num_servers_stat] is the number of
    clients of its regular and regional pools whatever the statistic was
    before, [config_last_success_stat] is what the clock gave when it was
    read for it, and every other statistic is as before. The
    configuration that was replaced is put on the worker's request queue,
    behind what is there, stamped with the next reading of the clock,
    unless the router is synchronous or there was none; the clock is read
    twice when an entry is queued and once otherwise. *)
Theorem proxy_config_swap_effect time reads p config :
  let p' := (proxy_config_swap time reads p config).1 in
  let reads' := (proxy_config_swap time reads p config).2 in
  config_ p' = Some config /\
  stat_get num_servers_stat (stats p') = num_servers config /\
  stat_get config_last_success_stat (stats p') = time reads /\
  (forall s, s <> num_servers_stat -> s <> config_last_success_stat ->
     stat_get s (stats p') = stat_get s (stats p)) /\
  match config_ p with
  | Some old =>
      if sync (opts p)
      then request_queue p' = request_queue p /\ reads' = S reads
      else request_queue p'
           = request_queue p ++ [request_type_old_config old (time (S reads))] /\
           reads' = S (S reads)
  | None => request_queue p' = request_queue p /\ reads' = S reads
  end.
Proof.
  cbn zeta. split; [apply proxy_config_swap_frame |].
  split_and!; [| apply proxy_config_swap_success_stat | |].
  - rewrite proxy_config_swap_unfold.
    destruct (count_servers_fold (poolsMap config)
                (stat_set_uint64 num_servers_stat 0 p)) as [E Hs].
    set (p1 := foldl count_servers _ _) in *. cbn zeta.
    assert (stat_get num_servers_stat
              (stats (stat_set_uint64 config_last_success_stat (time reads)
                        (with_config (Some config) p1))) = num_servers config) as Hn.
    { unfold stat_set_uint64 at 1. cbn [stats with_stats with_config].
      rewrite stat_get_stats_set, decide_False by done. rewrite Hs, decide_True by done.
      unfold stat_set_uint64. cbn [stats with_stats].
      rewrite stat_get_stats_set, decide_True by done. unfold num_servers. lia. }
    by destruct (config_ p) as [old|], (negb (sync (opts p))).
  - intros s H1 H2. rewrite proxy_config_swap_unfold.
    destruct (count_servers_fold (poolsMap config)
                (stat_set_uint64 num_servers_stat 0 p)) as [E Hs].
    set (p1 := foldl count_servers _ _) in *. cbn zeta.
    assert (stat_get s
              (stats (stat_set_uint64 config_last_success_stat (time reads)
                        (with_config (Some config) p1))) = stat_get s (stats p)) as Hn.
    { unfold stat_set_uint64 at 1. cbn [stats with_stats with_config].
      rewrite stat_get_stats_set, decide_False by done. rewrite Hs, decide_False by done.
      unfold stat_set_uint64. cbn [stats with_stats].
      by rewrite stat_get_stats_set, decide_False. }
    by destruct (config_ p) as [old|], (negb (sync (opts p))).
  - pose proof (proxy_config_swap_queue time reads p config) as Hq.
    pose proof (proxy_config_swap_reads time reads p config) as Hr.
    unfold reads_of in Hr.
    destruct (config_ p) as [old|]; [destruct (sync (opts p)) |];
      rewrite ?app_nil_r in Hq; (split; [exact Hq | lia]).
Qed.

Lemma swap_all_cons time reads p c l :
  swap_all time reads p (c :: l)
  = swap_all time (proxy_config_swap time reads p c).2
      (proxy_config_swap time reads p c).1 l.
Proof. unfold swap_all. cbn [foldl fst snd]. by destruct (proxy_config_swap _ _ _ _). Qed.

Lemma swap_all_sync time l : forall reads p,
  sync (opts p) = true ->
  request_queue (swap_all time reads p l).1 = request_queue p.
Proof.
  induction l as [|c l IH]; intros reads p Hs; [done |].
  rewrite swap_all_cons.
  destruct (proxy_config_swap_frame time reads p c) as (Ho & _).
  pose proof (proxy_config_swap_queue time reads p c) as Hq.
  rewrite IH by (by rewrite Ho). rewrite Hq, Hs.
  destruct (config_ p); by rewrite app_nil_r.
Qed.

Lemma zip_with_seq_shift {A B} (f : A -> nat -> B) xs : forall n k,
  zip_with f xs (seq (S k) n) = zip_with (fun a i => f a (S i)) xs (seq k n).
Proof.
  induction xs as [|x xs IH]; intros [|n] k; cbn [seq zip_with]; try done.
  by rewrite IH.
Qed.

Lemma swap_all_async time l : forall reads p c0,
  sync (opts p) = false -> config_ p = Some c0 ->
  request_queue (swap_all time reads p l).1
  = request_queue p ++
    zip_with (fun old i => request_type_old_config old (time (reads + 2 * i + 1)))
      (c0 :: l) (seq 0 (length l)).
Proof.
  induction l as [|c l IH]; intros reads p c0 Hs Hc.
  { cbn. by rewrite app_nil_r. }
  rewrite swap_all_cons.
  destruct (proxy_config_swap_frame time reads p c)
    as (Ho & _ & _ & _ & _ & _ & _ & _ & Hc').
  pose proof (proxy_config_swap_queue time reads p c) as Hq.
  pose proof (proxy_config_swap_reads time reads p c) as Hr.
  unfold reads_of in Hr. rewrite Hc, Hs in Hr, Hq.
  rewrite (IH _ _ c) by (done || by rewrite Ho).
  rewrite Hq, Hr, <- app_assoc. f_equal.
  set (f := fun old i => request_type_old_config old (time (reads + 2 * i + 1))).
  change (zip_with f (c0 :: c :: l) (seq 0 (length (c :: l))))
    with (f c0 0 :: zip_with f (c :: l) (seq 1 (length l))).
  rewrite zip_with_seq_shift. subst f. cbn [app]. f_equal; [do 2 f_equal; lia |].
  apply zip_with_ext; [| done | done]. intros old i. do 2 f_equal. lia.
Qed.

Lemma last_cons_default {A} (l : list A) : forall c d,
  List.last (c :: l) d = List.last l c.
Proof.
  induction l as [|x l IH]; intros c d; [done |].
  change (List.last (c :: x :: l) d) with (List.last (x :: l) d).
  by rewrite !IH.
Qed.

(** X15 (proxy_config_swap): every configuration that is replaced is
    retired once, in the order of the swaps. After a worker of an
    asynchronous router that has a configuration is reconfigured with the
    configurations of [l], its request queue has gained one entry for each
    configuration but the last, the one before it first, each stamped with
    what the clock gave when the swap that replaced it read it for the
    entry (the second of the two reads of each swap), and the worker has
    the last configuration. A worker of a synchronous router gains no
    entry. *)
Theorem replaced_configs_retired_in_order time reads p c0 l :
  config_ p = Some c0 ->
  request_queue (swap_all time reads p l).1
  = request_queue p ++
    (if sync (opts p) then []
     else zip_with
            (fun old i => request_type_old_config old (time (reads + 2 * i + 1)))
            (c0 :: l) (seq 0 (length l))) /\
  config_ (swap_all time reads p l).1 = Some (List.last l c0).
Proof.
  intros Hc. split.
  - destruct (sync (opts p)) eqn:Hs.
    + rewrite swap_all_sync by done. by rewrite app_nil_r.
    + by apply swap_all_async.
  - clear -Hc. revert reads p c0 Hc.
    induction l as [|c l IH]; intros reads p c0 Hc; [done |].
    rewrite swap_all_cons.
    rewrite (IH _ _ c) by apply proxy_config_swap_frame.
    by rewrite last_cons_default.
Qed.

(** X15 on a worker that is reconfigured twice while the clock ticks:
    the clock is read at 10 and 11 for the first swap, at 12 and 13 for
    the second. *)
Lemma replaced_configs_retired_in_order_witness :
  let p := with_config (Some Demo.config) (Demo.worker 2) in
  let c1 := {| poolsMap := []; clientsMap := []; configMd5Digest := "c1" |} in
  let c2 := {| poolsMap := []; clientsMap := []; configMd5Digest := "c2" |} in
  request_queue (swap_all Demo.ticking 0 p [c1; c2]).1
  = [request_type_old_config Demo.config 11; request_type_old_config c1 13] /\
  config_ (swap_all Demo.ticking 0 p [c1; c2]).1 = Some c2.
Proof.
  apply (replaced_configs_retired_in_order Demo.ticking 0
           (with_config (Some Demo.config) (Demo.worker 2)) Demo.config
           [{| poolsMap := []; clientsMap := []; configMd5Digest := "c1" |};
            {| poolsMap := []; clientsMap := []; configMd5Digest := "c2" |}]).
  reflexivity.
Defined.

End ConfigSwap.

(** ** What reconfiguration leaves alone *)

Section ConfigureFrame.
Context `{!ConfigBuilder}.

Lemma same_but_destinations_frame p p' :
  same_but_destinations p p' ->
  opts p' = opts p /\ fiberManager p' = fiberManager p /\
  waitingRequests_ p' = waitingRequests_ p /\ stats p' = stats p /\
  default_route p' = default_route p /\ default_region p' = default_region p /\
  default_cluster p' = default_cluster p /\ request_queue p' = request_queue p /\
  config_ p' = config_ p /\ numRequestsProcessing_ p' = numRequestsProcessing_ p.
Proof. by intros [dm ->]. Qed.

(** X16 (router_configure, proxy_config_swap): reconfiguration does not
    touch the request engine. [router_configure] returns 0 or 1 and leaves
    as many workers as before; each keeps its options, its queue of waiting
    requests, its tasks, its counter of requests in process and its default
    route, region and cluster. With 1 every worker has a configuration;
    with 0 every worker has the configuration, the statistics and the
    request queue it had, so a worker that has a configuration never loses
    it. *)
Theorem router_configure_keeps_engine time router input :
  length (proxy_threads router) = num_proxies (router_opts router) ->
  0 < num_proxies (router_opts router) ->
  exists rc router',
    router_configure time router input = Ok (rc, router') /\
    (rc = 0%Z \/ rc = 1%Z) /\
    length (proxy_threads router') = length (proxy_threads router) /\
    forall i p, proxy_threads router !! i = Some p ->
      exists p',
        proxy_threads router' !! i = Some p' /\
        opts p' = opts p /\
        waitingRequests_ p' = waitingRequests_ p /\
        fiberManager p' = fiberManager p /\
        numRequestsProcessing_ p' = numRequestsProcessing_ p /\
        default_route p' = default_route p /\
        default_region p' = default_region p /\
        default_cluster p' = default_cluster p /\
        (rc = 1%Z -> is_Some (config_ p')) /\
        (rc = 0%Z -> config_ p' = config_ p /\ stats p' = stats p /\
                     request_queue p' = request_queue p) /\
        (is_Some (config_ p) -> is_Some (config_ p')).
Proof.
  destruct router as [o ps]. cbn [proxy_threads router_opts]. intros Hn Hpos.
  assert (exists p0, ps !! 0 = Some p0) as [p0 H0].
  { destruct ps; [simpl in Hn; lia | eauto]. }
  rewrite (router_configure_unfold time o ps p0 input H0) by done.
  assert (forall ps',
    Forall2 same_but_destinations ps ps' ->
    length ps' = length ps /\
    forall i p, ps !! i = Some p ->
      exists p', ps' !! i = Some p' /\
        opts p' = opts p /\ waitingRequests_ p' = waitingRequests_ p /\
        fiberManager p' = fiberManager p /\
        numRequestsProcessing_ p' = numRequestsProcessing_ p /\
        default_route p' = default_route p /\
        default_region p' = default_region p /\
        default_cluster p' = default_cluster p /\
        (0%Z = 1%Z -> is_Some (config_ p')) /\
        (0%Z = 0%Z -> config_ p' = config_ p /\ stats p' = stats p /\
                      request_queue p' = request_queue p) /\
        (is_Some (config_ p) -> is_Some (config_ p'))) as Hfailed.
  { intros ps' Hall. split; [symmetry; by eapply Forall2_length |].
    intros i p Hp. destruct (Forall2_lookup_l _ _ _ _ _ Hall Hp) as (p' & Hp' & Hsame).
    apply same_but_destinations_frame in Hsame
      as (? & ? & ? & ? & ? & ? & ? & ? & Hc & ?).
    exists p'. split_and!; try done. by rewrite Hc. }
  destruct (ProxyConfigBuilder_new _ _ _ _ _) as [builder | what].
  2:{ eexists _, _. split; [done |]. split; [by left |]. cbn [proxy_threads].
      apply Hfailed. apply Forall2_same_length_lookup. split; [done |].
      intros i x y ? ?. simplify_eq. apply same_but_destinations_refl. }
  destruct (build_list builder ps).2 as [cs|] eqn:Hb.
  2:{ eexists _, _. split; [done |]. split; [by left |]. cbn [proxy_threads].
      apply Hfailed, build_list_frame. }
  eexists _, _. split; [done |]. split; [by right |]. cbn [proxy_threads].
  destruct (build_list_done _ _ _ Hb) as [Hcs Hall].
  split.
  { rewrite swap_list_length; rewrite build_list_length; [done | lia]. }
  intros i p Hp. destruct (Hall i p Hp) as (_ & c & Hc & _ & Hps').
  eexists. split; [by apply swap_list_lookup |].
  destruct (proxy_config_swap_frame time
              (0 + reads_before (build_list builder ps).1 i) (built_proxy builder p) c)
    as (-> & _ & -> & -> & -> & -> & -> & -> & ->).
  split_and!; try done.
Qed.

End ConfigureFrame.

(** X16 on the router with one worker and a text that can be built. *)
Lemma router_configure_keeps_engine_witness :
  exists rc router',
    @router_configure Demo.builder Demo.ticking Demo.router "pools"
    = Ok (rc, router') /\
    (rc = 0%Z \/ rc = 1%Z) /\
    length (proxy_threads router') = length (proxy_threads Demo.router) /\
    forall i p, proxy_threads Demo.router !! i = Some p ->
      exists p',
        proxy_threads router' !! i = Some p' /\
        opts p' = opts p /\
        waitingRequests_ p' = waitingRequests_ p /\
        fiberManager p' = fiberManager p /\
        numRequestsProcessing_ p' = numRequestsProcessing_ p /\
        default_route p' = default_route p /\
        default_region p' = default_region p /\
        default_cluster p' = default_cluster p /\
        (rc = 1%Z -> is_Some (config_ p')) /\
        (rc = 0%Z -> config_ p' = config_ p /\ stats p' = stats p /\
                     request_queue p' = request_queue p) /\
        (is_Some (config_ p) -> is_Some (config_ p')).
Proof.
  apply (@router_configure_keeps_engine Demo.builder Demo.ticking Demo.router
           "pools").
  - reflexivity.
  - simpl. lia.
Defined.

(** ** The shadowing policy under runtime variables *)

Section ShadowingUpdates.
Import Shadowing ShadowingUpdate.
Variable double : Type.
Variable double_le : double -> double -> bool.
Variable double_0 double_1 : double.
Variable double_of_int : Z -> double.
Variable convertTo_vector_size_t : Shadowing.dynamic double -> Try (list N).
Variable convertTo_vector_double : Shadowing.dynamic double -> Try (list double).
Variable RuntimeVarsData : Type.
Variable getVariableByName : RuntimeVarsData -> string -> Shadowing.dynamic double.

Let Data_of_json :=
  Data_of_json double double_le double_0 double_1
    convertTo_vector_size_t convertTo_vector_double.
Let stage_index_range := stage_index_range double RuntimeVarsData getVariableByName.
Let stage_key_fraction_range :=
  stage_key_fraction_range double double_le double_0 double_1 double_of_int
    RuntimeVarsData getVariableByName.
Let on_update :=
  on_update double double_le double_0 double_1 double_of_int
    RuntimeVarsData getVariableByName.
Let data_after :=
  data_after double double_le double_0 double_1 double_of_int
    RuntimeVarsData getVariableByName.
Let data_after_all :=
  data_after_all double double_le double_0 double_1 double_of_int
    RuntimeVarsData getVariableByName.
Let Data_valid := Data_valid double double_le double_0 double_1.

Lemma Data_of_json_valid json d :
  double_le double_0 double_0 = true -> double_le double_0 double_1 = true ->
  Data_of_json json = Ok d -> Data_valid d.
Proof.
  intros H00 H01. unfold Data_of_json, Shadowing.Data_of_json. intros H.
  apply bind_Ok in H as (_ & _ & H).
  apply bind_Ok in H as (d1 & H1 & H).
  apply bind_Ok in H as (d2 & H2 & H).
  apply read_index_range_Ok in H1.
  apply read_rv_Ok in H as (E1 & E2 & E3 & E4).
  unfold Data_valid, ShadowingUpdate.Data_valid. rewrite E1, E2, E3, E4.
  assert ((start_index _ d1 <= end_index _ d1)%N /\
          start_key_fraction _ d1 = double_0 /\ end_key_fraction _ d1 = double_0)
    as (Hidx & Hs & He).
  { destruct (at_key double "index_range" json).
    - destruct H1 as [(_ & _ & Hle) ->]. done.
    - by subst d1. }
  clear H1. unfold read_key_fraction_range in H2.
  destruct (at_key double "key_fraction_range" json).
  - apply bind_Ok in H2 as (_ & _ & H2).
    apply bind_Ok in H2 as (ar & _ & H2).
    apply bind_Ok in H2 as (_ & _ & H2).
    apply bind_Ok in H2 as (_ & Hle%checkLogic_Ok & H2).
    apply Ok_inj in H2 as <-. cbn in *.
    apply andb_prop in Hle as [[? ?]%andb_prop ?]. done.
  - apply Ok_inj in H2 as <-. by rewrite Hs, He.
Qed.

Lemma stage_index_range_Ok d v r :
  stage_index_range d v = Ok r ->
  match r with Some (s, e) => (s <= e)%N | None => True end.
Proof.
  unfold stage_index_range, ShadowingUpdate.stage_index_range.
  destruct (negb (Str.empty _)); [| by intros [= <-]].
  destruct (negb (isNull _ _)); [| by intros [= <-]].
  intros H.
  apply bind_Ok in H as (_ & _ & H). apply bind_Ok in H as (_ & _ & H).
  apply bind_Ok in H as (_ & _ & H). apply bind_Ok in H as (_ & _ & H).
  apply bind_Ok in H as (_ & Hle%checkLogic_Ok%N.leb_le & H).
  by apply Ok_inj in H as <-.
Qed.

Lemma stage_key_fraction_range_Ok d v r :
  stage_key_fraction_range d v = Ok r ->
  match r with
  | Some (s, e) =>
      double_le double_0 s = true /\ double_le s e = true /\
      double_le e double_1 = true
  | None => True
  end.
Proof.
  unfold stage_key_fraction_range, ShadowingUpdate.stage_key_fraction_range.
  destruct (negb (Str.empty _)); [| by intros [= <-]].
  destruct (negb (isNull _ _)); [| by intros [= <-]].
  intros H.
  apply bind_Ok in H as (_ & _ & H). apply bind_Ok in H as (_ & _ & H).
  apply bind_Ok in H as (_ & _ & H). apply bind_Ok in H as (_ & _ & H).
  apply bind_Ok in H as (_ & Hle%checkLogic_Ok & H).
  apply Ok_inj in H as <-.
  apply andb_prop in Hle as [[[[? ?]%andb_prop ?]%andb_prop ?]%andb_prop ?]. done.
Qed.

(** What the callback publishes: the [Data] it was given with the staged
    bounds written in. *)
Lemma on_update_Ok d v d' :
  on_update d (Some v) = Ok (Some d') ->
  exists ri rf,
    stage_index_range d v = Ok ri /\ stage_key_fraction_range d v = Ok rf /\
    d' = (match rf with
          | Some (s, e) => with_key_fraction_range _ s e
          | None => fun x => x
          end)
           ((match ri with
             | Some (s, e) => with_index_range _ s e
             | None => fun x => x
             end) d).
Proof.
  unfold on_update, ShadowingUpdate.on_update. intros H.
  apply bind_Ok in H as (ri & Hi & H). apply bind_Ok in H as (rf & Hf & H).
  apply Ok_inj in H. injection H as <-.
  exists ri, rf. split; [exact Hi |]. split; [exact Hf |].
  by destruct ri as [[? ?]|], rf as [[? ?]|].
Qed.

Lemma data_after_cases d v :
  data_after d v = d \/
  exists v' d', v = Some v' /\ on_update d v = Ok (Some d') /\ data_after d v = d'.
Proof.
  unfold data_after, ShadowingUpdate.data_after. fold on_update.
  destruct v as [v|]; [| by left].
  destruct (on_update d (Some v)) as [[d'|]|] eqn:E; [| by left | by left].
  right. by exists v, d'.
Qed.

Lemma data_after_keeps d v :
  Data_valid d ->
  Data_valid (data_after d v) /\
  index_range_rv _ (data_after d v) = index_range_rv _ d /\
  key_fraction_range_rv _ (data_after d v) = key_fraction_range_rv _ d /\
  shadow_pool _ (data_after d v) = shadow_pool _ d /\
  shadow_type _ (data_after d v) = shadow_type _ d /\
  validate_replies _ (data_after d v) = validate_replies _ d.
Proof.
  intros Hd. destruct (data_after_cases d v) as [-> | (v' & d' & -> & Hu & ->)]; [done |].
  apply on_update_Ok in Hu as (ri & rf & Hi & Hf & ->).
  apply stage_index_range_Ok in Hi. apply stage_key_fraction_range_Ok in Hf.
  destruct Hd as (? & ? & ? & ?).
  destruct ri as [[? ?]|], rf as [[? ?]|]; cbn; split_and!; try done; tauto.
Qed.

(** X17 (Data::Data, registerOnUpdateCallback): the bounds of a
    shadowing policy are in order for as long as the policy lives. The
    [Data] the constructor builds from a document has
    [start_index <= end_index] and
    [0 <= start_key_fraction <= end_key_fraction <= 1], and so has the
    [Data] the policy holds after any series of changes of the runtime
    variables, whether the callback accepts them, ignores them or throws.
    The names of the runtime variables and the other settings are as the
    constructor left them. *)
Theorem shadowing_data_stays_valid json d0 changes :
  double_le double_0 double_0 = true -> double_le double_0 double_1 = true ->
  Data_of_json json = Ok d0 ->
  let d := data_after_all d0 changes in
  Data_valid d /\
  index_range_rv _ d = index_range_rv _ d0 /\
  key_fraction_range_rv _ d = key_fraction_range_rv _ d0 /\
  shadow_pool _ d = shadow_pool _ d0 /\
  shadow_type _ d = shadow_type _ d0 /\
  validate_replies _ d = validate_replies _ d0.
Proof.
  intros H00 H01 Hd0%Data_of_json_valid; [| done | done]. cbn zeta.
  unfold data_after_all, ShadowingUpdate.data_after_all. fold data_after.
  revert d0 Hd0. induction changes as [|v changes IH]; intros d0 Hd0; [done |].
  cbn [foldl]. destruct (data_after_keeps d0 v Hd0) as (Hv & E1 & E2 & E3 & E4 & E5).
  destruct (IH _ Hv) as (? & ? & ? & ? & ? & ?).
  split_and!; [done | | | | |]; congruence.
Qed.

(** X18 (registerOnUpdateCallback): the callback is idempotent. Run a
    second time on the same runtime variables it leaves the policy's [Data]
    as the first run left it. *)
Theorem on_update_idempotent d v :
  data_after (data_after d v) v = data_after d v.
Proof.
  destruct (data_after_cases d v) as [E | (v' & d' & -> & Hu & E)];
    [by rewrite !E |].
  rewrite E. pose proof Hu as (ri & rf & Hi & Hf & ->)%on_update_Ok.
  set (d' := _ (_ d)) in *.
  assert (index_range_rv _ d' = index_range_rv _ d /\
          key_fraction_range_rv _ d' = key_fraction_range_rv _ d) as [E1 E2].
  { subst d'. by destruct ri as [[? ?]|], rf as [[? ?]|]. }
  unfold data_after, ShadowingUpdate.data_after, ShadowingUpdate.on_update.
  assert (ShadowingUpdate.stage_index_range double RuntimeVarsData
            getVariableByName d' v' = Ok ri) as ->.
  { rewrite <- Hi. unfold stage_index_range, ShadowingUpdate.stage_index_range.
    by rewrite E1. }
  assert (ShadowingUpdate.stage_key_fraction_range double double_le double_0
            double_1 double_of_int RuntimeVarsData getVariableByName d' v'
          = Ok rf) as ->.
  { rewrite <- Hf.
    unfold stage_key_fraction_range, ShadowingUpdate.stage_key_fraction_range.
    by rewrite E2. }
  cbn [mbind res_bind]. subst d'.
  by destruct ri as [[? ?]|], rf as [[? ?]|], d.
Qed.

(** X19 (registerOnUpdateCallback): the bounds of [index_range_rv] are
    read as 64-bit sizes, so a negative integer counts as a large index.
    For a variable that holds two 64-bit integers [a] and [b], the callback
    accepts the range exactly when [a <= b] and both have the same sign, or
    when [a] is not negative and [b] is; the bounds it stages are [a] and
    [b] modulo [2^64]. Otherwise it throws. *)
Theorem index_range_update_signs d v a b :
  index_range_rv _ d <> ""%string ->
  getVariableByName v (index_range_rv _ d)
  = dyn_array _ [dyn_int64 _ a; dyn_int64 _ b] ->
  (- 2 ^ 63 <= a < 2 ^ 63)%Z -> (- 2 ^ 63 <= b < 2 ^ 63)%Z ->
  stage_index_range d v
  = if bool_decide ((a <= b /\ (0 <= a <-> 0 <= b)) \/ (0 <= a /\ b < 0))%Z
    then Ok (Some (Z.to_N (a mod 2 ^ 64), Z.to_N (b mod 2 ^ 64)))
    else Err (thrown "start_index > end_index").
Proof.
  intros Hname Hv Ha Hb.
  unfold stage_index_range, ShadowingUpdate.stage_index_range.
  destruct (index_range_rv _ d) eqn:En; [done |]. cbn [Str.empty negb].
  rewrite Hv. cbn [isNull negb isArray checkLogic mbind res_bind
                   ShadowingUpdate.size length bool_decide].
  rewrite bool_decide_eq_true_2 by done.
  cbn [checkLogic mbind res_bind at_index lookup list_lookup default from_option
       isInt asInt id]. unfold to_size_t.
  assert (forall z, (- 2 ^ 63 <= z < 2 ^ 63)%Z ->
            (z mod 2 ^ 64 = if decide (0 <= z) then z else z + 2 ^ 64)%Z) as Hmod.
  { intros z Hz. case_decide.
    - apply Z.mod_small. lia.
    - symmetry. apply (Z.mod_unique _ _ (-1)); lia. }
  rewrite (Hmod a Ha), (Hmod b Hb).
  destruct (_ <=? _)%N eqn:Hle.
  - apply N.leb_le in Hle. rewrite bool_decide_eq_true_2; [done |].
    repeat case_decide; lia.
  - apply N.leb_gt in Hle. rewrite bool_decide_eq_false_2; [done |].
    repeat case_decide; lia.
Qed.

End ShadowingUpdates.

(** X17 on a policy whose index range follows the variable [ir]: a
    new range, a range that runs backwards, and a call without
    variables. *)
Lemma shadowing_data_stays_valid_witness :
  let d := Scenes.policy_after Scenes.data_rv
             [Some (Scenes.range_var 1 9); Some (Scenes.range_var 10 2); None] in
  ShadowingUpdate.Data_valid _ Demo.double_le (Demo.double_of_Z 0)
    (Demo.double_of_Z 1) d /\
  Shadowing.index_range_rv _ d = Shadowing.index_range_rv _ Scenes.data_rv /\
  Shadowing.key_fraction_range_rv _ d
  = Shadowing.key_fraction_range_rv _ Scenes.data_rv /\
  Shadowing.shadow_pool _ d = Shadowing.shadow_pool _ Scenes.data_rv /\
  Shadowing.shadow_type _ d = Shadowing.shadow_type _ Scenes.data_rv /\
  Shadowing.validate_replies _ d = Shadowing.validate_replies _ Scenes.data_rv.
Proof.
  apply (shadowing_data_stays_valid _ Demo.double_le (Demo.double_of_Z 0)
           (Demo.double_of_Z 1) Demo.double_of_Z (Demo.convert_all Demo.to_size_t)
           (Demo.convert_all Demo.to_double) Scenes.runtime_vars
           Scenes.getVariableByName Scenes.policy_rv Scenes.data_rv
           [Some (Scenes.range_var 1 9); Some (Scenes.range_var 10 2); None]).
  - reflexivity.
  - reflexivity.
  - vm_compute. reflexivity.
Defined.

(** X19 on the range [5, -1]: it is accepted, and ends at the largest
    size. *)
Lemma index_range_update_signs_witness :
  ShadowingUpdate.stage_index_range _ Scenes.runtime_vars Scenes.getVariableByName
    Scenes.data_rv (Scenes.range_var 5 (-1))
  = Ok (Some (5%N, 18446744073709551615%N)).
Proof.
  apply (index_range_update_signs _ Scenes.runtime_vars Scenes.getVariableByName
           Scenes.data_rv (Scenes.range_var 5 (-1)) 5 (-1)).
  - discriminate.
  - reflexivity.
  - lia.
  - lia.
Defined.

(** The bounds follow a variable that changes, and stay when the new
    value runs backwards. *)
Example index_range_follows_variable :
  let bounds d := (Shadowing.start_index _ d, Shadowing.end_index _ d) in
  bounds (Scenes.policy_after Scenes.data_rv [Some (Scenes.range_var 1 9)])
  = (1%N, 9%N) /\
  bounds (Scenes.policy_after Scenes.data_rv
            [Some (Scenes.range_var 1 9); Some (Scenes.range_var 10 2)])
  = (1%N, 9%N) /\
  bounds (Scenes.policy_after Scenes.data_rv [Some []; None]) = (3%N, 7%N).
Proof. vm_compute. done. Qed.

(** ** The end of a pool *)

Section PoolTeardownFacts.
Import PoolTeardown.
Context {members : Type}.
Implicit Types (live : gmap nat (ProxyClientCommon members)) (clients : list nat).

Lemma clear_pool_lookup this live c d :
  clear_pool this live c !! d
  = if bool_decide (d = c)
    then (fun client => if bool_decide (pool client = Some this)
                        then with_pool None client else client) <$> live !! d
    else live !! d.
Proof.
  unfold clear_pool. case_bool_decide as Hd.
  - subst d. destruct (live !! c) as [client|] eqn:Hc; [| by rewrite Hc].
    cbn. case_bool_decide; [by rewrite lookup_insert_eq | by rewrite Hc].
  - destruct (live !! c) as [client|]; [| done].
    case_bool_decide; [by rewrite lookup_insert_ne | done].
Qed.

Lemma ProxyPool_delete_lookup this clients : forall live d,
  ProxyPool_delete this clients live !! d
  = if bool_decide (d ∈ clients)
    then (fun client => if bool_decide (pool client = Some this)
                        then with_pool None client else client) <$> live !! d
    else live !! d.
Proof.
  unfold ProxyPool_delete.
  induction clients as [|c clients IH]; intros live d; cbn [foldl].
  { by rewrite bool_decide_eq_false_2 by apply not_elem_of_nil. }
  rewrite IH, clear_pool_lookup.
  destruct (decide (d = c)) as [-> | Hne].
  - rewrite (bool_decide_eq_true_2 (c = c)) by done.
    rewrite (bool_decide_eq_true_2 (c ∈ c :: clients)) by left.
    destruct (live !! c) as [client|]; cbn; [| by case_bool_decide].
    case_bool_decide as Hin; [| done]. cbn. f_equal.
    destruct (bool_decide (pool client = Some this)) eqn:Hp.
    + by rewrite bool_decide_eq_false_2.
    + by rewrite Hp.
  - rewrite (bool_decide_eq_false_2 (d = c)) by done.
    case_bool_decide as Hin.
    + by rewrite bool_decide_eq_true_2 by (by right).
    + rewrite bool_decide_eq_false_2; [done |].
      intros [? | ?]%elem_of_cons; done.
Qed.

(** X20 (ProxyPool::~ProxyPool): when a pool is destroyed, no live
    client on its list is left pointing to it, and nothing else changes.
    A client of the list that points to the pool has its [pool] pointer
    cleared; a client that points to another pool, as one that
    reconfiguration has moved, keeps it; clients that are not on the list
    are not touched, and no client appears or goes. *)
Theorem ProxyPool_delete_clears_own_clients this clients live :
  let live' := ProxyPool_delete this clients live in
  (forall c client, c ∈ clients -> live' !! c = Some client ->
     pool client <> Some this) /\
  (forall c client, live !! c = Some client ->
     live' !! c
     = Some (if bool_decide (c ∈ clients /\ pool client = Some this)
             then with_pool None client else client)) /\
  (forall c, live !! c = None -> live' !! c = None).
Proof.
  cbn zeta. split_and!.
  - intros c client Hin. rewrite ProxyPool_delete_lookup, bool_decide_eq_true_2 by done.
    destruct (live !! c) as [client0|]; [| done]. cbn. intros [= <-].
    case_bool_decide; [done | done].
  - intros c client Hc. rewrite ProxyPool_delete_lookup, Hc.
    case_bool_decide as Hin; cbn.
    + f_equal. case_bool_decide as Hp.
      * by rewrite bool_decide_eq_true_2.
      * rewrite bool_decide_eq_false_2; [done | tauto].
    + rewrite bool_decide_eq_false_2; [done | tauto].
  - intros c Hc. rewrite ProxyPool_delete_lookup, Hc. by case_bool_decide.
Qed.

End PoolTeardownFacts.

(** ** Invariants of the admission queue and of the requests *)

Section EngineInvariants.
Context {C : Collaborators}.

Lemma pump_fuel_post n : forall w w',
  pump_fuel n w = Ok w' -> work_conserving w'.
Proof.
  induction n as [|n IH]; intros w w'.
  - cbn [pump_fuel]. destruct (_ <? _)%Z eqn:Hlt; cbn [andb].
    + case_bool_decide as Hw; cbn [negb]; [| done].
      intros [= <-]. by left.
    + intros [= <-]. right. by apply Z.ltb_ge.
  - rewrite pump_fuel_S. destruct (_ <? _)%Z eqn:Hlt; cbn [andb].
    + case_bool_decide as Hw; cbn [negb]; [intros [= <-]; by left |].
      destruct (waitingRequests_ (proxy w)) as [|a rest]; [done |].
      intros Hp. apply bind_Ok in Hp as (w1 & _ & Hp).
      apply bind_Ok in Hp as (w2 & _ & Hp). by eapply IH.
    + intros [= <-]. right. by apply Z.ltb_ge.
Qed.

(** X21 (pump): when [pump] returns, the queue is empty or the counter
    has reached the limit, and a second [pump] changes nothing. *)
Theorem pump_saturates w w' :
  pump w = Ok w' ->
  (waitingRequests_ (proxy w') = [] \/
   (proxy_max_inflight_requests (opts (proxy w'))
      <= numRequestsProcessing_ (proxy w'))%Z) /\
  pump w' = Ok w'.
Proof.
  intros Hp. apply pump_fuel_post in Hp as Hpost. split; [exact Hpost |].
  rewrite pump_unfold. destruct Hpost as [-> | Hge].
  - by rewrite andb_false_r.
  - apply Z.ltb_ge in Hge. by rewrite Hge.
Qed.

Lemma work_conserving_same w w' :
  opts (proxy w') = opts (proxy w) ->
  waitingRequests_ (proxy w') = waitingRequests_ (proxy w) ->
  (numRequestsProcessing_ (proxy w) <= numRequestsProcessing_ (proxy w'))%Z ->
  work_conserving w -> work_conserving w'.
Proof.
  unfold work_conserving. intros -> -> Hn [? | ?]; [by left | right; lia].
Qed.

Lemma local_step_work_conserving a w w' :
  local_step a w w' -> work_conserving w -> work_conserving w'.
Proof.
  intros (? & ? & _ & _ & _ & _ & _ & _ & _ & Hc & Hn & Hw & _).
  apply work_conserving_same; [by apply proxy_core_opts | done | lia].
Qed.

Lemma processRequest_work_conserving a w w' :
  processRequest a w = Ok w' -> work_conserving w -> work_conserving w'.
Proof.
  intros (q & _ & _ & Hstep & _)%processRequest_step.
  destruct Hstep as (? & ? & _ & _ & _ & _ & _ & _ & Hc & Hn & Hw & _).
  apply work_conserving_same; [by apply proxy_core_opts | done | lia].
Qed.

Lemma proxy_request_decref_work_conserving a w w' :
  proxy_request_decref a w = Ok w' -> work_conserving w -> work_conserving w'.
Proof.
  intros (q & Hq & Hpos & Hcases)%proxy_request_decref_with_Ok.
  destruct Hcases as [(_ & _ & Hp) | [(_ & _ & _ & Hp) |
                      (_ & _ & w1 & w2 & _ & _ & Hfw & _ & Hp)]].
  - apply work_conserving_same; rewrite Hp; done.
  - apply work_conserving_same; rewrite Hp; done.
  - intros _. apply pump_fuel_post in Hfw. revert Hfw.
    unfold work_conserving. by rewrite Hp.
Qed.

Lemma step_work_conserving e w w' :
  step e w = Ok w' -> work_conserving w -> work_conserving w'.
Proof.
  destruct e as [a req rc sid | a | a out | a | a | a d | a | a]; cbn [step].
  - intros (q & _ & _ & _ & Hp & _)%proxy_request_new_Ok.
    apply work_conserving_same; rewrite Hp; done.
  - intros (q & Hq & [(Hr & _ & ->) | (_ & Hp)])%dispatchRequest_Ok;
      [| by eapply processRequest_work_conserving].
    intros Hwc. right. cbn. revert Hr. unfold rateLimited.
    destruct (_ =? _)%Z; [done |]. destruct (_ || _); [done |].
    destruct (_ <? _)%Z eqn:Hlt.
    + rewrite andb_true_r. case_bool_decide as Hw; [done |]. intros _.
      destruct Hwc as [? | ?]; [done | lia].
    + intros _. by apply Z.ltb_ge.
  - intros (tasks & q & w1 & _ & _ & _ & Hs & Hd)%fiber_task_Ok Hwc.
    eapply proxy_request_decref_work_conserving; [exact Hd |].
    eapply local_step_work_conserving; [by eapply sendReply_local |]. done.
  - intros (q & _ & _ & ->)%proxy_request_incref_Ok. done.
  - apply proxy_request_decref_work_conserving.
  - intros Hs. by res_inv.
  - intros Hc. eapply local_step_work_conserving. by apply continueSendReply_local.
  - unfold proxy_on_continue_reply_error. intros Hc. res_inv.
    destruct (_ && _); [| by res_inv].
    eapply local_step_work_conserving. by apply continueSendReply_local.
Qed.

(** X22 (dispatchRequest, rateLimited, ~proxy_request_t, pump): the
    admission queue is work conserving. If no request waits while the
    counter is below the limit, then that is still so after any events:
    a request is queued only when the limit is reached, and every request
    that ends hands over to [pump]. *)
Theorem queue_is_work_conserving evs : forall w w',
  work_conserving w -> run evs w = Ok w' ->
  waitingRequests_ (proxy w') = [] \/
  (proxy_max_inflight_requests (opts (proxy w'))
     <= numRequestsProcessing_ (proxy w'))%Z.
Proof.
  induction evs as [|e evs IH]; intros w w' Hwc; cbn [run].
  - by intros [= <-].
  - intros Hr. apply bind_Ok in Hr as (w1 & Hs & Hr).
    apply (IH w1 w'); [by eapply step_work_conserving | done].
Qed.

(** X23 (the request engine): request processing never reconfigures.
    Across any events the worker keeps its options, its configuration,
    its destination map, its default route, region and cluster, and its
    intake queue. *)
Theorem engine_never_reconfigures evs w w' :
  run evs w = Ok w' ->
  opts (proxy w') = opts (proxy w) /\
  config_ (proxy w') = config_ (proxy w) /\
  destinationMap (proxy w') = destinationMap (proxy w) /\
  default_route (proxy w') = default_route (proxy w) /\
  default_region (proxy w') = default_region (proxy w) /\
  default_cluster (proxy w') = default_cluster (proxy w) /\
  request_queue (proxy w') = request_queue (proxy w).
Proof.
  intros Hc%run_proxy_core. unfold proxy_core in Hc.
  injection Hc as -> -> -> -> -> -> ->. done.
Qed.

(** *** Requests between construction and destruction *)

Lemma all_referenced_insert h a q :
  all_referenced h -> (0 < _refcount q)%Z -> all_referenced (<[a := q]> h).
Proof.
  intros Hh Hq b qb. rewrite lookup_insert. case_decide.
  - by intros [= <-].
  - apply Hh.
Qed.

Lemma all_referenced_delete h a : all_referenced h -> all_referenced (delete a h).
Proof.
  intros Hh b qb. rewrite lookup_delete. case_decide; [done | apply Hh].
Qed.

Lemma local_step_referenced a w w' :
  local_step a w w' -> all_referenced (heap w) -> all_referenced (heap w').
Proof.
  intros (q & q' & Hq & -> & _ & Hrc & _) Hh.
  apply all_referenced_insert; [done |]. rewrite Hrc. by eapply Hh.
Qed.

Lemma processRequest_referenced a w w' :
  processRequest a w = Ok w' -> all_referenced (heap w) -> all_referenced (heap w').
Proof.
  intros (q & _ & _ & Hstep & _)%processRequest_step Hh.
  destruct Hstep as (q0 & q' & Hq & -> & _ & Hrc & _).
  apply all_referenced_insert; [done |]. rewrite Hrc.
  specialize (Hh _ _ Hq). destruct (answered_inline _); lia.
Qed.

Lemma proxy_request_decref_with_referenced f a w w' :
  (forall w1 w2, f w1 = Ok w2 ->
     all_referenced (heap w1) -> all_referenced (heap w2)) ->
  proxy_request_decref_with f a w = Ok w' ->
  all_referenced (heap w) -> all_referenced (heap w').
Proof.
  intros Hf (q & Hq & Hpos & Hcases)%proxy_request_decref_with_Ok Hh.
  destruct Hcases as [(Hgt & -> & _) | [(_ & _ & -> & _) |
                      (_ & _ & w1 & w2 & Hh1 & _ & Hfw & -> & _)]].
  - apply all_referenced_insert; [done |]. cbn. lia.
  - by apply all_referenced_delete.
  - apply (Hf _ _ Hfw). rewrite Hh1. by apply all_referenced_delete.
Qed.

Lemma pump_fuel_referenced n : forall w w',
  pump_fuel n w = Ok w' -> all_referenced (heap w) -> all_referenced (heap w').
Proof.
  induction n as [|n IH]; intros w w'.
  { simpl. destruct (_ && _); [done |]. by intros [= <-]. }
  rewrite pump_fuel_S.
  destruct (_ <? _)%Z; cbn [andb]; [| by intros [= <-]].
  destruct (waitingRequests_ (proxy w)) as [|a rest] eqn:Hw; [by intros [= <-] |].
  rewrite bool_decide_eq_false_2 by done. cbn [negb]. intros Hp Hh.
  apply bind_Ok in Hp as (w1 & Hproc & Hp).
  apply bind_Ok in Hp as (w2 & Hdec & Hp).
  apply (IH _ _ Hp).
  apply (proxy_request_decref_with_referenced _ _ _ _ IH Hdec).
  by apply (processRequest_referenced _ _ _ Hproc).
Qed.

Lemma step_referenced e w w' :
  step e w = Ok w' -> all_referenced (heap w) -> all_referenced (heap w').
Proof.
  destruct e as [a req rc sid | a | a out | a | a | a d | a | a]; cbn [step].
  - intros (q & _ & _ & -> & _ & Hq & _)%proxy_request_new_Ok Hh.
    apply all_referenced_insert; [done |]. by rewrite Hq.
  - intros (q & Hq & [(_ & Hpos & ->) | (_ & Hp)])%dispatchRequest_Ok;
      [| by eapply processRequest_referenced].
    intros Hh. cbn. apply all_referenced_insert; [done |]. cbn. lia.
  - intros (tasks & q & w1 & _ & _ & _ & Hs & Hd)%fiber_task_Ok Hh.
    apply (proxy_request_decref_with_referenced _ _ _ _
             (fun w1 w2 => pump_fuel_referenced _ w1 w2) Hd).
    eapply local_step_referenced; [by eapply sendReply_local |]. done.
  - intros (q & _ & Hpos & ->)%proxy_request_incref_Ok Hh.
    cbn. apply all_referenced_insert; [done |]. cbn. lia.
  - apply proxy_request_decref_with_referenced.
    intros w1 w2. apply pump_fuel_referenced.
  - intros Hs Hh. res_inv. cbn. apply all_referenced_insert; [done |].
    cbn. by eapply Hh.
  - intros Hc. eapply local_step_referenced. by apply continueSendReply_local.
  - unfold proxy_on_continue_reply_error. intros Hc. res_inv.
    destruct (_ && _); [| by res_inv].
    eapply local_step_referenced. by apply continueSendReply_local.
Qed.

(** X24 (proxy_request_t, proxy_request_incref, proxy_request_decref):
    a live request is a referenced request. If every live request has a
    positive reference count, then so has every request that is alive
    after any events: the count reaches zero only as the request is
    deleted. *)
Theorem live_requests_are_referenced evs : forall w w',
  all_referenced (heap w) -> run evs w = Ok w' ->
  forall a q, heap w' !! a = Some q -> (0 < _refcount q)%Z.
Proof.
  induction evs as [|e evs IH]; intros w w' Hh; cbn [run].
  - by intros [= <-].
  - intros Hr. apply bind_Ok in Hr as (w1 & Hs & Hr).
    apply (IH w1 w'); [by eapply step_referenced | done].
Qed.

Lemma step_alive_before e w w' a q' :
  step e w = Ok w' -> (forall req rc sid, e <> ev_new a req rc sid) ->
  heap w' !! a = Some q' -> is_Some (heap w !! a).
Proof.
  intros Hs Hne Hq'.
  assert ((exists b req rc sid, e = ev_new b req rc sid) \/
          (forall b req rc sid, e <> ev_new b req rc sid))
    as [(b & req & rc & sid & ->) | Hother].
  { destruct e; [left; eauto | right; done ..]. }
  - cbn in Hs. apply proxy_request_new_Ok in Hs as (q & _ & _ & Hh & _).
    rewrite Hh, lookup_insert_ne in Hq'; [by eexists |].
    intros ->. by eapply Hne.
  - destruct (step_heap_le e w w' Hs Hother _ _ Hq') as (q & Hq & _). by eexists.
Qed.

(** X25 (the request engine): between its construction and its
    destruction a request only moves forward. Over any events that do not
    construct a request at its address, a request that is alive at the end
    was alive all along: it has the [orig_req] and the
    [legacy_get_service_info] flag it started with, a reply that was set
    is still its reply, its [reply_state] has not gone back, and once in
    process it stays in process. *)
Theorem request_only_moves_forward evs : forall w w' a q q',
  not_constructed a evs ->
  run evs w = Ok w' ->
  heap w !! a = Some q -> heap w' !! a = Some q' ->
  orig_req q' = orig_req q /\
  legacy_get_service_info q' = legacy_get_service_info q /\
  (forall r, reply q = Some r -> reply q' = Some r) /\
  reply_rank (reply_state q) <= reply_rank (reply_state q') /\
  (processing_ q = true -> processing_ q' = true).
Proof.
  assert (forall evs w w' a q', not_constructed a evs -> run evs w = Ok w' ->
            heap w' !! a = Some q' -> is_Some (heap w !! a)) as Halive.
  { clear. induction evs as [|e evs IH]; intros w w' a q' Hnc; cbn [run].
    - intros [= <-] ?. by eexists.
    - intros Hr Hq'. apply bind_Ok in Hr as (w1 & Hs & Hr).
      destruct (IH w1 w' a q') as [q1 Hq1]; [| done | done |].
      { intros req rc sid Hin. eapply Hnc. right. exact Hin. }
      eapply step_alive_before; [exact Hs | | exact Hq1].
      intros req rc sid ->. eapply Hnc. by left. }
  assert (forall evs w w' a q q', not_constructed a evs -> run evs w = Ok w' ->
            heap w !! a = Some q -> heap w' !! a = Some q' -> req_le q q') as Hle.
  { clear -Halive. induction evs as [|e evs IH]; intros w w' a q q' Hnc; cbn [run].
    - intros [= <-] ? ?. assert (q' = q) as -> by congruence. apply req_le_refl.
    - intros Hr Hq Hq'. apply bind_Ok in Hr as (w1 & Hs & Hr).
      assert (not_constructed a evs) as Hnc'.
      { intros req rc sid Hin. eapply Hnc. right. exact Hin. }
      destruct (Halive evs w1 w' a q' Hnc' Hr Hq') as [q1 Hq1].
      eapply req_le_trans; [by eapply step_req_le | by eapply IH]. }
  intros w w' a q q' Hnc Hr Hq Hq'.
  destruct (Hle evs w w' a q q' Hnc Hr Hq Hq') as [? ? ? ? ?]. done.
Qed.

End EngineInvariants.

Lemma fresh_world_empty M :
  heap (Demo.fresh_world M) = ∅ /\ waitingRequests_ (proxy (Demo.fresh_world M)) = [].
Proof.
  unfold Demo.fresh_world. destruct (proxy_t_new _) as [p|] eqn:Hp; [| done].
  apply proxy_t_new_books in Hp as (_ & _ & Hw). done.
Qed.

(** X21 on the worker with limit 3, two requests in flight and two
    waiting. *)
Lemma pump_saturates_witness :
  let w' := Demo.the_world (@pump Demo.collaborators Demo.two_waiting) in
  (waitingRequests_ (proxy w') = [] \/
   (proxy_max_inflight_requests (opts (proxy w'))
      <= numRequestsProcessing_ (proxy w'))%Z) /\
  @pump Demo.collaborators w' = Ok w'.
Proof.
  apply (@pump_saturates Demo.collaborators Demo.two_waiting).
  apply Ok_the_world. vm_compute. reflexivity.
Defined.

(** X22 on a new worker with limit 1 that admits a [set] and then a
    [version]. *)
Lemma queue_is_work_conserving_witness :
  let w' := Demo.the_world (@run Demo.collaborators Demo.set_then_version
                              (Demo.fresh_world 1)) in
  waitingRequests_ (proxy w') = [] \/
  (proxy_max_inflight_requests (opts (proxy w'))
     <= numRequestsProcessing_ (proxy w'))%Z.
Proof.
  apply (@queue_is_work_conserving Demo.collaborators Demo.set_then_version
           (Demo.fresh_world 1)).
  - left. apply fresh_world_empty.
  - apply Ok_the_world. vm_compute. reflexivity.
Defined.

(** X23 on the same run. *)
Lemma engine_never_reconfigures_witness :
  let w := Demo.fresh_world 1 in
  let w' := Demo.the_world (@run Demo.collaborators Demo.set_then_version w) in
  opts (proxy w') = opts (proxy w) /\
  config_ (proxy w') = config_ (proxy w) /\
  destinationMap (proxy w') = destinationMap (proxy w) /\
  default_route (proxy w') = default_route (proxy w) /\
  default_region (proxy w') = default_region (proxy w) /\
  default_cluster (proxy w') = default_cluster (proxy w) /\
  request_queue (proxy w') = request_queue (proxy w).
Proof.
  apply (@engine_never_reconfigures Demo.collaborators Demo.set_then_version
           (Demo.fresh_world 1)).
  apply Ok_the_world. vm_compute. reflexivity.
Defined.

(** X24 on the same run: the [set] is alive at its end. *)
Lemma live_requests_are_referenced_witness : (0 < _refcount Demo.the_set)%Z.
Proof.
  apply (@live_requests_are_referenced Demo.collaborators Demo.set_then_version
           (Demo.fresh_world 1)
           (Demo.the_world (@run Demo.collaborators Demo.set_then_version
                              (Demo.fresh_world 1)))
           ltac:(intros a q; rewrite (proj1 (fresh_world_empty 1)), lookup_empty;
                 discriminate)
           ltac:(apply Ok_the_world; vm_compute; reflexivity)
           1 Demo.the_set).
  vm_compute. reflexivity.
Defined.

(** X25 on the [set] in flight, across the end of its routing task. *)
Lemma request_only_moves_forward_witness :
  let q := Demo.the_set in
  let q' := Scenes.the_set_replied in
  orig_req q' = orig_req q /\
  legacy_get_service_info q' = legacy_get_service_info q /\
  (forall r, reply q = Some r -> reply q' = Some r) /\
  reply_rank (reply_state q) <= reply_rank (reply_state q') /\
  (processing_ q = true -> processing_ q' = true).
Proof.
  apply (@request_only_moves_forward Demo.collaborators
           [ev_fiber 1 (route_replied Scenes.stored)] Demo.set_in_flight
           (Demo.the_world (@run Demo.collaborators
                              [ev_fiber 1 (route_replied Scenes.stored)]
                              Demo.set_in_flight)) 1).
  - intros req rc sid Hin. apply list_elem_of_singleton in Hin. discriminate.
  - apply Ok_the_world. vm_compute. reflexivity.
  - vm_compute. reflexivity.
  - vm_compute. reflexivity.
Defined.
